(** * Conway's Game of Life (src/main.py): the simulation core

    The grid is a NumPy integer array shared between the [GameOfLife] window
    and its [GridWidget]; a generation is computed with rolled copies of the
    array, and three series (live cells, occupancy, growth) are derived from
    the history of live-cell counts each time the plot is redrawn.

    The model keeps the array store explicit (the grid is reached through a
    reference held by both objects), NumPy's 64-bit integers with their
    wrap-around, Python's exceptions as an error result, and IEEE 754
    binary64 numbers through the operations of [SpecFloat]. *)

From Stdlib Require Import ZArith List Lia.
From Stdlib.Floats Require Import SpecFloat.
From stdpp Require Import base list gmap.

Open Scope Z_scope.

(** * The program *)

(** ** Machine numbers *)

(** NumPy's [int64]: every arithmetic result is reduced to the signed
    64-bit range. *)
Definition wrap64 (z : Z) : Z := (z + 2 ^ 63) mod 2 ^ 64 - 2 ^ 63.

(** Python's [float] and NumPy's [float64] are IEEE 754 binary64. *)
Definition float64 : Type := spec_float.
Definition prec : Z := 53.
Definition emax : Z := 1024.

(** Conversion of an integer operand of [/] or [*] to binary64
    (round to nearest, ties to even). *)
Definition float_of_int (z : Z) : float64 := binary_normalize prec emax z 0 false.
Definition float_div (a b : float64) : float64 := SFdiv prec emax a b.
Definition float_mul (a b : float64) : float64 := SFmul prec emax a b.
Definition float_lt (a b : float64) : bool := SFltb a b.
Definition float_le (a b : float64) : bool := SFleb a b.

(** The literal [0.2]: the binary64 number nearest to one fifth,
    [0x1.999999999999ap-3]. *)
Definition float_0_2 : float64 := S754_finite false 7205759403792794 (-55).

(** ** Python exceptions *)

Inductive exn : Type :=
  | ZeroDivisionError
  | ValueError
  | IndexError
  | KeyError.

Inductive result (A : Type) : Type :=
  | Ok (a : A)
  | Raise (e : exn).
Arguments Ok {A} a.
Arguments Raise {A} e.

#[global] Instance result_ret : MRet result := fun A a => Ok a.
#[global] Instance result_bind : MBind result := fun A B f m =>
  match m with
  | Ok a => f a
  | Raise e => Raise e
  end.

(** ** Two-dimensional arrays

    An array of shape [(h, w)] is the list of its [h] rows (axis 0), each a
    list of [w] elements (axis 1); [a[y][x]] is element [x] of row [y]. *)

Abbreviation ndarray A := (list (list A)) (only parsing).

Definition has_shape {A} (h w : nat) (a : ndarray A) : Prop :=
  length a = h /\ Forall (fun row => length row = w) a.

Definition same_shape {A B} (a : ndarray A) (b : ndarray B) : Prop :=
  length a = length b /\ Forall2 (fun r s => length r = length s) a b.

#[global] Instance same_shape_dec {A B} (a : ndarray A) (b : ndarray B) :
  Decision (same_shape a b).
Proof. unfold same_shape. apply _. Defined.

(** [a[y][x]] for indices already known to be non-negative. *)
Definition cell {A} (a : ndarray A) (y x : nat) : option A :=
  row ← a !! y; row !! x.

(** [np.roll] along one axis of length [n]: the element at index [i] moves
    to index [(i + shift) mod n]; the last [shift mod n] elements come
    first. *)
Definition roll {A} (shift : Z) (l : list A) : list A :=
  let n := length l in
  if decide (n = 0%nat) then l
  else
    let k := Z.to_nat (shift mod Z.of_nat n) in
    drop (n - k)%nat l ++ take (n - k)%nat l.

Inductive axis : Type := Axis0 | Axis1.

Definition np_roll {A} (a : ndarray A) (shift : Z) (ax : axis) : ndarray A :=
  match ax with
  | Axis0 => roll shift a
  | Axis1 => roll shift <$> a
  end.

(** Element-wise operations on arrays of equal shape, and with a scalar. *)
Definition np_map {A B} (f : A -> B) (a : ndarray A) : ndarray B :=
  fmap (M:=list) f <$> a.

Definition np_zip {A B C} (f : A -> B -> C) (a : ndarray A) (b : ndarray B)
  : ndarray C :=
  zip_with (zip_with f) a b.

Definition np_add (a b : ndarray Z) : ndarray Z :=
  np_zip (fun u v => wrap64 (u + v)) a b.

(** [c + a] for a Python integer [c]. *)
Definition np_radd (c : Z) (a : ndarray Z) : ndarray Z :=
  np_map (fun v => wrap64 (c + v)) a.

(** [a == c] *)
Definition np_eq (a : ndarray Z) (c : Z) : ndarray bool :=
  np_map (fun v => Z.eqb v c) a.

Definition np_and (a b : ndarray bool) : ndarray bool := np_zip andb a b.
Definition np_or (a b : ndarray bool) : ndarray bool := np_zip orb a b.

(** [a.astype(int)] on a boolean array. *)
Definition astype_int (a : ndarray bool) : ndarray Z :=
  np_map (fun b : bool => if b then 1 else 0) a.

(** [np.sum(a)]: the sum of all elements, accumulated in [int64]. *)
Definition np_sum (a : ndarray Z) : Z :=
  foldl (fun acc v => wrap64 (acc + v)) 0 (concat a).

(** [a[:] = c]: every element of the same array becomes [c]. *)
Definition np_fill {A} (a : ndarray A) (c : A) : ndarray A :=
  np_map (fun _ => c) a.

(** [a[:, :] = b] and [a[:] = b] for a source of the target's shape; NumPy
    raises [ValueError] when the source cannot be laid over the target. *)
Definition np_assign {A} (a b : ndarray A) : result (ndarray A) :=
  if decide (same_shape a b) then Ok b else Raise ValueError.

(** ** One generation (the array expressions of [update_state]) *)

(** The pairs [(i, j)] of the generator expression, in its order. *)
Definition shifts : list (Z * Z) :=
  filter (fun ij => negb (Z.eqb (fst ij) 0) || negb (Z.eqb (snd ij) 0))
    (i ← [-1; 0; 1]; j ← [-1; 0; 1]; [(i, j)]).

(** Python's [sum] starts from the integer [0]: the first array is added to
    it, the others to the running array. *)
Definition py_sum (arrays : list (ndarray Z)) : ndarray Z :=
  match arrays with
  | [] => []
  | a :: rest => foldl np_add (np_radd 0 a) rest
  end.

Definition neighbors (grid : ndarray Z) : ndarray Z :=
  py_sum ((fun ij => np_roll (np_roll grid (fst ij) Axis0) (snd ij) Axis1)
            <$> shifts).

Definition new_grid (grid : ndarray Z) : ndarray bool :=
  let nb := neighbors grid in
  np_or (np_and (np_eq grid 1) (np_or (np_eq nb 2) (np_eq nb 3)))
        (np_and (np_eq grid 0) (np_eq nb 3)).

(** ** The program state

    [arrays] is the store of NumPy arrays, by object identity. The window
    ([GameOfLife]) and its [GridWidget] each hold a reference to the grid
    array; the widget receives the window's reference in [__init__]. *)

Abbreviation loc := nat (only parsing).

Record GridWidget : Type := {
  gw_grid : loc;
  gw_cell_size : Z;
  x_offset : Z;
  y_offset : Z
}.

(** What the plot shows: [ax.plot(xs, ys, label=...)]. *)
Inductive label : Type := LiveCells | OccupancyPct | GrowthDelta.

Inductive ydata : Type :=
  | IntData (l : list Z)
  | FloatData (l : list float64).

Definition ydata_length (d : ydata) : nat :=
  match d with
  | IntData l => length l
  | FloatData l => length l
  end.

Record line : Type := {
  line_label : label;
  line_x : list Z;
  line_y : ydata
}.

(** A filled rectangle of [paintEvent]: corner, side, and whether black. *)
Record rect : Type := {
  rect_x : Z;
  rect_y : Z;
  rect_side : Z;
  rect_black : bool
}.

Record GameOfLife : Type := {
  arrays : gmap loc (ndarray Z);
  grid_size : Z;
  cell_size : Z;
  grid : loc;
  generation : Z;
  live_history : list Z;
  grid_widget : GridWidget;
  ax : list line;
  painted : list rect
}.

Definition set_arrays (f : gmap loc (ndarray Z) -> gmap loc (ndarray Z))
    (s : GameOfLife) : GameOfLife :=
  {| arrays := f (arrays s); grid_size := grid_size s; cell_size := cell_size s;
     grid := grid s; generation := generation s; live_history := live_history s;
     grid_widget := grid_widget s; ax := ax s; painted := painted s |}.

Definition set_generation (n : Z) (s : GameOfLife) : GameOfLife :=
  {| arrays := arrays s; grid_size := grid_size s; cell_size := cell_size s;
     grid := grid s; generation := n; live_history := live_history s;
     grid_widget := grid_widget s; ax := ax s; painted := painted s |}.

Definition set_live_history (h : list Z) (s : GameOfLife) : GameOfLife :=
  {| arrays := arrays s; grid_size := grid_size s; cell_size := cell_size s;
     grid := grid s; generation := generation s; live_history := h;
     grid_widget := grid_widget s; ax := ax s; painted := painted s |}.

Definition set_ax (l : list line) (s : GameOfLife) : GameOfLife :=
  {| arrays := arrays s; grid_size := grid_size s; cell_size := cell_size s;
     grid := grid s; generation := generation s; live_history := live_history s;
     grid_widget := grid_widget s; ax := l; painted := painted s |}.

Definition set_painted (p : list rect) (s : GameOfLife) : GameOfLife :=
  {| arrays := arrays s; grid_size := grid_size s; cell_size := cell_size s;
     grid := grid s; generation := generation s; live_history := live_history s;
     grid_widget := grid_widget s; ax := ax s; painted := p |}.

(** Reading the array behind a reference. A reference held by an object is
    always live in Python; a dangling one is reported as [KeyError]. *)
Definition load (s : GameOfLife) (l : loc) : result (ndarray Z) :=
  match arrays s !! l with
  | Some a => Ok a
  | None => Raise KeyError
  end.

(** Writing into the array behind a reference: the reference stays, the
    contents change for every holder of it. *)
Definition store (l : loc) (a : ndarray Z) (s : GameOfLife) : GameOfLife :=
  set_arrays (fun m => <[l := a]> m) s.

(** ** Python indexing and arithmetic *)

(** [l[i]]: a negative index counts from the end; outside the list it is an
    [IndexError]. *)
Definition py_index (n : nat) (i : Z) : result nat :=
  let j := if decide (i < 0) then i + Z.of_nat n else i in
  if decide (0 <= j < Z.of_nat n) then Ok (Z.to_nat j) else Raise IndexError.

Definition getitem {A} (l : list A) (i : Z) : result A :=
  k ← py_index (length l) i;
  match l !! k with
  | Some v => Ok v
  | None => Raise IndexError
  end.

Definition setitem {A} (l : list A) (i : Z) (v : A) : result (list A) :=
  k ← py_index (length l) i;
  Ok (<[k := v]> l).

(** [a // b] *)
Definition floordiv (a b : Z) : result Z :=
  if decide (b = 0) then Raise ZeroDivisionError else Ok (a / b).

(** ** GridWidget.paintEvent *)

Definition paintEvent (gw : GridWidget) (a : ndarray Z) : list rect :=
  concat (imap (fun y row =>
            imap (fun x v =>
                    {| rect_x := Z.of_nat x * gw_cell_size gw + x_offset gw;
                       rect_y := Z.of_nat y * gw_cell_size gw + y_offset gw;
                       rect_side := gw_cell_size gw - 1;
                       rect_black := Z.eqb v 1 |}) row) a).

(** [self.grid_widget.repaint()]: the widget paints the array behind its own
    reference. *)
Definition repaint (s : GameOfLife) : result GameOfLife :=
  a ← load s (gw_grid (grid_widget s));
  Ok (set_painted (paintEvent (grid_widget s) a) s).

(** ** GameOfLife.update_plot *)

(** [list(range(1, n + 1))] *)
Definition generations (history : list Z) : list Z :=
  (fun i => Z.of_nat i) <$> seq 1 (length history).

(** [[(v / (self.grid_size ** 2)) * 100 for v in self.live_history]] *)
Definition occupancy (grid_size : Z) (history : list Z) : list float64 :=
  (fun v => float_mul (float_div (float_of_int v) (float_of_int (grid_size ^ 2)))
                      (float_of_int 100))
  <$> history.

(** [[0] + [h[i] - h[i - 1] for i in range(1, len(h))]]; every index the
    comprehension uses lies inside the list (see [growth_indices_in_range]). *)
Definition growth (history : list Z) : list Z :=
  0 :: ((fun i => wrap64 (history !!! i - history !!! (i - 1)%nat))
        <$> seq 1 (length history - 1)).

(** [ax.plot(xs, ys, ...)]: Matplotlib refuses series of different lengths
    with a [ValueError]. *)
Definition ax_plot (lbl : label) (xs : list Z) (ys : ydata) : result line :=
  if decide (length xs = ydata_length ys)
  then Ok {| line_label := lbl; line_x := xs; line_y := ys |}
  else Raise ValueError.

Definition update_plot (s : GameOfLife) : result GameOfLife :=
  let s := set_generation (generation s + 1) s in
  g ← load s (grid s);
  let live_cells := np_sum g in
  let s := set_live_history (live_history s ++ [live_cells]) s in
  let gens := generations (live_history s) in
  let occ := occupancy (grid_size s) (live_history s) in
  let gr := growth (live_history s) in
  l1 ← ax_plot LiveCells gens (IntData (live_history s));
  l2 ← ax_plot OccupancyPct gens (FloatData occ);
  l3 ← ax_plot GrowthDelta gens (IntData gr);
  Ok (set_ax [l1; l2; l3] s).

(** ** GameOfLife.update_state *)

Definition update_state (s : GameOfLife) : result GameOfLife :=
  g ← load s (grid s);
  g' ← np_assign g (astype_int (new_grid g));
  s ← repaint (store (grid s) g' s);
  update_plot s.

(** ** GameOfLife.clear_grid *)

Definition clear_grid (s : GameOfLife) : result GameOfLife :=
  g ← load s (grid s);
  let s := store (grid s) (np_fill g 0) s in
  let s := set_live_history [] s in
  let s := set_generation 0 s in
  s ← repaint s;
  update_plot s.

(** ** GameOfLife.randomize_grid *)

(** [np.random.rand(h, w)]: [draws] is the generator's stream of samples,
    laid out in row-major order. A negative dimension is a [ValueError], and
    so is an array whose size in bytes (eight per [float64]) does not fit
    the signed 64-bit size of an array. *)
Definition np_random_rand (draws : nat -> float64) (h w : Z)
  : result (ndarray float64) :=
  if decide (h < 0 \/ w < 0) then Raise ValueError
  else if decide (2 ^ 63 <= h * w * 8) then Raise ValueError
  else Ok ((fun y => (fun x => draws (y * Z.to_nat w + x)%nat)
                       <$> seq 0 (Z.to_nat w))
           <$> seq 0 (Z.to_nat h)).

(** [(np.random.rand(n, n) < 0.2).astype(int)] *)
Definition random_grid (draws : nat -> float64) (n : Z) : result (ndarray Z) :=
  r ← np_random_rand draws n n;
  Ok (astype_int (np_map (fun v => float_lt v float_0_2) r)).

Definition randomize_grid (draws : nat -> float64) (s : GameOfLife)
  : result GameOfLife :=
  r ← random_grid draws (grid_size s);
  g ← load s (grid s);
  g' ← np_assign g r;
  let s := store (grid s) g' s in
  let s := set_live_history [] s in
  let s := set_generation 0 s in
  s ← repaint s;
  update_plot s.

(** ** GameOfLife.mousePressEvent *)

Record QMouseEvent : Type := { event_x : Z; event_y : Z }.

Definition mousePressEvent (event : QMouseEvent) (s : GameOfLife)
  : result GameOfLife :=
  x ← floordiv (event_x event - x_offset (grid_widget s)) (cell_size s);
  y ← floordiv (event_y event - y_offset (grid_widget s)) (cell_size s);
  if decide ((0 <= x < grid_size s) /\ (0 <= y < grid_size s)) then
    g ← load s (grid s);
    row ← getitem g y;
    v ← getitem row x;
    row' ← setitem row x (wrap64 (1 - v));
    g' ← setitem g y row';
    repaint (store (grid s) g' s)
  else Ok s.

(** ** GameOfLife.__init__ *)

Definition init (draws : nat -> float64) (grid_size cell_size : Z)
  : result GameOfLife :=
  g ← random_grid draws grid_size;
  let l : loc := 0%nat in
  Ok {| arrays := {[ l := g ]};
        grid_size := grid_size;
        cell_size := cell_size;
        grid := l;
        generation := 0;
        live_history := [];
        grid_widget := {| gw_grid := l; gw_cell_size := cell_size;
                          x_offset := 20; y_offset := 60 |};
        ax := [];
        painted := [] |}.

(** ** Runs of the program: the events the window reacts to *)

Inductive event : Type :=
  | Timeout
  | ClearClicked
  | RandomizeClicked (draws : nat -> float64)
  | MousePress (e : QMouseEvent).

Definition handle (ev : event) (s : GameOfLife) : result GameOfLife :=
  match ev with
  | Timeout => update_state s
  | ClearClicked => clear_grid s
  | RandomizeClicked draws => randomize_grid draws s
  | MousePress e => mousePressEvent e s
  end.

(** The states the program can be in: after construction, and after each
    handled event. *)
Inductive reachable : GameOfLife -> Prop :=
  | reach_init draws n c s :
      init draws n c = Ok s -> reachable s
  | reach_step ev s s' :
      reachable s -> handle ev s = Ok s' -> reachable s'.

(** * Definitions used by the properties *)

(** ** Arrays as tables

    [tab h w F] is the array of shape [(h, w)] whose element [a[y][x]] is
    [F y x]. *)

Definition tab {A} (h w : nat) (F : Z -> Z -> A) : ndarray A :=
  (fun y => (fun x => F (Z.of_nat y) (Z.of_nat x)) <$> seq 0 w) <$> seq 0 h.

(** [a[y][x]] as a total function, [d] outside the array. *)
Definition get {A} (d : A) (a : ndarray A) (y x : Z) : A :=
  default d (cell a (Z.to_nat y) (Z.to_nat x)).

(** ** One generation at a single cell *)

(** The [int64] sum of a list, as [sum] and [np.sum] accumulate it. *)
Definition sum64 (vs : list Z) : Z := foldl (fun acc v => wrap64 (acc + v)) 0 vs.

(** The eight values the rolled arrays put at position [(y, x)]. *)
Definition around (F : Z -> Z -> Z) (h w : nat) (y x : Z) : list Z :=
  (fun ij => F ((y - fst ij) mod Z.of_nat h) ((x - snd ij) mod Z.of_nat w))
  <$> shifts.

(** The boolean expression of [new_grid] at one cell. *)
Definition rule (v nb : Z) : bool :=
  ((v =? 1) && ((nb =? 2) || (nb =? 3))) || ((v =? 0) && (nb =? 3)).

Definition bit (b : bool) : Z := if b then 1 else 0.

Definition binary (a : ndarray Z) : Prop :=
  Forall (Forall (fun v => v = 0 \/ v = 1)) a.

(** ** The rule as the specification words it

    A cell is alive when it holds [1]; the neighbour count of [(x, y)] adds
    the alive state of the eight positions [(x + dx, y + dy)], each
    coordinate taken modulo the width and the height. *)

Definition is_alive (a : ndarray Z) (x y : Z) : bool := get 0 a y x =? 1.

Definition offsets : list (Z * Z) :=
  filter (fun d => negb ((fst d =? 0) && (snd d =? 0)))
    (dx ← [-1; 0; 1]; dy ← [-1; 0; 1]; [(dx, dy)]).

Definition neighbor_count (a : ndarray Z) (width height x y : Z) : Z :=
  foldr Z.add 0
    ((fun d => bit (is_alive a ((x + fst d) mod width) ((y + snd d) mod height)))
     <$> offsets).

(** ** The states the handlers leave *)

(** The three lines [update_plot] draws for a history. *)
Definition lines (n : Z) (h : list Z) : list line :=
  [ {| line_label := LiveCells; line_x := generations h; line_y := IntData h |};
    {| line_label := OccupancyPct; line_x := generations h;
       line_y := FloatData (occupancy n h) |};
    {| line_label := GrowthDelta; line_x := generations h;
       line_y := IntData (growth h) |} ].

(** Fields of a state after the setters. *)
Ltac simpl_state :=
  cbn [arrays grid_size cell_size grid generation live_history grid_widget ax
       painted set_arrays set_generation set_live_history set_ax set_painted
       store] in *.

(** The state once the grid array holds [g'] and the widget has repainted
    it; and the state once [update_plot] has recorded the count of [g'] and
    redrawn the plot. *)
Definition shown (g' : ndarray Z) (s : GameOfLife) : GameOfLife :=
  set_painted (paintEvent (grid_widget s) g') (store (grid s) g' s).

Definition recorded (g' : ndarray Z) (s : GameOfLife) : GameOfLife :=
  set_ax (lines (grid_size s) (live_history s ++ [np_sum g']))
    (set_live_history (live_history s ++ [np_sum g'])
       (set_generation (generation s + 1) s)).

(** The cell a mouse press lands on. *)
Definition cell_x (e : QMouseEvent) (s : GameOfLife) : Z :=
  (event_x e - x_offset (grid_widget s)) / cell_size s.
Definition cell_y (e : QMouseEvent) (s : GameOfLife) : Z :=
  (event_y e - y_offset (grid_widget s)) / cell_size s.

Definition in_bounds (x y n : Z) : Prop := (0 <= x < n) /\ (0 <= y < n).

(** [grid[y][x] = 1 - grid[y][x]] on the array. *)
Definition toggled (g : ndarray Z) (y x : Z) : ndarray Z :=
  <[Z.to_nat y := <[Z.to_nat x := wrap64 (1 - get 0 g y x)]> (g !!! Z.to_nat y)]> g.

(** ** The invariant of the running program *)

(** The array behind [self.grid] is square of side [grid_size], binary and
    small enough to exist; the widget paints the same array; every recorded
    count lies between zero and the number of cells. *)
Definition grid_ok (s : GameOfLife) (g : ndarray Z) : Prop :=
  arrays s !! grid s = Some g
  /\ has_shape (Z.to_nat (grid_size s)) (Z.to_nat (grid_size s)) g
  /\ binary g.

Definition history_ok (s : GameOfLife) : Prop :=
  Forall (fun v => 0 <= v <= grid_size s * grid_size s) (live_history s).

Definition consistent (s : GameOfLife) : Prop :=
  0 <= grid_size s
  /\ grid_size s * grid_size s * 8 < 2 ^ 63
  /\ gw_grid (grid_widget s) = grid s
  /\ (exists g, grid_ok s g)
  /\ history_ok s.

(** ** A concrete window: a 5 x 5 grid holding a horizontal blinker *)

Definition example_grid : ndarray Z :=
  [[0;0;0;0;0]; [0;1;1;1;0]; [0;0;0;0;0]; [0;0;0;0;0]; [0;0;0;0;0]].

Definition example_state : GameOfLife :=
  {| arrays := {[ 0%nat := example_grid ]};
     grid_size := 5;
     cell_size := 10;
     grid := 0%nat;
     generation := 0;
     live_history := [];
     grid_widget := {| gw_grid := 0%nat; gw_cell_size := 10;
                       x_offset := 20; y_offset := 60 |};
     ax := [];
     painted := [] |}.

(** Samples that give [example_grid]: below [0.2] exactly at the three
    cells of the blinker. *)
Definition example_draws (i : nat) : float64 :=
  if decide (6 <= i <= 8)%nat then S754_zero false
  else S754_finite false 4503599627370496 (-53).

(** A press 10 pixels from the left edge of the window: column [-1]. *)
Definition press_outside : QMouseEvent := {| event_x := 10; event_y := 75 |}.

(** A press on the cell in column 2 of row 1. *)
Definition press_inside : QMouseEvent := {| event_x := 45; event_y := 75 |}.

(** The example window after one timer tick. *)
Definition example_ticked : GameOfLife :=
  recorded (astype_int (new_grid example_grid))
    (shown (astype_int (new_grid example_grid)) example_state).

(** ** Statements of the specification *)

(** The claim of the specification about [clear()]: afterwards the grid
    has no live cell and each of the three series is empty. *)
Definition clear_leaves_series_empty (s : GameOfLife) : Prop :=
  forall s' g',
    clear_grid s = Ok s' ->
    arrays s' !! grid s' = Some g' ->
    np_sum g' = 0
    /\ live_history s' = []
    /\ occupancy (grid_size s') (live_history s') = []
    /\ growth (live_history s') = [].

(** The claim of the specification about the series of a history [h] of a
    grid of side [n]: the occupancy and growth series have the length of
    the history, and whenever the history is not empty the growth series
    starts with 0 and its element [i >= 1] is [h[i] - h[i-1]]. *)
Definition series_index_aligned (n : Z) (h : list Z) : Prop :=
  length (occupancy n h) = length h
  /\ length (growth h) = length h
  /\ (h <> [] ->
      growth h !! 0%nat = Some 0
      /\ forall (i : nat) (v u : Z),
           (1 <= i)%nat -> h !! i = Some v -> h !! (i - 1)%nat = Some u ->
           growth h !! i = Some (v - u)).

(** The example window with two counts already recorded. *)
Definition example_recorded : GameOfLife :=
  set_generation 2 (set_live_history [3; 5] example_state).

(** The occupancy of the specification: [v / (width * height) * 100]. *)
Definition occupancy_percent (v width height : Z) : float64 :=
  float_mul (float_div (float_of_int v) (float_of_int (width * height)))
            (float_of_int 100).

(** The pixel coordinates of a mouse press are divided by [cell_size]: the
    handler needs it to be non-zero; the other handlers need nothing. *)
Definition divides_pixels (ev : event) (s : GameOfLife) : Prop :=
  match ev with
  | MousePress _ => cell_size s <> 0
  | _ => True
  end.

(** The reference [l] is live and the array behind it has shape [(h, w)]. *)
Definition shape_at (s : GameOfLife) (l : loc) (h w : nat) : Prop :=
  exists a, arrays s !! l = Some a /\ has_shape h w a.

(** ** The blinker *)

(** Three horizontally adjacent live cells centred at column [cx] of row
    [cy], on the torus; and the vertical triple with the same centre. *)
Definition blinker_row (h w : nat) (cx cy : Z) : ndarray Z :=
  tab h w (fun y x =>
    bit ((y =? cy)
         && ((x =? (cx - 1) mod Z.of_nat w) || (x =? cx)
             || (x =? (cx + 1) mod Z.of_nat w)))).

Definition blinker_col (h w : nat) (cx cy : Z) : ndarray Z :=
  tab h w (fun y x =>
    bit ((x =? cx)
         && ((y =? (cy - 1) mod Z.of_nat h) || (y =? cy)
             || (y =? (cy + 1) mod Z.of_nat h)))).

(** Coordinates relative to the cell left of and above the centre: the
    horizontal triple is row 1, columns 0 to 2. *)
Definition rel (c n z : Z) : Z := (z - c + 1) mod n.
Definition row_triple (v u : Z) : Z := bit ((v =? 1) && (u <=? 2)).
Definition col_triple (v u : Z) : Z := bit ((u =? 1) && (v <=? 2)).

(** Settles every integer comparison of the goal that linear arithmetic
    decides, and splits on those that remain open. *)
Ltac decide_test :=
  match goal with
  | |- context [?a <? ?b] =>
      first [ rewrite (proj2 (Z.ltb_lt a b)) by lia
            | rewrite (proj2 (Z.ltb_ge a b)) by lia ]
  | |- context [?a <=? ?b] =>
      first [ rewrite (proj2 (Z.leb_le a b)) by lia
            | rewrite (proj2 (Z.leb_gt a b)) by lia ]
  | |- context [?a =? ?b] =>
      first [ rewrite (proj2 (Z.eqb_eq a b)) by lia
            | rewrite (proj2 (Z.eqb_neq a b)) by lia ]
  end.

Ltac decide_tests := repeat (decide_test; cbv beta iota).

Ltac split_test :=
  match goal with
  | |- context [?a <? ?b] => destruct (Z.ltb_spec a b)
  | |- context [?a <=? ?b] => destruct (Z.leb_spec a b)
  | |- context [?a =? ?b] => destruct (Z.eqb_spec a b)
  end.

Ltac split_tests := repeat (decide_tests; split_test; cbv beta iota); decide_tests.

(** ** Rounding to binary64 *)

(** Round to nearest, ties to even, of [m / 2 ^ k]. *)
Definition rne (m k : Z) : Z :=
  let q := m / 2 ^ k in
  let rem := m mod 2 ^ k in
  if 2 * rem <? 2 ^ k then q
  else if 2 * rem =? 2 ^ k then (if Z.even q then q else q + 1)
  else q + 1.

(** A result [r] that is zero or a canonical positive number not above
    [mc * 2 ^ ec]. *)
Definition le_float_pos (r : float64) (mc ec : Z) : Prop :=
  r = S754_zero false
  \/ exists m e,
       r = S754_finite false m e
       /\ bounded prec emax m e = true
       /\ e <= ec
       /\ Z.pos m <= mc * 2 ^ (ec - e).

Definition float_100 : float64 := S754_finite false 7036874417766400 (-46).

(** The 53-bit mantissa of the nearest binary64 number of a positive
    integer [p], before a carry is folded into the exponent: [p] shifted
    left to 53 bits, or rounded to its 53 leading bits. *)
Definition int_mantissa (p : Z) : Z :=
  let d := Zdigits2 p in
  let ez := Z.min 0 (d - 53) in
  rne (p * 2 ^ (- ez)) (d - 53 - ez).

(** * The rest of the window

    What the handlers above leave out of [src/main.py]: the widget's
    minimum size, the timer with its button and slider, and the vocabulary
    of the further properties. *)

(** ** GridWidget.__init__ : the minimum size *)

(** [grid.shape[0]] and [grid.shape[1]] of a non-empty rectangular array
    (an array without rows is taken to have no columns, as the square grid
    of side 0 has). *)
Definition shape0 {A} (a : ndarray A) : Z := Z.of_nat (length a).
Definition shape1 {A} (a : ndarray A) : Z :=
  match a with
  | [] => 0
  | row :: _ => Z.of_nat (length row)
  end.

(** [setMinimumWidth(grid.shape[1] * cell_size + x_offset * 2)] and
    [setMinimumHeight(grid.shape[0] * cell_size + y_offset + 20)]. *)
Definition minimum_width (gw : GridWidget) (a : ndarray Z) : Z :=
  shape1 a * gw_cell_size gw + x_offset gw * 2.
Definition minimum_height (gw : GridWidget) (a : ndarray Z) : Z :=
  shape0 a * gw_cell_size gw + y_offset gw + 20.

(** ** The timer, the start button and the speed slider *)

Inductive button_text : Type := TextStart | TextStop.

(** [self.timer] ([isActive], its interval), the text of [start_button] and
    the value of [speed_slider]. *)
Record Controls : Type := {
  timer_active : bool;
  timer_interval : Z;
  start_button : button_text;
  speed_slider : Z
}.

(** After [__init__] and [init_ui]: a fresh [QTimer] (not running, interval
    0), the button created with the text [Start], the slider set to 300. *)
Definition init_controls : Controls :=
  {| timer_active := false; timer_interval := 0;
     start_button := TextStart; speed_slider := 300 |}.

(** [toggle_timer]: [timer.stop()] keeps the interval; [timer.start(msec)]
    sets it. *)
Definition toggle_timer (c : Controls) : Controls :=
  if timer_active c then
    {| timer_active := false; timer_interval := timer_interval c;
       start_button := TextStart; speed_slider := speed_slider c |}
  else
    {| timer_active := true; timer_interval := speed_slider c;
       start_button := TextStop; speed_slider := speed_slider c |}.

(** [change_speed(value)] *)
Definition change_speed (value : Z) (c : Controls) : Controls :=
  if timer_active c then
    {| timer_active := timer_active c; timer_interval := value;
       start_button := start_button c; speed_slider := speed_slider c |}
  else c.

(** The slider keeps its value inside the range of [setRange(10, 1000)]. *)
Definition slider_clamp (v : Z) : Z := Z.max 10 (Z.min 1000 v).

(** The slider is moved to [v]: its value changes and [valueChanged]
    calls [change_speed] with the new value. *)
Definition slider_moved (v : Z) (c : Controls) : Controls :=
  let v' := slider_clamp v in
  change_speed v'
    {| timer_active := timer_active c; timer_interval := timer_interval c;
       start_button := start_button c; speed_slider := v' |}.

Inductive control_event : Type :=
  | StartClicked
  | SliderMoved (v : Z).

Definition control (ev : control_event) (c : Controls) : Controls :=
  match ev with
  | StartClicked => toggle_timer c
  | SliderMoved v => slider_moved v c
  end.

Inductive controls_reachable : Controls -> Prop :=
  | controls_init : controls_reachable init_controls
  | controls_step ev c :
      controls_reachable c -> controls_reachable (control ev c).

(** ** Vocabulary of the further properties *)

(** [self.live_history = []; self.generation = 0] *)
Definition reset (s : GameOfLife) : GameOfLife :=
  set_generation 0 (set_live_history [] s).

(** The next generation of a grid, as [update_state] stores it. *)
Definition next_grid (g : ndarray Z) : ndarray Z := astype_int (new_grid g).

Definition all_dead (g : ndarray Z) : Prop := Forall (Forall (fun v => v = 0)) g.

(** The number of live cells. *)
Definition count_alive (g : ndarray Z) : Z :=
  Z.of_nat (length (filter (fun v => v = 1) (concat g))).

(** A single live cell at column [cx] of row [cy]. *)
Definition single_cell (h w : nat) (cx cy : Z) : ndarray Z :=
  tab h w (fun y x => bit ((y =? cy) && (x =? cx))).

(** The 2 x 2 block whose upper left cell is at column [cx] of row [cy], on
    the torus. *)
Definition block (h w : nat) (cx cy : Z) : ndarray Z :=
  tab h w (fun y x =>
    bit (((y =? cy) || (y =? (cy + 1) mod Z.of_nat h))
         && ((x =? cx) || (x =? (cx + 1) mod Z.of_nat w)))).

(** The block in the relative coordinates of [rel]: rows and columns 1, 2. *)
Definition block_rel (v u : Z) : Z :=
  bit (((1 <=? v) && (v <=? 2)) && ((1 <=? u) && (u <=? 2))).

(** The rectangle [paintEvent] fills for the cell in column [x] of row [y]
    holding [v]. *)
Definition cell_rect (gw : GridWidget) (y x : nat) (v : Z) : rect :=
  {| rect_x := Z.of_nat x * gw_cell_size gw + x_offset gw;
     rect_y := Z.of_nat y * gw_cell_size gw + y_offset gw;
     rect_side := gw_cell_size gw - 1;
     rect_black := Z.eqb v 1 |}.

(** The samples of [np.random.rand(n, n)] that fall below [0.2]. *)
Definition draws_below (draws : nat -> float64) (n : Z) : list nat :=
  filter (fun i => float_lt (draws i) float_0_2 = true)
         (seq 0 (Z.to_nat n * Z.to_nat n)).

(** A window of side [n] holding the grid [g], before any tick. *)
Definition window_with (n : Z) (g : ndarray Z) : GameOfLife :=
  {| arrays := {[ 0%nat := g ]};
     grid_size := n; cell_size := 10; grid := 0%nat; generation := 0;
     live_history := [];
     grid_widget := {| gw_grid := 0%nat; gw_cell_size := 10;
                       x_offset := 20; y_offset := 60 |};
     ax := []; painted := [] |}.

Definition lonely_state : GameOfLife := window_with 5 (single_cell 5 5 2 1).

(** The 4 x 4 grid with the block on cells (1,1), (1,2), (2,1), (2,2). *)
Definition block_state : GameOfLife := window_with 4 (block 4 4 1 1).

(** A 3 x 3 grid without a live cell, and one where every cell is alive. *)
Definition dead_state : GameOfLife := window_with 3 (tab 3 3 (fun _ _ => 0)).
Definition crowded_state : GameOfLife := window_with 3 (tab 3 3 (fun _ _ => 1)).

Definition all_alive (g : ndarray Z) : Prop := Forall (Forall (fun v => v = 1)) g.

(** What the widget last painted is the array behind [self.grid] as it is
    now. *)
Definition displayed (s : GameOfLife) : Prop :=
  exists g, arrays s !! grid s = Some g
            /\ painted s = paintEvent (grid_widget s) g.

(** The pixel of a mouse press, in the coordinates [event.x()] and
    [event.y()] give it, lies on the area the handler takes for the grid:
    [grid_size] cells of [cell_size] pixels from the widget's offsets. *)
Definition on_grid (e : QMouseEvent) (s : GameOfLife) : Prop :=
  (x_offset (grid_widget s) <= event_x e
   < x_offset (grid_widget s) + grid_size s * cell_size s)
  /\ (y_offset (grid_widget s) <= event_y e
      < y_offset (grid_widget s) + grid_size s * cell_size s).



(** The controls after the slider has been moved to 120 and the start
    button clicked. *)
Definition example_controls : Controls :=
  control StartClicked (control (SliderMoved 120) init_controls).

(** The number of ones of a list. *)
Definition count_ones (l : list Z) : Z :=
  Z.of_nat (length (filter (fun v => v = 1) l)).

(** [k] timeouts of the timer in a row. *)
Fixpoint ticks (k : nat) (s : GameOfLife) : result GameOfLife :=
  match k with
  | O => Ok s
  | S k => s' ← update_state s; ticks k s'
  end.

(** ** The glider *)

(** The array cell [(v, u)] (row, column) is one of [cells]. *)
Definition pattern (cells : list (Z * Z)) (v u : Z) : Z :=
  bit (existsb (fun p => (v =? fst p) && (u =? snd p)) cells).

(** The five cells of the glider, as (row, column) offsets in its 3 x 3
    box. *)
Definition glider_cells : list (Z * Z) := [(0, 1); (1, 2); (2, 0); (2, 1); (2, 2)].

(** The glider whose box has its upper left corner at column [cx] of row
    [cy], on the torus. *)
Definition glider (h w : nat) (cx cy : Z) : ndarray Z :=
  tab h w (fun y x =>
    bit (existsb (fun d => (y =? (cy + fst d) mod Z.of_nat h)
                           && (x =? (cx + snd d) mod Z.of_nat w))
           glider_cells)).

(** The four phases of the glider and its fifth, in the coordinates of
    [rel]: the box of the first phase has its corner at (1, 1). *)
Definition glider_phase (k : nat) : list (Z * Z) :=
  match k with
  | 0%nat => [(1, 2); (2, 3); (3, 1); (3, 2); (3, 3)]
  | 1%nat => [(2, 1); (2, 3); (3, 2); (3, 3); (4, 2)]
  | 2%nat => [(2, 3); (3, 1); (3, 3); (4, 2); (4, 3)]
  | 3%nat => [(2, 2); (3, 3); (3, 4); (4, 2); (4, 3)]
  | _ => [(2, 3); (3, 4); (4, 2); (4, 3); (4, 4)]
  end.

Definition glider_state : GameOfLife := window_with 5 (glider 5 5 4 3).

(** * Properties *)

(** ** The array expressions on small inputs *)

Example shifts_eq :
  shifts = [(-1, -1); (-1, 0); (-1, 1); (0, -1); (0, 1); (1, -1); (1, 0); (1, 1)].
Proof. reflexivity. Qed.

Example roll_1 : roll 1 [10; 20; 30] = [30; 10; 20].
Proof. reflexivity. Qed.

Example roll_m1 : roll (-1) [10; 20; 30] = [20; 30; 10].
Proof. reflexivity. Qed.

Example blinker_3x5 :
  astype_int (new_grid [[0;0;0;0;0];[0;1;1;1;0];[0;0;0;0;0];[0;0;0;0;0];[0;0;0;0;0]])
  = [[0;0;1;0;0];[0;0;1;0;0];[0;0;1;0;0];[0;0;0;0;0];[0;0;0;0;0]].
Proof. vm_compute. reflexivity. Qed.

(** ** Arrays as tables

    [tab h w F] is the array of shape [(h, w)] whose element [a[y][x]] is
    [F y x]; every array of that shape is the table of its own elements,
    and each array operation above acts on tables cell by cell. *)

Lemma length_roll {A} (s : Z) (l : list A) : length (roll s l) = length l.
Proof.
  unfold roll. case_decide; [done|].
  rewrite length_app, length_drop, length_take. lia.
Qed.

Lemma lookup_roll {A} (s : Z) (l : list A) (i : nat) :
  (i < length l)%nat ->
  roll s l !! i = l !! Z.to_nat ((Z.of_nat i - s) mod Z.of_nat (length l)).
Proof.
  intros Hi. unfold roll. case_decide; [lia|].
  set (n := length l) in *.
  assert (Hk : 0 <= s mod Z.of_nat n < Z.of_nat n) by (apply Z.mod_pos_bound; lia).
  set (k := s mod Z.of_nat n) in *.
  assert (Hs : s = Z.of_nat n * (s / Z.of_nat n) + k)
    by (apply Z.div_mod; lia).
  destruct (decide (Z.of_nat i < k)) as [Hlt|Hge].
  - rewrite lookup_app_l by (rewrite length_drop; lia).
    rewrite lookup_drop. f_equal.
    assert ((Z.of_nat i - s) mod Z.of_nat n = Z.of_nat i - k + Z.of_nat n) as ->; [|lia].
    symmetry. apply Z.mod_unique with (q := - (s / Z.of_nat n) - 1); lia.
  - rewrite lookup_app_r by (rewrite length_drop; lia).
    rewrite length_drop, lookup_take_lt by lia. f_equal.
    assert ((Z.of_nat i - s) mod Z.of_nat n = Z.of_nat i - k) as ->; [|lia].
    symmetry. apply Z.mod_unique with (q := - (s / Z.of_nat n)); lia.
Qed.

Lemma roll_tabulate {A} (s : Z) (n : nat) (f : Z -> A) :
  roll s ((fun i => f (Z.of_nat i)) <$> seq 0 n)
  = (fun i => f ((Z.of_nat i - s) mod Z.of_nat n)) <$> seq 0 n.
Proof.
  apply list_eq. intros i.
  destruct (decide (i < n)%nat) as [Hi|Hi].
  - rewrite lookup_roll by (rewrite length_fmap, length_seq; lia).
    rewrite length_fmap, length_seq.
    assert (0 <= (Z.of_nat i - s) mod Z.of_nat n < Z.of_nat n)
      by (apply Z.mod_pos_bound; lia).
    rewrite !list_lookup_fmap, !lookup_seq_lt by lia. simpl.
    by rewrite Z2Nat.id by lia.
  - rewrite !lookup_ge_None_2; [done| |].
    + rewrite length_fmap, length_seq. lia.
    + rewrite length_roll, length_fmap, length_seq. lia.
Qed.

Section Tables.
Context {A B C : Type}.
Implicit Types (F : Z -> Z -> A) (G : Z -> Z -> B).

Lemma tab_shape h w F : has_shape h w (tab h w F).
Proof.
  split.
  - unfold tab. by rewrite length_fmap, length_seq.
  - unfold tab. apply Forall_fmap, Forall_forall. intros y _. simpl.
    by rewrite length_fmap, length_seq.
Qed.

Lemma cell_tab h w F (y x : nat) :
  (y < h)%nat -> (x < w)%nat ->
  cell (tab h w F) y x = Some (F (Z.of_nat y) (Z.of_nat x)).
Proof.
  intros Hy Hx. unfold cell, tab.
  rewrite list_lookup_fmap, lookup_seq_lt by done. simpl.
  rewrite list_lookup_fmap, lookup_seq_lt by done. done.
Qed.

Lemma tab_ext h w F F' :
  (forall y x, 0 <= y < Z.of_nat h -> 0 <= x < Z.of_nat w -> F y x = F' y x) ->
  tab h w F = tab h w F'.
Proof.
  intros HF. unfold tab. apply list_fmap_ext. intros i y Hy.
  apply lookup_seq in Hy as [-> Hy]. apply list_fmap_ext. intros j x Hx.
  apply lookup_seq in Hx as [-> Hx]. apply HF; lia.
Qed.

Lemma tab_inj h w F F' (y x : Z) :
  tab h w F = tab h w F' ->
  0 <= y < Z.of_nat h -> 0 <= x < Z.of_nat w -> F y x = F' y x.
Proof.
  intros Heq Hy Hx.
  assert (cell (tab h w F) (Z.to_nat y) (Z.to_nat x)
          = cell (tab h w F') (Z.to_nat y) (Z.to_nat x)) as H by (by rewrite Heq).
  rewrite !cell_tab in H by lia. rewrite !Z2Nat.id in H by lia. congruence.
Qed.

Lemma shape_tab (d : A) h w (a : ndarray A) :
  has_shape h w a -> a = tab h w (get d a).
Proof.
  intros [Hlen Hrows]. apply list_eq. intros y.
  destruct (decide (y < h)%nat) as [Hy|Hy].
  - unfold tab. rewrite list_lookup_fmap, lookup_seq_lt by done. simpl.
    destruct (lookup_lt_is_Some_2 a y) as [row Hrow]; [lia|].
    rewrite Hrow. f_equal. apply list_eq. intros x.
    assert (length row = w) as Hw
      by (eapply (proj1 (Forall_lookup _ _) Hrows); eauto).
    destruct (decide (x < w)%nat) as [Hx|Hx].
    + rewrite list_lookup_fmap, lookup_seq_lt by done. simpl.
      unfold get, cell. rewrite !Nat2Z.id, Hrow. simpl.
      destruct (lookup_lt_is_Some_2 row x) as [v Hv]; [lia|].
      by rewrite Hv.
    + rewrite !lookup_ge_None_2; [done| |lia].
      rewrite length_fmap, length_seq. lia.
  - rewrite !lookup_ge_None_2; [done| |lia].
    unfold tab. rewrite length_fmap, length_seq. lia.
Qed.

Lemma get_tab (d : A) h w F (y x : Z) :
  0 <= y < Z.of_nat h -> 0 <= x < Z.of_nat w -> get d (tab h w F) y x = F y x.
Proof.
  intros Hy Hx. unfold get. rewrite cell_tab by lia.
  simpl. by rewrite !Z2Nat.id by lia.
Qed.

Lemma np_map_tab (f : A -> B) h w F :
  np_map f (tab h w F) = tab h w (fun y x => f (F y x)).
Proof.
  unfold np_map, tab. rewrite <- list_fmap_compose.
  apply list_fmap_ext. intros _ y _. simpl.
  by rewrite <- list_fmap_compose.
Qed.

Lemma np_zip_tab (f : A -> B -> C) h w F G :
  np_zip f (tab h w F) (tab h w G) = tab h w (fun y x => f (F y x) (G y x)).
Proof.
  unfold np_zip, tab. rewrite zip_with_fmap_l, zip_with_fmap_r, zip_with_diag.
  apply list_fmap_ext. intros _ y _. simpl.
  by rewrite zip_with_fmap_l, zip_with_fmap_r, zip_with_diag.
Qed.

Lemma np_roll_tab0 (s : Z) h w F :
  np_roll (tab h w F) s Axis0
  = tab h w (fun y x => F ((y - s) mod Z.of_nat h) x).
Proof.
  unfold np_roll, tab.
  exact (roll_tabulate s h
           (fun y => (fun x => F y (Z.of_nat x)) <$> seq 0 w)).
Qed.

Lemma np_roll_tab1 (s : Z) h w F :
  np_roll (tab h w F) s Axis1
  = tab h w (fun y x => F y ((x - s) mod Z.of_nat w)).
Proof.
  unfold np_roll, tab. rewrite <- list_fmap_compose.
  apply list_fmap_ext. intros _ y _. simpl.
  exact (roll_tabulate s w (fun x => F (Z.of_nat y) x)).
Qed.
End Tables.

(** ** One generation, cell by cell *)

Lemma rolled_tab {A} (i j : Z) h w (F : Z -> Z -> A) :
  np_roll (np_roll (tab h w F) i Axis0) j Axis1
  = tab h w (fun y x => F ((y - i) mod Z.of_nat h) ((x - j) mod Z.of_nat w)).
Proof. by rewrite np_roll_tab0, np_roll_tab1. Qed.

Lemma foldl_np_add_tab h w (G : Z -> Z -> Z) (Fs : list (Z -> Z -> Z)) :
  foldl np_add (tab h w G) (tab h w <$> Fs)
  = tab h w (fun y x => foldl (fun acc v => wrap64 (acc + v)) (G y x)
                              ((fun F => F y x) <$> Fs)).
Proof.
  revert G. induction Fs as [|F Fs IH]; intros G; [done|].
  rewrite fmap_cons. cbn [foldl]. unfold np_add at 2.
  rewrite np_zip_tab, IH. reflexivity.
Qed.

Lemma py_sum_tab h w (F : Z -> Z -> Z) (Fs : list (Z -> Z -> Z)) :
  py_sum (tab h w <$> (F :: Fs))
  = tab h w (fun y x => sum64 ((fun F => F y x) <$> (F :: Fs))).
Proof.
  rewrite fmap_cons. unfold py_sum, np_radd.
  rewrite np_map_tab, foldl_np_add_tab. reflexivity.
Qed.

Lemma neighbors_tab h w F :
  neighbors (tab h w F) = tab h w (fun y x => sum64 (around F h w y x)).
Proof.
  unfold neighbors.
  assert (((fun ij => np_roll (np_roll (tab h w F) (fst ij) Axis0) (snd ij) Axis1)
           <$> shifts)
          = tab h w <$> ((fun ij y x =>
              F ((y - fst ij) mod Z.of_nat h) ((x - snd ij) mod Z.of_nat w))
              <$> shifts)) as ->.
  { rewrite <- list_fmap_compose. apply list_fmap_ext. intros _ ij _.
    apply rolled_tab. }
  rewrite shifts_eq, fmap_cons, py_sum_tab.
  apply tab_ext. intros y x _ _. unfold around. rewrite shifts_eq. reflexivity.
Qed.

Lemma new_grid_tab h w F :
  new_grid (tab h w F)
  = tab h w (fun y x => rule (F y x) (sum64 (around F h w y x))).
Proof.
  unfold new_grid. rewrite neighbors_tab. unfold np_or, np_and, np_eq.
  rewrite !np_map_tab, !np_zip_tab. reflexivity.
Qed.

Lemma next_tab h w F :
  astype_int (new_grid (tab h w F))
  = tab h w (fun y x => bit (rule (F y x) (sum64 (around F h w y x)))).
Proof. rewrite new_grid_tab. unfold astype_int. by rewrite np_map_tab. Qed.

Lemma binary_tab h w F :
  (forall y x, 0 <= y < Z.of_nat h -> 0 <= x < Z.of_nat w -> F y x = 0 \/ F y x = 1) ->
  binary (tab h w F).
Proof.
  intros HF. unfold binary, tab. apply Forall_fmap, Forall_forall.
  intros y Hy. apply elem_of_seq in Hy. simpl.
  apply Forall_fmap, Forall_forall. intros x Hx. apply elem_of_seq in Hx.
  simpl. apply HF; lia.
Qed.

Lemma binary_get a (y x : Z) : binary a -> get 0 a y x = 0 \/ get 0 a y x = 1.
Proof.
  intros Hb. unfold get, cell.
  destruct (a !! Z.to_nat y) as [row|] eqn:Hrow; simpl; [|by left].
  destruct (row !! Z.to_nat x) as [v|] eqn:Hv; simpl; [|by left].
  pose proof (Forall_lookup_1 _ _ _ _ Hb Hrow) as Hr.
  exact (Forall_lookup_1 _ _ _ _ Hr Hv).
Qed.

Lemma same_shape_tab {A B} h w (F : Z -> Z -> A) (G : Z -> Z -> B) :
  same_shape (tab h w F) (tab h w G).
Proof.
  split.
  - unfold tab. by rewrite !length_fmap.
  - unfold tab. apply Forall2_fmap, Forall_Forall2_diag, Forall_forall.
    intros y _. simpl. by rewrite !length_fmap.
Qed.

Lemma wrap64_small z : - 2 ^ 63 <= z < 2 ^ 63 -> wrap64 z = z.
Proof. intros Hz. unfold wrap64. rewrite Z.mod_small; lia. Qed.

(** ** What the handlers compute *)

Lemma length_generations h : length (generations h) = length h.
Proof. unfold generations. by rewrite length_fmap, length_seq. Qed.

Lemma length_occupancy n h : length (occupancy n h) = length h.
Proof. unfold occupancy. by rewrite length_fmap. Qed.

Lemma length_growth h : length (growth h) = Nat.max 1 (length h).
Proof. unfold growth. cbn [length]. rewrite length_fmap, length_seq. lia. Qed.

Lemma update_plot_ok s g :
  arrays s !! grid s = Some g ->
  update_plot s
  = Ok (set_ax (lines (grid_size s) (live_history s ++ [np_sum g]))
          (set_live_history (live_history s ++ [np_sum g])
             (set_generation (generation s + 1) s))).
Proof.
  intros Hg. unfold update_plot, load. simpl_state. rewrite Hg.
  unfold ax_plot. cbn [ydata_length mbind result_bind].
  rewrite length_generations, length_occupancy, length_growth.
  repeat (rewrite decide_True by (rewrite ?length_app; cbn; lia);
          cbn [mbind result_bind]).
  reflexivity.
Qed.

Lemma repaint_ok s a :
  arrays s !! gw_grid (grid_widget s) = Some a ->
  repaint s = Ok (set_painted (paintEvent (grid_widget s) a) s).
Proof. intros Ha. unfold repaint, load. by rewrite Ha. Qed.

Lemma update_state_ok s g h w :
  arrays s !! grid s = Some g ->
  gw_grid (grid_widget s) = grid s ->
  has_shape h w g ->
  update_state s
  = Ok (recorded (astype_int (new_grid g))
          (shown (astype_int (new_grid g)) s)).
Proof.
  intros Hg Hgw Hshape. unfold update_state, load. rewrite Hg. cbn.
  unfold np_assign. rewrite decide_True; cycle 1.
  { rewrite (shape_tab 0 h w g Hshape) at 1 2. rewrite next_tab.
    apply same_shape_tab. }
  cbn. erewrite repaint_ok; cycle 1.
  { cbn. rewrite Hgw. apply lookup_insert_eq. }
  cbn. erewrite update_plot_ok; cycle 1.
  { cbn. apply lookup_insert_eq. }
  reflexivity.
Qed.

(** ** Sums that stay inside [int64] *)

Lemma foldl_wrap_small (vs : list Z) (acc : Z) :
  Forall (fun v => 0 <= v <= 1) vs ->
  0 <= acc -> acc + Z.of_nat (length vs) < 2 ^ 63 ->
  foldl (fun acc v => wrap64 (acc + v)) acc vs = acc + foldr Z.add 0 vs
  /\ 0 <= foldr Z.add 0 vs <= Z.of_nat (length vs).
Proof.
  revert acc. induction vs as [|v vs IH]; intros acc Hvs Hacc Hlen.
  - cbn. lia.
  - apply Forall_cons in Hvs as [Hv Hvs]. cbn [foldl foldr length] in *.
    rewrite wrap64_small by lia.
    destruct (IH (acc + v) Hvs) as [-> Hb]; lia.
Qed.

Lemma sum64_small (vs : list Z) :
  Forall (fun v => 0 <= v <= 1) vs -> Z.of_nat (length vs) < 2 ^ 63 ->
  sum64 vs = foldr Z.add 0 vs /\ 0 <= sum64 vs <= Z.of_nat (length vs).
Proof.
  intros Hvs Hlen. unfold sum64.
  destruct (foldl_wrap_small vs 0 Hvs) as [-> Hb]; lia.
Qed.

Lemma offsets_eq :
  offsets = [(-1, -1); (-1, 0); (-1, 1); (0, -1); (0, 1); (1, -1); (1, 0); (1, 1)].
Proof. reflexivity. Qed.

(** The sum of the eight rolled arrays at a cell is the neighbour count of
    the specification. *)
Lemma around_neighbor_count (g : ndarray Z) (h w : nat) (y x : Z) :
  binary g ->
  sum64 (around (get 0 g) h w y x)
  = neighbor_count g (Z.of_nat w) (Z.of_nat h) x y.
Proof.
  intros Hb.
  assert (HF : forall y x, get 0 g y x = 0 \/ get 0 g y x = 1)
    by (intros; by apply binary_get).
  assert (Hbit : forall y x, bit (get 0 g y x =? 1) = get 0 g y x)
    by (intros y' x'; destruct (HF y' x') as [-> | ->]; done).
  destruct (sum64_small (around (get 0 g) h w y x)) as [-> _].
  { unfold around. apply Forall_fmap, Forall_forall. intros ij _. cbn.
    destruct (HF ((y - ij.1) mod Z.of_nat h) ((x - ij.2) mod Z.of_nat w)); lia. }
  { unfold around. rewrite length_fmap, shifts_eq. cbn. lia. }
  unfold neighbor_count, around, is_alive. rewrite shifts_eq, offsets_eq.
  cbn [fmap list_fmap foldr fst snd]. rewrite !Hbit.
  replace (y - -1) with (y + 1) by lia. replace (x - -1) with (x + 1) by lia.
  replace (y - 1) with (y + -1) by lia. replace (x - 1) with (x + -1) by lia.
  replace (y - 0) with (y + 0) by lia. replace (x - 0) with (x + 0) by lia.
  lia.
Qed.

Lemma bit_rule (v nb : Z) :
  v = 0 \/ v = 1 ->
  (bit (rule v nb) =? 1) = true
  <-> ((v =? 1) = true /\ (nb = 2 \/ nb = 3)) \/ ((v =? 1) = false /\ nb = 3).
Proof.
  intros [-> | ->]; unfold rule; cbn;
    destruct (Z.eqb_spec nb 2), (Z.eqb_spec nb 3); cbn; intuition (try lia; try done).
Qed.

Lemma next_shape (g : ndarray Z) (h w : nat) :
  has_shape h w g ->
  astype_int (new_grid g)
  = tab h w (fun y x =>
      bit (rule (get 0 g y x) (sum64 (around (get 0 g) h w y x)))).
Proof.
  intros Hshape. rewrite (shape_tab 0 h w g Hshape) at 1. apply next_tab.
Qed.

(** [C1] For every binary grid of shape [(h, w)] held by the window,
    [update_state] succeeds and leaves, behind the same reference, a grid of
    the same shape in which the cell [(x, y)] is alive exactly when it was
    alive with a neighbour count of 2 or 3, or was dead with a neighbour
    count of exactly 3; the count is the sum of the alive states of the
    eight positions [(x + dx, y + dy)] taken modulo the width and height. *)
Theorem update_state_rule (s : GameOfLife) (g : ndarray Z) (h w : nat) :
  arrays s !! grid s = Some g ->
  gw_grid (grid_widget s) = grid s ->
  has_shape h w g ->
  binary g ->
  exists s' g',
    update_state s = Ok s'
    /\ grid s' = grid s
    /\ arrays s' !! grid s' = Some g'
    /\ has_shape h w g'
    /\ binary g'
    /\ forall x y, 0 <= x < Z.of_nat w -> 0 <= y < Z.of_nat h ->
         let nc := neighbor_count g (Z.of_nat w) (Z.of_nat h) x y in
         is_alive g' x y = true
         <-> (is_alive g x y = true /\ (nc = 2 \/ nc = 3))
             \/ (is_alive g x y = false /\ nc = 3).
Proof.
  intros Hg Hgw Hshape Hb.
  eexists _, (astype_int (new_grid g)).
  split; [by eapply update_state_ok|].
  split; [done|].
  split; [simpl_state; cbn; apply lookup_insert_eq|].
  rewrite (next_shape g h w Hshape).
  split; [apply tab_shape|].
  split.
  { apply binary_tab. intros y x _ _. destruct (rule _ _); cbn; auto. }
  intros x y Hx Hy nc. unfold is_alive at 1. rewrite get_tab by done.
  rewrite around_neighbor_count by done. fold nc.
  apply bit_rule, binary_get, Hb.
Qed.

(** ** The other handlers *)

Lemma np_fill_shape {A} (g : ndarray A) (c : A) h w :
  has_shape h w g -> np_fill g c = tab h w (fun _ _ => c).
Proof.
  intros Hshape. unfold np_fill. rewrite (shape_tab c h w g Hshape) at 1.
  apply np_map_tab.
Qed.

Lemma np_random_rand_tab draws (n : Z) :
  0 <= n -> n * n * 8 < 2 ^ 63 ->
  np_random_rand draws n n
  = Ok (tab (Z.to_nat n) (Z.to_nat n)
          (fun y x => draws (Z.to_nat y * Z.to_nat n + Z.to_nat x)%nat)).
Proof.
  intros Hn Hsz. unfold np_random_rand. rewrite !decide_False by lia. f_equal.
  unfold tab. apply list_fmap_ext. intros _ y _. cbn.
  apply list_fmap_ext. intros _ x _. cbn. by rewrite !Nat2Z.id.
Qed.

Lemma random_grid_tab draws (n : Z) :
  0 <= n -> n * n * 8 < 2 ^ 63 ->
  random_grid draws n
  = Ok (tab (Z.to_nat n) (Z.to_nat n)
          (fun y x => bit (float_lt
             (draws (Z.to_nat y * Z.to_nat n + Z.to_nat x)%nat) float_0_2))).
Proof.
  intros Hn Hsz. unfold random_grid. rewrite np_random_rand_tab by done.
  cbn [mbind result_bind]. unfold astype_int. by rewrite !np_map_tab.
Qed.

Lemma random_grid_Ok draws (n : Z) r :
  random_grid draws n = Ok r -> 0 <= n /\ n * n * 8 < 2 ^ 63.
Proof.
  unfold random_grid, np_random_rand. repeat case_decide; cbn; (done || lia).
Qed.

Lemma clear_grid_ok s g :
  arrays s !! grid s = Some g ->
  gw_grid (grid_widget s) = grid s ->
  clear_grid s
  = Ok (recorded (np_fill g 0)
          (set_painted (paintEvent (grid_widget s) (np_fill g 0))
             (set_generation 0
                (set_live_history [] (store (grid s) (np_fill g 0) s))))).
Proof.
  intros Hg Hgw. unfold clear_grid, load. rewrite Hg. cbn [mbind result_bind].
  erewrite repaint_ok; cycle 1.
  { simpl_state. rewrite Hgw. apply lookup_insert_eq. }
  cbn [mbind result_bind]. erewrite update_plot_ok; cycle 1.
  { simpl_state. apply lookup_insert_eq. }
  reflexivity.
Qed.

Lemma randomize_grid_ok draws s g :
  arrays s !! grid s = Some g ->
  gw_grid (grid_widget s) = grid s ->
  0 <= grid_size s ->
  grid_size s * grid_size s * 8 < 2 ^ 63 ->
  has_shape (Z.to_nat (grid_size s)) (Z.to_nat (grid_size s)) g ->
  exists r,
    random_grid draws (grid_size s) = Ok r
    /\ randomize_grid draws s
       = Ok (recorded r
               (set_painted (paintEvent (grid_widget s) r)
                  (set_generation 0
                     (set_live_history [] (store (grid s) r s))))).
Proof.
  intros Hg Hgw Hn Hsz Hshape. eexists. split; [by apply random_grid_tab|].
  unfold randomize_grid, load. rewrite random_grid_tab, Hg by done.
  cbn [mbind result_bind]. unfold np_assign. rewrite decide_True; cycle 1.
  { rewrite (shape_tab 0 _ _ g Hshape) at 1. apply same_shape_tab. }
  cbn [mbind result_bind]. erewrite repaint_ok; cycle 1.
  { simpl_state. rewrite Hgw. apply lookup_insert_eq. }
  cbn [mbind result_bind]. erewrite update_plot_ok; cycle 1.
  { simpl_state. apply lookup_insert_eq. }
  reflexivity.
Qed.

Lemma py_index_in n (i : Z) : 0 <= i < Z.of_nat n -> py_index n i = Ok (Z.to_nat i).
Proof.
  intros Hi. unfold py_index. destruct (decide (i < 0)); [lia|].
  by rewrite decide_True by lia.
Qed.

Lemma mousePressEvent_out e s :
  cell_size s <> 0 ->
  ~ in_bounds (cell_x e s) (cell_y e s) (grid_size s) ->
  mousePressEvent e s = Ok s.
Proof.
  intros Hc Hout. unfold mousePressEvent, floordiv.
  rewrite decide_False by done. cbn [mbind result_bind].
  rewrite decide_False by done. cbn [mbind result_bind].
  fold (cell_x e s) (cell_y e s).
  by rewrite decide_False by exact Hout.
Qed.

Lemma mousePressEvent_in e s g :
  cell_size s <> 0 ->
  in_bounds (cell_x e s) (cell_y e s) (grid_size s) ->
  arrays s !! grid s = Some g ->
  gw_grid (grid_widget s) = grid s ->
  has_shape (Z.to_nat (grid_size s)) (Z.to_nat (grid_size s)) g ->
  mousePressEvent e s = Ok (shown (toggled g (cell_y e s) (cell_x e s)) s).
Proof.
  intros Hc Hin Hg Hgw [Hlen Hrows]. unfold mousePressEvent, floordiv.
  rewrite decide_False by done. cbn [mbind result_bind].
  rewrite decide_False by done. cbn [mbind result_bind].
  fold (cell_x e s) (cell_y e s). rewrite decide_True by exact Hin.
  destruct Hin as [Hx Hy]. unfold load. rewrite Hg. cbn [mbind result_bind].
  destruct (lookup_lt_is_Some_2 g (Z.to_nat (cell_y e s))) as [row Hrow]; [lia|].
  assert (length row = Z.to_nat (grid_size s)) as Hw
    by exact (Forall_lookup_1 _ _ _ _ Hrows Hrow).
  destruct (lookup_lt_is_Some_2 row (Z.to_nat (cell_x e s))) as [v Hv]; [lia|].
  unfold getitem, setitem.
  rewrite (py_index_in (length g)) by lia. cbn [mbind result_bind].
  rewrite Hrow. cbn [mbind result_bind].
  rewrite (py_index_in (length row)) by lia.
  cbn [mbind result_bind]. rewrite Hv. cbn [mbind result_bind].
  erewrite repaint_ok; cycle 1.
  { simpl_state. rewrite Hgw. apply lookup_insert_eq. }
  unfold shown, toggled, get, cell.
  rewrite (list_lookup_total_correct _ _ _ Hrow). rewrite Hrow.
  cbn [mbind option_bind]. rewrite Hv. reflexivity.
Qed.

(** ** The invariant of the running program *)

Lemma length_concat_shape {A} h w (g : ndarray A) :
  has_shape h w g -> length (concat g) = (h * w)%nat.
Proof.
  revert h. induction g as [|row g IH]; intros h [Hlen Hrows].
  - cbn in *. subst. done.
  - apply Forall_cons in Hrows as [Hrow Hrows]. cbn in *.
    rewrite length_app, (IH (length g)) by done. lia.
Qed.

Lemma binary_concat g : binary g -> Forall (fun v => 0 <= v <= 1) (concat g).
Proof.
  intros Hb. apply Forall_concat. eapply Forall_impl; [exact Hb|].
  intros row Hrow. eapply Forall_impl; [exact Hrow|]. cbn. lia.
Qed.

Lemma np_sum_bounds h w g :
  has_shape h w g -> binary g -> Z.of_nat (h * w) < 2 ^ 63 ->
  np_sum g = foldr Z.add 0 (concat g) /\ 0 <= np_sum g <= Z.of_nat (h * w).
Proof.
  intros Hshape Hb Hsz. unfold np_sum. fold (sum64 (concat g)).
  rewrite <- (length_concat_shape h w g Hshape) in *.
  apply sum64_small; [by apply binary_concat | done].
Qed.

Lemma wrap64_toggle v : v = 0 \/ v = 1 -> wrap64 (1 - v) = 1 - v.
Proof. intros [-> | ->]; reflexivity. Qed.

Lemma toggled_shape g h w (y x : Z) :
  has_shape h w g -> has_shape h w (toggled g y x).
Proof.
  intros [Hlen Hrows]. unfold toggled. split; [by rewrite length_insert|].
  destruct (decide (Z.to_nat y < length g)%nat) as [Hy|Hy].
  - apply Forall_insert; [done|]. rewrite length_insert.
    destruct (lookup_lt_is_Some_2 g _ Hy) as [row Hrow].
    rewrite (list_lookup_total_correct _ _ _ Hrow).
    exact (Forall_lookup_1 _ _ _ _ Hrows Hrow).
  - by rewrite list_insert_ge by lia.
Qed.

Lemma toggled_binary g (y x : Z) : binary g -> binary (toggled g y x).
Proof.
  intros Hb. unfold toggled. apply Forall_insert; [done|].
  apply Forall_insert.
  - destruct (g !! Z.to_nat y) as [row|] eqn:Hrow.
    + rewrite (list_lookup_total_correct _ _ _ Hrow).
      exact (Forall_lookup_1 _ _ _ _ Hb Hrow).
    + rewrite list_lookup_total_alt, Hrow. cbn. constructor.
  - destruct (binary_get g y x Hb) as [-> | ->]; cbn; auto.
Qed.

Lemma recorded_consistent s g' :
  0 <= grid_size s ->
  grid_size s * grid_size s * 8 < 2 ^ 63 ->
  gw_grid (grid_widget s) = grid s ->
  grid_ok s g' ->
  history_ok s ->
  consistent (recorded g' s).
Proof.
  intros Hn Hsz Hgw (Hg & Hshape & Hb) Hh. unfold consistent, recorded.
  simpl_state. split_and!; try done.
  - exists g'. unfold grid_ok. split_and!; simpl_state; done.
  - unfold history_ok in *. simpl_state. apply Forall_app. split; [done|].
    apply Forall_singleton.
    destruct (np_sum_bounds _ _ g' Hshape Hb) as [_ Hs]; nia.
Qed.

Lemma shown_grid_ok s g' :
  has_shape (Z.to_nat (grid_size s)) (Z.to_nat (grid_size s)) g' ->
  binary g' ->
  grid_ok (shown g' s) g'.
Proof.
  intros Hshape Hb. unfold grid_ok, shown. simpl_state.
  split_and!; try done. apply lookup_insert_eq.
Qed.

Lemma shown_consistent s g' :
  consistent s ->
  has_shape (Z.to_nat (grid_size s)) (Z.to_nat (grid_size s)) g' ->
  binary g' ->
  consistent (shown g' s).
Proof.
  intros (Hn & Hsz & Hgw & _ & Hh) Hshape Hb. unfold consistent.
  split_and!; try done. exists g'. by apply shown_grid_ok.
Qed.

Lemma handle_consistent ev s s' :
  consistent s -> handle ev s = Ok s' -> consistent s'.
Proof.
  intros Hc Hev. pose proof Hc as (Hn & Hsz & Hgw & (g & Hg & Hshape & Hb) & Hh).
  destruct ev as [| |draws|e]; cbn in Hev.
  - rewrite (update_state_ok s g _ _ Hg Hgw Hshape) in Hev.
    injection Hev as <-.
    apply recorded_consistent; try done.
    apply shown_grid_ok; rewrite (next_shape g _ _ Hshape).
    + apply tab_shape.
    + apply binary_tab. intros y x _ _. destruct (rule _ _); cbn; auto.
  - rewrite (clear_grid_ok s g Hg Hgw) in Hev. injection Hev as <-.
    apply recorded_consistent; simpl_state; try done.
    + unfold grid_ok. split_and!; simpl_state.
      * apply lookup_insert_eq.
      * rewrite (np_fill_shape g 0 _ _ Hshape). apply tab_shape.
      * rewrite (np_fill_shape g 0 _ _ Hshape). apply binary_tab. auto.
    + unfold history_ok. simpl_state. constructor.
  - destruct (randomize_grid_ok draws s g Hg Hgw Hn Hsz Hshape) as (r & Hr & Heq).
    rewrite Heq in Hev. injection Hev as <-.
    rewrite random_grid_tab in Hr by done. injection Hr as <-.
    apply recorded_consistent; simpl_state; try done.
    + unfold grid_ok. split_and!; simpl_state.
      * apply lookup_insert_eq.
      * apply tab_shape.
      * apply binary_tab. intros y x _ _. destruct (float_lt _ _); cbn; auto.
    + unfold history_ok. simpl_state. constructor.
  - destruct (decide (cell_size s = 0)) as [Hz|Hz].
    { unfold mousePressEvent in Hev. rewrite Hz in Hev. by cbn in Hev. }
    destruct (decide (in_bounds (cell_x e s) (cell_y e s) (grid_size s))) as [Hin|Hout].
    + rewrite (mousePressEvent_in e s g Hz Hin Hg Hgw Hshape) in Hev.
      injection Hev as <-.
      apply shown_consistent; [done| |].
      * by apply toggled_shape.
      * by apply toggled_binary.
    + rewrite (mousePressEvent_out e s Hz Hout) in Hev. by injection Hev as <-.
Qed.

Lemma init_consistent draws n c s : init draws n c = Ok s -> consistent s.
Proof.
  unfold init. destruct (random_grid draws n) as [g|] eqn:Hg; [|done].
  cbn [mbind result_bind]. intros [= <-].
  destruct (random_grid_Ok _ _ _ Hg) as [Hn Hsz].
  rewrite random_grid_tab in Hg by done. injection Hg as <-.
  unfold consistent, grid_ok, history_ok. simpl_state. cbn [gw_grid].
  split_and!; try done.
  eexists. split_and!.
  - apply lookup_singleton_eq.
  - apply tab_shape.
  - apply binary_tab. intros y x _ _. destruct (float_lt _ _); cbn; auto.
Qed.

Lemma reachable_consistent s : reachable s -> consistent s.
Proof.
  induction 1 as [draws n c s Hinit | ev s s' _ IH Hev].
  - by eapply init_consistent.
  - by eapply handle_consistent.
Qed.

(** ** A concrete window: a 5 x 5 grid holding a horizontal blinker *)

Lemma example_state_init : init example_draws 5 10 = Ok example_state.
Proof. vm_compute. reflexivity. Qed.

Lemma example_state_reachable : reachable example_state.
Proof. eapply reach_init, example_state_init. Qed.

Lemma example_grid_shape : has_shape 5 5 example_grid.
Proof. split; [reflexivity|]. repeat constructor. Qed.

Lemma example_grid_binary : binary example_grid.
Proof. repeat (constructor; auto). Qed.

Lemma example_state_consistent : consistent example_state.
Proof. apply reachable_consistent, example_state_reachable. Qed.

Lemma update_state_rule_witness :
  exists s' g',
    update_state example_state = Ok s'
    /\ grid s' = grid example_state
    /\ arrays s' !! grid s' = Some g'
    /\ has_shape 5 5 g'
    /\ binary g'
    /\ forall x y, 0 <= x < Z.of_nat 5 -> 0 <= y < Z.of_nat 5 ->
         let nc := neighbor_count example_grid (Z.of_nat 5) (Z.of_nat 5) x y in
         is_alive g' x y = true
         <-> (is_alive example_grid x y = true /\ (nc = 2 \/ nc = 3))
             \/ (is_alive example_grid x y = false /\ nc = 3).
Proof.
  apply (update_state_rule example_state example_grid 5 5).
  - reflexivity.
  - reflexivity.
  - exact example_grid_shape.
  - exact example_grid_binary.
Defined.

Lemma example_ticked_reachable : reachable example_ticked.
Proof.
  apply (reach_step Timeout example_state); [exact example_state_reachable|].
  exact (update_state_ok example_state example_grid 5 5 eq_refl eq_refl
           example_grid_shape).
Qed.

(** ** Determinism of a generation *)

(** [C2] The grid [update_state] leaves is a function of the grid it finds
    and of nothing else: each cell of the result is the rule applied to that
    cell and to the eight neighbours of the grid as it was before the call
    (never to a cell already updated), so two runs from states that hold
    equal grids, whatever else differs, both succeed with equal grids. *)
Theorem update_state_deterministic (s1 s2 : GameOfLife) (g : ndarray Z) (h w : nat) :
  arrays s1 !! grid s1 = Some g ->
  arrays s2 !! grid s2 = Some g ->
  gw_grid (grid_widget s1) = grid s1 ->
  gw_grid (grid_widget s2) = grid s2 ->
  has_shape h w g ->
  exists s1' s2' g',
    update_state s1 = Ok s1'
    /\ update_state s2 = Ok s2'
    /\ arrays s1' !! grid s1' = Some g'
    /\ arrays s2' !! grid s2' = Some g'
    /\ forall y x, 0 <= y < Z.of_nat h -> 0 <= x < Z.of_nat w ->
         get 0 g' y x = bit (rule (get 0 g y x) (sum64 (around (get 0 g) h w y x))).
Proof.
  intros Hg1 Hg2 Hgw1 Hgw2 Hshape.
  eexists _, _, (astype_int (new_grid g)).
  split; [by eapply update_state_ok|].
  split; [by eapply update_state_ok|].
  split; [simpl_state; cbn; apply lookup_insert_eq|].
  split; [simpl_state; cbn; apply lookup_insert_eq|].
  intros y x Hy Hx. rewrite (next_shape g h w Hshape). by rewrite get_tab.
Qed.

Lemma update_state_deterministic_witness :
  exists s1' s2' g',
    update_state example_state = Ok s1'
    /\ update_state (set_generation 7 (set_live_history [3; 3] example_state)) = Ok s2'
    /\ arrays s1' !! grid s1' = Some g'
    /\ arrays s2' !! grid s2' = Some g'
    /\ forall y x, 0 <= y < Z.of_nat 5 -> 0 <= x < Z.of_nat 5 ->
         get 0 g' y x
         = bit (rule (get 0 example_grid y x)
                     (sum64 (around (get 0 example_grid) 5 5 y x))).
Proof.
  apply (update_state_deterministic example_state
           (set_generation 7 (set_live_history [3; 3] example_state))
           example_grid 5 5).
  - reflexivity.
  - reflexivity.
  - reflexivity.
  - reflexivity.
  - exact example_grid_shape.
Defined.

(** ** Clearing *)

Lemma sum64_zeros (vs : list Z) : Forall (fun v => v = 0) vs -> sum64 vs = 0.
Proof.
  unfold sum64. induction 1 as [|v vs -> _ IH]; [done|]. cbn. exact IH.
Qed.

Lemma np_sum_fill_0 (g : ndarray Z) : np_sum (np_fill g 0) = 0.
Proof.
  unfold np_sum. fold (sum64 (concat (np_fill g 0))). apply sum64_zeros.
  apply Forall_concat. unfold np_fill, np_map. apply Forall_fmap, Forall_forall.
  intros row _. cbn. apply Forall_fmap, Forall_forall. done.
Qed.

(** [C3], as stated, fails: after [clear_grid] on the example window the
    history holds one entry. *)
Lemma clear_leaves_series_empty_fails : ~ clear_leaves_series_empty example_state.
Proof.
  intros Hclaim.
  destruct (Hclaim (recorded (np_fill example_grid 0)
              (set_painted (paintEvent (grid_widget example_state)
                                       (np_fill example_grid 0))
                 (set_generation 0
                    (set_live_history []
                       (store (grid example_state) (np_fill example_grid 0)
                              example_state)))))
              (np_fill example_grid 0)) as (_ & Hh & _).
  - by apply clear_grid_ok.
  - reflexivity.
  - discriminate Hh.
Qed.

(** [C3], amended: [clear_grid] succeeds and leaves a grid without live
    cells; it empties the history and then records the cleared grid, so the
    history is [[0]], the generation counter is 1, and each series has
    exactly one element (the growth series is [[0]]). *)
Theorem clear_grid_records_zero (s : GameOfLife) (g : ndarray Z) :
  arrays s !! grid s = Some g ->
  gw_grid (grid_widget s) = grid s ->
  exists s',
    clear_grid s = Ok s'
    /\ arrays s' !! grid s' = Some (np_fill g 0)
    /\ np_sum (np_fill g 0) = 0
    /\ live_history s' = [0]
    /\ generation s' = 1
    /\ occupancy (grid_size s') (live_history s')
       = [float_mul (float_div (float_of_int 0) (float_of_int (grid_size s ^ 2)))
                    (float_of_int 100)]
    /\ growth (live_history s') = [0]
    /\ ax s' = lines (grid_size s) [0].
Proof.
  intros Hg Hgw. eexists. split; [by apply clear_grid_ok|].
  unfold recorded. simpl_state. rewrite np_sum_fill_0.
  split_and!; try reflexivity. apply lookup_insert_eq.
Qed.

Lemma clear_grid_records_zero_witness :
  exists s',
    clear_grid example_state = Ok s'
    /\ arrays s' !! grid s' = Some (np_fill example_grid 0)
    /\ np_sum (np_fill example_grid 0) = 0
    /\ live_history s' = [0]
    /\ generation s' = 1
    /\ occupancy (grid_size s') (live_history s')
       = [float_mul (float_div (float_of_int 0)
                       (float_of_int (grid_size example_state ^ 2)))
                    (float_of_int 100)]
    /\ growth (live_history s') = [0]
    /\ ax s' = lines (grid_size example_state) [0].
Proof.
  apply (clear_grid_records_zero example_state example_grid); reflexivity.
Defined.

(** ** The series of the plot *)

(** Every index the growth comprehension reads lies inside the history. *)
Lemma growth_indices_in_range (h : list Z) (i : nat) :
  i ∈ seq 1 (length h - 1) -> (i < length h)%nat /\ (i - 1 < length h)%nat.
Proof. intros Hi. apply elem_of_seq in Hi. lia. Qed.

Lemma growth_lookup_0 (h : list Z) : growth h !! 0%nat = Some 0.
Proof. reflexivity. Qed.

Lemma growth_lookup_S (h : list Z) (i : nat) (v u : Z) :
  (1 <= i)%nat -> h !! i = Some v -> h !! (i - 1)%nat = Some u ->
  growth h !! i = Some (wrap64 (v - u)).
Proof.
  intros Hi Hv Hu. unfold growth. destruct i as [|i]; [lia|].
  rewrite lookup_cons.
  pose proof (lookup_lt_Some _ _ _ Hv) as Hlt.
  rewrite list_lookup_fmap, lookup_seq_lt by lia. cbn [fmap option_fmap option_map].
  replace (1 + i)%nat with (S i) by lia.
  rewrite (list_lookup_total_correct _ _ _ Hv).
  by rewrite (list_lookup_total_correct _ _ _ Hu).
Qed.

Example growth_of_empty : growth [] = [0].
Proof. reflexivity. Qed.

(** The series of a non-empty history of counts whose differences stay
    inside [int64]. *)
Lemma nonempty_series_aligned (n : Z) (h : list Z) :
  h <> [] ->
  Forall (fun v => - 2 ^ 62 <= v < 2 ^ 62) h ->
  series_index_aligned n h.
Proof.
  intros Hne Hh. unfold series_index_aligned. split_and!.
  - apply length_occupancy.
  - rewrite length_growth. destruct h; [done|]. cbn [length]. lia.
  - intros _. split; [reflexivity|].
    intros i v u Hi Hv Hu. rewrite (growth_lookup_S h i v u Hi Hv Hu).
    pose proof (Forall_lookup_1 _ _ _ _ Hh Hv) as Hv'.
    pose proof (Forall_lookup_1 _ _ _ _ Hh Hu) as Hu'.
    cbv beta in Hv', Hu'. by rewrite wrap64_small by lia.
Qed.

(** A handler either leaves the history and the plot alone (a mouse
    press) or ends in [update_plot], which records a count and draws the
    three series of the history. *)
Lemma handle_plot ev s s' :
  consistent s -> handle ev s = Ok s' ->
  (live_history s' = live_history s /\ ax s' = ax s /\ grid_size s' = grid_size s)
  \/ (live_history s' <> [] /\ ax s' = lines (grid_size s') (live_history s')).
Proof.
  assert (forall g' s1, live_history (recorded g' s1) <> []
                        /\ ax (recorded g' s1)
                           = lines (grid_size (recorded g' s1))
                                   (live_history (recorded g' s1))) as Hrec.
  { intros g' s1. unfold recorded. simpl_state. split; [|done].
    by destruct (live_history s1). }
  intros Hc Hev. pose proof Hc as (Hn & Hsz & Hgw & (g & Hg & Hshape & Hb) & Hh).
  destruct ev as [| |draws|e]; cbn in Hev.
  - rewrite (update_state_ok s g _ _ Hg Hgw Hshape) in Hev. injection Hev as <-.
    right. apply Hrec.
  - rewrite (clear_grid_ok s g Hg Hgw) in Hev. injection Hev as <-.
    right. apply Hrec.
  - destruct (randomize_grid_ok draws s g Hg Hgw Hn Hsz Hshape) as (r & _ & Heq).
    rewrite Heq in Hev. injection Hev as <-. right. apply Hrec.
  - destruct (decide (cell_size s = 0)) as [Hz|Hz].
    { unfold mousePressEvent in Hev. rewrite Hz in Hev. by cbn in Hev. }
    destruct (decide (in_bounds (cell_x e s) (cell_y e s) (grid_size s))) as [Hin|Hout].
    + rewrite (mousePressEvent_in e s g Hz Hin Hg Hgw Hshape) in Hev.
      injection Hev as <-. by left.
    + rewrite (mousePressEvent_out e s Hz Hout) in Hev. injection Hev as <-.
      by left.
Qed.

Lemma reachable_plot s :
  reachable s ->
  (live_history s = [] /\ ax s = [])
  \/ (live_history s <> [] /\ ax s = lines (grid_size s) (live_history s)).
Proof.
  induction 1 as [draws n c s Hinit | ev s s' Hr IH Hev].
  - left. unfold init in Hinit. destruct (random_grid draws n); [|done].
    cbn in Hinit. by injection Hinit as <-.
  - destruct (handle_plot ev s s' (reachable_consistent s Hr) Hev)
      as [(-> & -> & ->) | Hnew]; [exact IH | by right].
Qed.

Lemma reachable_history_small (s : GameOfLife) :
  reachable s -> Forall (fun v => - 2 ^ 62 <= v < 2 ^ 62) (live_history s).
Proof.
  intros Hr. destruct (reachable_consistent s Hr) as (Hn & Hsz & _ & _ & Hh).
  eapply Forall_impl; [exact Hh|]. cbn. intros v Hv. lia.
Qed.

(** In every state the program can reach, nothing is plotted while the
    history is empty, and afterwards the plot shows the three series of the
    history, which are aligned. *)
Lemma recorded_series_plotted (s : GameOfLife) :
  reachable s ->
  (live_history s = [] /\ ax s = [])
  \/ (live_history s <> []
      /\ ax s = lines (grid_size s) (live_history s)
      /\ series_index_aligned (grid_size s) (live_history s)).
Proof.
  intros Hr. destruct (reachable_plot s Hr) as [Hnil | [Hne Hax]]; [by left|].
  right. split_and!; try done.
  by apply nonempty_series_aligned, reachable_history_small.
Qed.

(** The claim fails for the empty history, which is the history of the
    window right after its construction: there the growth expression
    [[0] + [...]] gives [[0]], one element more than the history has. *)
Lemma series_of_empty_history_misaligned :
  reachable example_state
  /\ live_history example_state = []
  /\ growth (live_history example_state) = [0]
  /\ ~ series_index_aligned (grid_size example_state) (live_history example_state).
Proof.
  split; [exact example_state_reachable|]. split; [reflexivity|].
  split; [reflexivity|]. intros (_ & Hlen & _). discriminate Hlen.
Qed.

(** [C4] Where the program derives the series, they are aligned:
    [update_plot] appends the current count before it derives them, so the
    history is never empty there; for every history and grid whose counts
    keep the differences inside [int64] it succeeds, and the three series
    it derives and plots have the length of the history, the growth series
    starts with 0 and its element [i >= 1] is
    [live_history[i] - live_history[i-1]]. *)
Theorem update_plot_series_aligned (s : GameOfLife) (g : ndarray Z) :
  arrays s !! grid s = Some g ->
  Forall (fun v => - 2 ^ 62 <= v < 2 ^ 62) (live_history s ++ [np_sum g]) ->
  exists s',
    update_plot s = Ok s'
    /\ live_history s' = live_history s ++ [np_sum g]
    /\ live_history s' <> []
    /\ series_index_aligned (grid_size s') (live_history s')
    /\ ax s' = lines (grid_size s') (live_history s').
Proof.
  intros Hg Hh. eexists. split; [by apply update_plot_ok|]. simpl_state.
  assert (live_history s ++ [np_sum g] <> []) as Hne
    by (by destruct (live_history s)).
  split_and!; try done. by apply nonempty_series_aligned.
Qed.

Lemma update_plot_series_aligned_witness :
  exists s',
    update_plot example_recorded = Ok s'
    /\ live_history s' = live_history example_recorded ++ [np_sum example_grid]
    /\ live_history s' <> []
    /\ series_index_aligned (grid_size s') (live_history s')
    /\ ax s' = lines (grid_size s') (live_history s').
Proof.
  apply (update_plot_series_aligned example_recorded example_grid).
  - reflexivity.
  - change (live_history example_recorded ++ [np_sum example_grid])
      with [3; 5; 3].
    repeat constructor; lia.
Defined.

Example series_of_example_recorded :
  live_history example_recorded ++ [np_sum example_grid] = [3; 5; 3]
  /\ generations [3; 5; 3] = [1; 2; 3]
  /\ growth [3; 5; 3] = [0; 2; -2].
Proof. split_and!; reflexivity. Qed.

(** [C6] For every history and every index [i] inside it, element [i] of
    the occupancy series is exactly [live_history[i] / (width * height) * 100]
    for the square grid of side [grid_size], in binary64 arithmetic. *)
Theorem occupancy_lookup (n : Z) (h : list Z) (i : nat) (v : Z) :
  h !! i = Some v ->
  occupancy n h !! i = Some (occupancy_percent v n n).
Proof.
  intros Hv. unfold occupancy, occupancy_percent.
  rewrite list_lookup_fmap, Hv. cbn. by rewrite Z.pow_2_r.
Qed.

Lemma occupancy_lookup_witness :
  [3; 5; 3] !! 1%nat = Some 5
  /\ occupancy 5 [3; 5; 3] !! 1%nat = Some (occupancy_percent 5 5 5).
Proof.
  split; [reflexivity|]. apply (occupancy_lookup 5 [3; 5; 3] 1 5). reflexivity.
Defined.

Example occupancy_percent_5_of_25 :
  occupancy_percent 5 5 5 = S754_finite false 5629499534213120 (-48).
Proof. vm_compute. reflexivity. Qed.

(** ** Mouse presses *)

(** [C7], as stated, fails: a press outside the grid raises nothing; the
    handler returns the state as it was. *)
Lemma mouse_press_outside_does_not_fail :
  cell_x press_outside example_state = -1
  /\ ~ in_bounds (cell_x press_outside example_state)
                 (cell_y press_outside example_state)
                 (grid_size example_state)
  /\ mousePressEvent press_outside example_state = Ok example_state.
Proof.
  split; [reflexivity|]. split; [|reflexivity].
  intros [[Hx _] _]. by vm_compute in Hx.
Qed.

(** [C7], amended: whenever the pressed cell lies outside the grid, that
    is [x] outside [[0, grid_size)] or [y] outside [[0, grid_size)], the
    handler raises no error and leaves the whole state, the grid included,
    unchanged: the press is ignored. *)
Theorem mouse_press_outside_ignored (e : QMouseEvent) (s : GameOfLife) :
  cell_size s <> 0 ->
  ~ in_bounds (cell_x e s) (cell_y e s) (grid_size s) ->
  mousePressEvent e s = Ok s.
Proof. exact (mousePressEvent_out e s). Qed.

Lemma mouse_press_outside_ignored_witness :
  mousePressEvent press_outside example_state = Ok example_state.
Proof.
  apply (mouse_press_outside_ignored press_outside example_state).
  - discriminate.
  - intros [[Hx _] _]. by vm_compute in Hx.
Defined.

Lemma get_toggled_same g h w (y x : Z) :
  has_shape h w g -> 0 <= y < Z.of_nat h -> 0 <= x < Z.of_nat w ->
  get 0 (toggled g y x) y x = wrap64 (1 - get 0 g y x).
Proof.
  intros [Hlen Hrows] Hy Hx. unfold toggled.
  destruct (lookup_lt_is_Some_2 g (Z.to_nat y)) as [row Hrow]; [lia|].
  pose proof (Forall_lookup_1 _ _ _ _ Hrows Hrow) as Hw. cbn in Hw.
  rewrite (list_lookup_total_correct _ _ _ Hrow).
  unfold get at 1, cell. rewrite list_lookup_insert_eq by lia.
  cbn [mbind option_bind]. by rewrite list_lookup_insert_eq by lia.
Qed.

Lemma get_toggled_other g (y x y' x' : Z) :
  0 <= y -> 0 <= x -> 0 <= y' -> 0 <= x' -> (y', x') <> (y, x) ->
  get 0 (toggled g y x) y' x' = get 0 g y' x'.
Proof.
  intros Hy Hx Hy' Hx' Hne. unfold toggled, get, cell.
  destruct (decide (y' = y)) as [->|Hyy].
  - destruct (g !! Z.to_nat y) as [row|] eqn:Hrow.
    + rewrite list_lookup_insert_eq by (by eapply lookup_lt_Some).
      rewrite (list_lookup_total_correct _ _ _ Hrow). cbn [mbind option_bind].
      rewrite list_lookup_insert_ne; [done|]. intros Heq. apply Hne.
      f_equal. lia.
    + by rewrite list_insert_ge, Hrow by (by apply lookup_ge_None_1).
  - rewrite list_lookup_insert_ne by lia. done.
Qed.

Lemma toggled_toggled g h w (y x : Z) :
  has_shape h w g -> binary g ->
  0 <= y < Z.of_nat h -> 0 <= x < Z.of_nat w ->
  toggled (toggled g y x) y x = g.
Proof.
  intros Hshape Hb Hy Hx. unfold toggled at 1.
  rewrite (get_toggled_same g h w) by done.
  destruct Hshape as [Hlen Hrows].
  destruct (lookup_lt_is_Some_2 g (Z.to_nat y)) as [row Hrow]; [lia|].
  pose proof (Forall_lookup_1 _ _ _ _ Hrows Hrow) as Hw. cbn in Hw.
  destruct (lookup_lt_is_Some_2 row (Z.to_nat x)) as [v Hv]; [lia|].
  assert (get 0 g y x = v) as Hget
    by (unfold get, cell; rewrite Hrow; cbn; by rewrite Hv).
  assert (v = 0 \/ v = 1) as Hv01 by (rewrite <- Hget; by apply binary_get).
  unfold toggled. rewrite Hget, (list_lookup_total_correct _ _ _ Hrow).
  rewrite list_lookup_total_insert_eq by lia.
  rewrite list_insert_insert_eq, list_insert_insert_eq.
  replace (wrap64 (1 - wrap64 (1 - v))) with v
    by (destruct Hv01 as [-> | ->]; reflexivity).
  by rewrite (list_insert_id row), list_insert_id.
Qed.

(** [C8] For every binary square grid and every press on a cell inside it,
    the handler succeeds and replaces the value [v] of that cell by [1 - v],
    leaving every other cell as it was; a second press on the same cell
    succeeds as well and restores the array store, and so the grid, to
    exactly what it was. *)
Theorem toggle_involution (e : QMouseEvent) (s : GameOfLife) (g : ndarray Z) :
  cell_size s <> 0 ->
  in_bounds (cell_x e s) (cell_y e s) (grid_size s) ->
  arrays s !! grid s = Some g ->
  gw_grid (grid_widget s) = grid s ->
  has_shape (Z.to_nat (grid_size s)) (Z.to_nat (grid_size s)) g ->
  binary g ->
  exists s1 g1 s2,
    mousePressEvent e s = Ok s1
    /\ arrays s1 !! grid s1 = Some g1
    /\ get 0 g1 (cell_y e s) (cell_x e s) = 1 - get 0 g (cell_y e s) (cell_x e s)
    /\ (forall y x, 0 <= y -> 0 <= x -> (y, x) <> (cell_y e s, cell_x e s) ->
          get 0 g1 y x = get 0 g y x)
    /\ mousePressEvent e s1 = Ok s2
    /\ arrays s2 = arrays s
    /\ arrays s2 !! grid s2 = Some g.
Proof.
  intros Hc Hin Hg Hgw Hshape Hb. pose proof Hin as [Hx Hy].
  set (x := cell_x e s) in *. set (y := cell_y e s) in *.
  exists (shown (toggled g y x) s), (toggled g y x),
         (shown (toggled (toggled g y x) y x) (shown (toggled g y x) s)).
  split; [by apply mousePressEvent_in|].
  split; [unfold shown; simpl_state; apply lookup_insert_eq|].
  split.
  { rewrite (get_toggled_same g _ _ y x Hshape) by lia.
    apply wrap64_toggle. by apply binary_get. }
  split; [intros y' x' Hy' Hx' Hne; apply get_toggled_other; (lia || done)|].
  split.
  { apply (mousePressEvent_in e (shown (toggled g y x) s) (toggled g y x));
      unfold shown; simpl_state; try done.
    - apply lookup_insert_eq.
    - by apply toggled_shape. }
  rewrite (toggled_toggled g _ _ y x Hshape Hb) by lia.
  assert (arrays (shown g (shown (toggled g y x) s)) = arrays s) as Harr.
  { unfold shown. simpl_state. rewrite insert_insert_eq. by apply insert_id. }
  split; [exact Harr|]. rewrite Harr. exact Hg.
Qed.

Lemma toggle_involution_witness :
  exists s1 g1 s2,
    mousePressEvent press_inside example_state = Ok s1
    /\ arrays s1 !! grid s1 = Some g1
    /\ get 0 g1 (cell_y press_inside example_state) (cell_x press_inside example_state)
       = 1 - get 0 example_grid (cell_y press_inside example_state)
                                (cell_x press_inside example_state)
    /\ (forall y x, 0 <= y -> 0 <= x ->
          (y, x) <> (cell_y press_inside example_state,
                     cell_x press_inside example_state) ->
          get 0 g1 y x = get 0 example_grid y x)
    /\ mousePressEvent press_inside s1 = Ok s2
    /\ arrays s2 = arrays example_state
    /\ arrays s2 !! grid s2 = Some example_grid.
Proof.
  apply (toggle_involution press_inside example_state example_grid).
  - discriminate.
  - by vm_compute.
  - reflexivity.
  - reflexivity.
  - exact example_grid_shape.
  - exact example_grid_binary.
Defined.

(** ** In-place mutation *)

(** What a handler may change in the store: nothing at all, or the contents
    of the array behind [self.grid]; the references and the sizes stay. *)
Lemma handle_store ev s s' :
  consistent s -> handle ev s = Ok s' ->
  grid s' = grid s
  /\ grid_widget s' = grid_widget s
  /\ grid_size s' = grid_size s
  /\ cell_size s' = cell_size s
  /\ (arrays s' = arrays s
      \/ exists g',
           arrays s' = <[grid s := g']> (arrays s)
           /\ has_shape (Z.to_nat (grid_size s)) (Z.to_nat (grid_size s)) g').
Proof.
  intros Hc Hev. pose proof Hc as (Hn & Hsz & Hgw & (g & Hg & Hshape & Hb) & Hh).
  destruct ev as [| |draws|e]; cbn in Hev.
  - rewrite (update_state_ok s g _ _ Hg Hgw Hshape) in Hev. injection Hev as <-.
    unfold recorded, shown. simpl_state. split_and!; try done.
    right. eexists. split; [done|]. rewrite (next_shape g _ _ Hshape).
    apply tab_shape.
  - rewrite (clear_grid_ok s g Hg Hgw) in Hev. injection Hev as <-.
    unfold recorded. simpl_state. split_and!; try done.
    right. eexists. split; [done|]. rewrite (np_fill_shape g 0 _ _ Hshape).
    apply tab_shape.
  - destruct (randomize_grid_ok draws s g Hg Hgw Hn Hsz Hshape) as (r & Hr & Heq).
    rewrite Heq in Hev. injection Hev as <-.
    rewrite random_grid_tab in Hr by done. injection Hr as <-.
    unfold recorded. simpl_state. split_and!; try done.
    right. eexists. split; [done|]. apply tab_shape.
  - destruct (decide (cell_size s = 0)) as [Hz|Hz].
    { unfold mousePressEvent in Hev. rewrite Hz in Hev. by cbn in Hev. }
    destruct (decide (in_bounds (cell_x e s) (cell_y e s) (grid_size s))) as [Hin|Hout].
    + rewrite (mousePressEvent_in e s g Hz Hin Hg Hgw Hshape) in Hev.
      injection Hev as <-. unfold shown. simpl_state. split_and!; try done.
      right. eexists. split; [done|]. by apply toggled_shape.
    + rewrite (mousePressEvent_out e s Hz Hout) in Hev. injection Hev as <-.
      split_and!; try done. by left.
Qed.

Lemma handle_succeeds ev s :
  consistent s -> divides_pixels ev s -> exists s', handle ev s = Ok s'.
Proof.
  intros Hc Hz. pose proof Hc as (Hn & Hsz & Hgw & (g & Hg & Hshape & Hb) & Hh).
  destruct ev as [| |draws|e]; cbn.
  - eexists. by eapply update_state_ok.
  - eexists. by eapply clear_grid_ok.
  - destruct (randomize_grid_ok draws s g Hg Hgw Hn Hsz Hshape) as (r & _ & Heq).
    eauto.
  - destruct (decide (in_bounds (cell_x e s) (cell_y e s) (grid_size s))) as [Hin|Hout].
    + eexists. by eapply mousePressEvent_in.
    + eexists. by eapply mousePressEvent_out.
Qed.

(** [C9] Every handler (a timer tick for [update_state], [clear_grid],
    [randomize_grid], a mouse press for the toggle) succeeds on a consistent
    state (a mouse press when [cell_size] is not zero), and the state it
    leaves has the same grid reference in the window
    and in the widget, the same [grid_size], the same set of arrays in the
    store, and behind the grid reference an array of the same shape
    [grid_size] by [grid_size]: the array is written in place and never
    replaced by another object or by an array of another shape. *)
Theorem handlers_mutate_in_place (ev : event) (s : GameOfLife) :
  consistent s ->
  divides_pixels ev s ->
  exists s',
    handle ev s = Ok s'
    /\ grid s' = grid s
    /\ gw_grid (grid_widget s') = grid s
    /\ grid_size s' = grid_size s
    /\ dom (arrays s') = dom (arrays s)
    /\ shape_at s (grid s) (Z.to_nat (grid_size s)) (Z.to_nat (grid_size s))
    /\ shape_at s' (grid s') (Z.to_nat (grid_size s)) (Z.to_nat (grid_size s)).
Proof.
  intros Hc Hz. destruct (handle_succeeds ev s Hc Hz) as [s' Hev].
  exists s'. split; [done|].
  destruct (handle_store ev s s' Hc Hev) as (Hgrid & Hw & Hn' & _ & Harr).
  pose proof Hc as (Hn & Hsz & Hgw & (g & Hg & Hshape & Hb) & Hh).
  rewrite Hgrid, Hw. split_and!; try done.
  - destruct Harr as [-> | (g' & -> & _)]; [done|].
    apply dom_insert_lookup_L. by rewrite Hg.
  - by exists g.
  - destruct Harr as [Harr | (g' & Harr & Hshape')].
    + exists g. by rewrite Harr.
    + exists g'. rewrite Harr. split; [apply lookup_insert_eq | done].
Qed.

Lemma handlers_mutate_in_place_witness :
  exists s',
    handle ClearClicked example_state = Ok s'
    /\ grid s' = grid example_state
    /\ gw_grid (grid_widget s') = grid example_state
    /\ grid_size s' = grid_size example_state
    /\ dom (arrays s') = dom (arrays example_state)
    /\ shape_at example_state (grid example_state)
         (Z.to_nat (grid_size example_state)) (Z.to_nat (grid_size example_state))
    /\ shape_at s' (grid s')
         (Z.to_nat (grid_size example_state)) (Z.to_nat (grid_size example_state)).
Proof.
  apply (handlers_mutate_in_place ClearClicked example_state).
  - exact example_state_consistent.
  - exact I.
Defined.

(** ** The blinker *)

Example blinker_row_5x5 : blinker_row 5 5 2 1 = example_grid.
Proof. reflexivity. Qed.

Lemma mod_cases (a n : Z) :
  0 < n -> - n <= a < 2 * n ->
  a mod n = if a <? 0 then a + n else if a <? n then a else a - n.
Proof.
  intros Hn Ha. destruct (Z.ltb_spec a 0); [|destruct (Z.ltb_spec a n)].
  - symmetry. apply Z.mod_unique with (q := -1); lia.
  - by apply Z.mod_small.
  - symmetry. apply Z.mod_unique with (q := 1); lia.
Qed.

Lemma rel_range c n z : 0 < n -> 0 <= rel c n z < n.
Proof. intros Hn. unfold rel. by apply Z.mod_pos_bound. Qed.

Lemma rel_centre c n z :
  4 <= n -> 0 <= c < n -> 0 <= z < n -> (z =? c) = (rel c n z =? 1).
Proof.
  intros Hn Hc Hz. unfold rel. rewrite (mod_cases (z - c + 1)) by lia.
  split_tests; reflexivity.
Qed.

Lemma rel_triple c n z :
  4 <= n -> 0 <= c < n -> 0 <= z < n ->
  ((z =? (c - 1) mod n) || (z =? c) || (z =? (c + 1) mod n)) = (rel c n z <=? 2).
Proof.
  intros Hn Hc Hz. unfold rel.
  rewrite (mod_cases (z - c + 1)), (mod_cases (c - 1)), (mod_cases (c + 1)) by lia.
  split_tests; reflexivity.
Qed.

Lemma blinker_row_rel (h w : nat) (cx cy : Z) :
  (4 <= h)%nat -> (4 <= w)%nat ->
  0 <= cx < Z.of_nat w -> 0 <= cy < Z.of_nat h ->
  blinker_row h w cx cy
  = tab h w (fun y x =>
      row_triple (rel cy (Z.of_nat h) y) (rel cx (Z.of_nat w) x)).
Proof.
  intros Hh Hw Hcx Hcy. apply tab_ext. intros y x Hy Hx. unfold row_triple.
  by rewrite (rel_triple cx (Z.of_nat w) x), (rel_centre cy (Z.of_nat h) y) by lia.
Qed.

Lemma blinker_col_rel (h w : nat) (cx cy : Z) :
  (4 <= h)%nat -> (4 <= w)%nat ->
  0 <= cx < Z.of_nat w -> 0 <= cy < Z.of_nat h ->
  blinker_col h w cx cy
  = tab h w (fun y x =>
      col_triple (rel cy (Z.of_nat h) y) (rel cx (Z.of_nat w) x)).
Proof.
  intros Hh Hw Hcx Hcy. apply tab_ext. intros y x Hy Hx. unfold col_triple.
  by rewrite (rel_triple cy (Z.of_nat h) y), (rel_centre cx (Z.of_nat w) x) by lia.
Qed.

Lemma around_rel (f : Z -> Z -> Z) (h w : nat) (cy cx y x : Z) :
  around (fun y x => f (rel cy (Z.of_nat h) y) (rel cx (Z.of_nat w) x)) h w y x
  = around f h w (rel cy (Z.of_nat h) y) (rel cx (Z.of_nat w) x).
Proof.
  assert (Hrel : forall c n z i, rel c n ((z - i) mod n) = (rel c n z - i) mod n).
  { intros c n z i. unfold rel.
    replace ((z - i) mod n - c + 1) with ((z - i) mod n + (- c + 1)) by lia.
    rewrite Zplus_mod_idemp_l.
    replace ((z - c + 1) mod n - i) with ((z - c + 1) mod n + (- i)) by lia.
    rewrite Zplus_mod_idemp_l. f_equal. lia. }
  unfold around. apply list_fmap_ext. intros _ ij _. cbn beta.
  by rewrite !Hrel.
Qed.

Lemma row_to_col (h w : nat) (v u : Z) :
  (4 <= h)%nat -> (4 <= w)%nat ->
  0 <= v < Z.of_nat h -> 0 <= u < Z.of_nat w ->
  bit (rule (row_triple v u) (sum64 (around row_triple h w v u))) = col_triple v u.
Proof.
  intros Hh Hw Hv Hu. unfold around. rewrite shifts_eq.
  cbn [fmap list_fmap fst snd].
  rewrite !(mod_cases _ (Z.of_nat h)), !(mod_cases _ (Z.of_nat w)) by lia.
  unfold row_triple, col_triple.
  split_tests; first [ exfalso; lia | vm_compute; reflexivity ].
Qed.

Lemma col_to_row (h w : nat) (v u : Z) :
  (4 <= h)%nat -> (4 <= w)%nat ->
  0 <= v < Z.of_nat h -> 0 <= u < Z.of_nat w ->
  bit (rule (col_triple v u) (sum64 (around col_triple h w v u))) = row_triple v u.
Proof.
  intros Hh Hw Hv Hu. unfold around. rewrite shifts_eq.
  cbn [fmap list_fmap fst snd].
  rewrite !(mod_cases _ (Z.of_nat h)), !(mod_cases _ (Z.of_nat w)) by lia.
  unfold row_triple, col_triple.
  split_tests; first [ exfalso; lia | vm_compute; reflexivity ].
Qed.

Lemma next_blinker_row (h w : nat) (cx cy : Z) :
  (4 <= h)%nat -> (4 <= w)%nat ->
  0 <= cx < Z.of_nat w -> 0 <= cy < Z.of_nat h ->
  astype_int (new_grid (blinker_row h w cx cy)) = blinker_col h w cx cy.
Proof.
  intros Hh Hw Hcx Hcy. rewrite blinker_row_rel, blinker_col_rel by done.
  rewrite next_tab. apply tab_ext. intros y x Hy Hx.
  rewrite (around_rel row_triple). apply row_to_col; try done; apply rel_range; lia.
Qed.

Lemma next_blinker_col (h w : nat) (cx cy : Z) :
  (4 <= h)%nat -> (4 <= w)%nat ->
  0 <= cx < Z.of_nat w -> 0 <= cy < Z.of_nat h ->
  astype_int (new_grid (blinker_col h w cx cy)) = blinker_row h w cx cy.
Proof.
  intros Hh Hw Hcx Hcy. rewrite blinker_row_rel, blinker_col_rel by done.
  rewrite next_tab. apply tab_ext. intros y x Hy Hx.
  rewrite (around_rel col_triple). apply col_to_row; try done; apply rel_range; lia.
Qed.

Lemma blinker_col_differs (h w : nat) (cx cy : Z) :
  (4 <= h)%nat -> (4 <= w)%nat ->
  0 <= cx < Z.of_nat w -> 0 <= cy < Z.of_nat h ->
  blinker_col h w cx cy <> blinker_row h w cx cy.
Proof.
  intros Hh Hw Hcx Hcy Heq. unfold blinker_col, blinker_row in Heq.
  set (xr := (cx + 1) mod Z.of_nat w) in *.
  assert (0 <= xr < Z.of_nat w) as Hxr by (apply Z.mod_pos_bound; lia).
  assert (xr <> cx) as Hne.
  { unfold xr. rewrite (mod_cases (cx + 1)) by lia.
    destruct (Z.ltb_spec (cx + 1) 0); [lia|].
    destruct (Z.ltb_spec (cx + 1) (Z.of_nat w)); lia. }
  pose proof (tab_inj _ _ _ _ cy xr Heq Hcy Hxr) as Hcell. cbv beta in Hcell.
  rewrite (proj2 (Z.eqb_neq xr cx)) in Hcell by done.
  rewrite !Z.eqb_refl, !orb_true_r in Hcell. cbn [andb bit] in Hcell.
  discriminate Hcell.
Qed.

(** [C5] On every torus of at least four rows and four columns, and for
    every centre, the horizontal three-cell blinker becomes the vertical one
    after one [update_state] (a different grid) and is back to exactly the
    original grid after the second. *)
Theorem blinker_period_two (s : GameOfLife) (h w : nat) (cx cy : Z) :
  (4 <= h)%nat -> (4 <= w)%nat ->
  0 <= cx < Z.of_nat w -> 0 <= cy < Z.of_nat h ->
  arrays s !! grid s = Some (blinker_row h w cx cy) ->
  gw_grid (grid_widget s) = grid s ->
  exists s1 s2,
    update_state s = Ok s1
    /\ arrays s1 !! grid s1 = Some (blinker_col h w cx cy)
    /\ blinker_col h w cx cy <> blinker_row h w cx cy
    /\ update_state s1 = Ok s2
    /\ arrays s2 !! grid s2 = Some (blinker_row h w cx cy).
Proof.
  intros Hh Hw Hcx Hcy Hg Hgw.
  pose proof (update_state_ok s _ h w Hg Hgw (tab_shape h w _)) as H1.
  rewrite next_blinker_row in H1 by done.
  set (s1 := recorded (blinker_col h w cx cy) (shown (blinker_col h w cx cy) s)) in *.
  assert (arrays s1 !! grid s1 = Some (blinker_col h w cx cy)) as Hg1
    by (unfold s1, recorded, shown; simpl_state; apply lookup_insert_eq).
  assert (gw_grid (grid_widget s1) = grid s1) as Hgw1 by exact Hgw.
  pose proof (update_state_ok s1 _ h w Hg1 Hgw1 (tab_shape h w _)) as H2.
  rewrite next_blinker_col in H2 by done.
  eexists _, _. split; [exact H1|]. split; [exact Hg1|].
  split; [by apply blinker_col_differs|]. split; [exact H2|].
  unfold recorded, shown. simpl_state. apply lookup_insert_eq.
Qed.

Lemma blinker_period_two_witness :
  exists s1 s2,
    update_state example_state = Ok s1
    /\ arrays s1 !! grid s1 = Some (blinker_col 5 5 2 1)
    /\ blinker_col 5 5 2 1 <> blinker_row 5 5 2 1
    /\ update_state s1 = Ok s2
    /\ arrays s2 !! grid s2 = Some (blinker_row 5 5 2 1).
Proof.
  apply (blinker_period_two example_state 5 5 2 1); try lia; reflexivity.
Defined.

(** * Binary64 arithmetic of the occupancy

    The operations are those of [SpecFloat] at precision 53 and maximal
    exponent 1024. A positive finite number [m * 2 ^ e] produced by them is
    canonical: [m] has at most 53 bits and [e] is the exponent [fexp] gives
    to its magnitude. *)

Lemma fexp64_eq e : fexp prec emax e = Z.max (e - 53) (-1074).
Proof. reflexivity. Qed.

Lemma digits2_pos_bounds (p : positive) :
  2 ^ (Z.pos (digits2_pos p) - 1) <= Z.pos p < 2 ^ Z.pos (digits2_pos p).
Proof.
  induction p as [p IH|p IH|]; cbn [digits2_pos].
  - rewrite Pos2Z.inj_succ.
    replace (Z.succ (Z.pos (digits2_pos p)) - 1) with (Z.succ (Z.pos (digits2_pos p) - 1)) by lia.
    rewrite !Z.pow_succ_r by lia. lia.
  - rewrite Pos2Z.inj_succ.
    replace (Z.succ (Z.pos (digits2_pos p)) - 1) with (Z.succ (Z.pos (digits2_pos p) - 1)) by lia.
    rewrite !Z.pow_succ_r by lia. lia.
  - cbn. lia.
Qed.

Lemma digits_bounds (m : Z) :
  0 < m -> 0 < Zdigits2 m /\ 2 ^ (Zdigits2 m - 1) <= m < 2 ^ Zdigits2 m.
Proof.
  destruct m as [|p|p]; try lia. intros _. cbn [Zdigits2].
  split; [lia|]. apply digits2_pos_bounds.
Qed.

Lemma digits_0 : Zdigits2 0 = 0.
Proof. reflexivity. Qed.

Lemma digits_nonneg (m : Z) : 0 <= m -> 0 <= Zdigits2 m.
Proof. destruct m; cbn; lia. Qed.

Lemma digits_unique (m k : Z) :
  2 ^ (k - 1) <= m < 2 ^ k -> 0 < k -> Zdigits2 m = k.
Proof.
  intros Hm Hk.
  assert (0 < m) as Hpos by (pose proof (Z.pow_pos_nonneg 2 (k - 1)); lia).
  destruct (digits_bounds m Hpos) as [Hd Hb].
  destruct (Z.lt_trichotomy (Zdigits2 m) k) as [Hlt|[Heq|Hgt]]; [|done|].
  - assert (2 ^ Zdigits2 m <= 2 ^ (k - 1)) by (apply Z.pow_le_mono_r; lia). lia.
  - assert (2 ^ k <= 2 ^ (Zdigits2 m - 1)) by (apply Z.pow_le_mono_r; lia). lia.
Qed.

Lemma digits_lt_pow (m k : Z) : 0 <= m -> 0 <= k -> m < 2 ^ k -> Zdigits2 m <= k.
Proof.
  intros Hm Hk Hlt. destruct (Z.eq_dec m 0) as [->|Hne]; [cbn; lia|].
  destruct (digits_bounds m) as [Hd Hb]; [lia|].
  destruct (Z.le_gt_cases (Zdigits2 m) k) as [|Hgt]; [done|].
  assert (2 ^ k <= 2 ^ (Zdigits2 m - 1)) by (apply Z.pow_le_mono_r; lia). lia.
Qed.

Lemma digits_ge_pow (m k : Z) : 0 <= k -> 2 ^ k <= m -> k + 1 <= Zdigits2 m.
Proof.
  intros Hk Hle.
  assert (0 < m) as Hpos by (pose proof (Z.pow_pos_nonneg 2 k); lia).
  destruct (digits_bounds m Hpos) as [Hd Hb].
  destruct (Z.le_gt_cases (k + 1) (Zdigits2 m)) as [|Hgt]; [done|].
  assert (2 ^ Zdigits2 m <= 2 ^ k) by (apply Z.pow_le_mono_r; lia). lia.
Qed.

Lemma digits_le (m1 m2 : Z) : 0 <= m1 <= m2 -> Zdigits2 m1 <= Zdigits2 m2.
Proof.
  intros [H1 H2]. destruct (Z.eq_dec m1 0) as [->|Hne].
  - cbn. apply digits_nonneg. lia.
  - destruct (digits_bounds m1) as [Hd1 Hb1]; [lia|].
    pose proof (digits_ge_pow m2 (Zdigits2 m1 - 1)). lia.
Qed.

Lemma digits_mul_pow (m k : Z) :
  0 < m -> 0 <= k -> Zdigits2 (m * 2 ^ k) = Zdigits2 m + k.
Proof.
  intros Hm Hk. destruct (digits_bounds m Hm) as [Hd Hb].
  apply digits_unique; [|lia].
  replace (Zdigits2 m + k - 1) with (Zdigits2 m - 1 + k) by lia.
  rewrite !Z.pow_add_r by lia.
  pose proof (Z.pow_pos_nonneg 2 k). nia.
Qed.

Lemma digits_div_pow (m k : Z) :
  0 < m -> 0 <= k -> k < Zdigits2 m -> Zdigits2 (m / 2 ^ k) = Zdigits2 m - k.
Proof.
  intros Hm Hk Hlt. destruct (digits_bounds m Hm) as [Hd Hb].
  pose proof (Z.pow_pos_nonneg 2 k ltac:(lia) Hk) as Hpk.
  apply digits_unique; [|lia]. split.
  - apply Z.div_le_lower_bound; [done|].
    rewrite <- Z.pow_add_r by lia.
    replace (k + (Zdigits2 m - k - 1)) with (Zdigits2 m - 1) by lia. lia.
  - apply Z.div_lt_upper_bound; [done|].
    rewrite <- Z.pow_add_r by lia.
    replace (k + (Zdigits2 m - k)) with (Zdigits2 m) by lia. lia.
Qed.

Lemma div_pow_small (m k : Z) :
  0 <= m -> 0 <= k -> Zdigits2 m <= k -> m / 2 ^ k = 0.
Proof.
  intros Hm Hk Hle. apply Z.div_small. split; [done|].
  destruct (Z.eq_dec m 0) as [->|Hne]; [by apply Z.pow_pos_nonneg|].
  destruct (digits_bounds m) as [Hd Hb]; [lia|].
  assert (2 ^ Zdigits2 m <= 2 ^ k) by (apply Z.pow_le_mono_r; lia). lia.
Qed.

(** ** Shifting a mantissa right: quotient, round bit and sticky bit *)

Lemma iter_pos_nat {A} (f : A -> A) (p : positive) (x : A) :
  SpecFloat.iter_pos f p x = Nat.iter (Pos.to_nat p) f x.
Proof.
  revert x. induction p as [p IH|p IH|]; intros x; cbn [SpecFloat.iter_pos].
  - rewrite !IH, Pos2Nat.inj_xI.
    replace (S (2 * Pos.to_nat p)) with (Pos.to_nat p + (Pos.to_nat p + 1))%nat by lia.
    rewrite !Nat.iter_add. reflexivity.
  - rewrite !IH, Pos2Nat.inj_xO.
    replace (2 * Pos.to_nat p)%nat with (Pos.to_nat p + Pos.to_nat p)%nat by lia.
    rewrite Nat.iter_add. reflexivity.
  - reflexivity.
Qed.

Lemma shr_eq (mrs : shr_record) (e n : Z) :
  shr mrs e n = (Nat.iter (Z.to_nat n) shr_1 mrs, e + Z.max 0 n).
Proof.
  destruct n as [|p|p]; cbn [shr Z.to_nat Nat.iter].
  - f_equal. lia.
  - rewrite iter_pos_nat. f_equal.
  - f_equal. lia.
Qed.

Lemma shr_1_spec (m : Z) (r s : bool) :
  0 <= m ->
  shr_1 {| shr_m := m; shr_r := r; shr_s := s |}
  = {| shr_m := m / 2; shr_r := Z.odd m; shr_s := r || s |}.
Proof.
  intros Hm. destruct m as [|[p|p|]|p]; try lia; cbn [shr_1 Z.odd].
  - by rewrite Z.div_0_l.
  - f_equal. rewrite Pos2Z.inj_xI.
    apply Z.div_unique with (r := 1); lia.
  - f_equal. rewrite Pos2Z.inj_xO.
    apply Z.div_unique with (r := 0); lia.
  - reflexivity.
Qed.

(** After [k >= 1] shifts: the quotient by [2 ^ k], the last bit shifted
    out, and whether anything below it was set. *)
Lemma iter_shr_1_spec (k : nat) (m : Z) (r s : bool) :
  0 <= m ->
  Nat.iter (S k) shr_1 {| shr_m := m; shr_r := r; shr_s := s |}
  = {| shr_m := m / 2 ^ Z.of_nat (S k);
       shr_r := Z.testbit m (Z.of_nat k);
       shr_s := r || s || negb (m mod 2 ^ Z.of_nat k =? 0) |}.
Proof.
  intros Hm. induction k as [|k IH].
  - cbn [Nat.iter]. rewrite shr_1_spec by done. cbn [Z.of_nat].
    rewrite Z.mod_1_r, Z.bit0_odd. cbn. by rewrite orb_false_r.
  - change (Nat.iter (S (S k)) shr_1 ?x) with (shr_1 (Nat.iter (S k) shr_1 x)).
    rewrite IH.
    assert (0 < 2 ^ Z.of_nat k) as Hpk by (apply Z.pow_pos_nonneg; lia).
    assert (0 < 2 ^ Z.of_nat (S k)) as HpSk by (apply Z.pow_pos_nonneg; lia).
    rewrite shr_1_spec by (apply Z.div_pos; lia). f_equal.
    + rewrite Z.div_div by lia. f_equal.
      rewrite (Nat2Z.inj_succ (S k)), Z.pow_succ_r by lia. lia.
    + rewrite (Z.testbit_odd m (Z.of_nat (S k))), Z.shiftr_div_pow2 by lia. done.
    + assert (m mod 2 ^ Z.of_nat (S k)
              = m mod 2 ^ Z.of_nat k
                + 2 ^ Z.of_nat k * Z.b2z (Z.testbit m (Z.of_nat k))) as Hdec.
      { rewrite (Nat2Z.inj_succ k), Z.pow_succ_r by lia.
        rewrite (Z.mul_comm 2), Z.rem_mul_r by lia.
        by rewrite Z.testbit_spec' by lia. }
      rewrite Hdec.
      pose proof (Z.mod_pos_bound m (2 ^ Z.of_nat k) Hpk) as Hrem.
      destruct (Z.testbit m (Z.of_nat k)); cbn [Z.b2z].
      * rewrite (proj2 (Z.eqb_neq (m mod 2 ^ Z.of_nat k + 2 ^ Z.of_nat k * 1) 0))
          by lia.
        destruct r, s; cbn; destruct (_ =? 0); reflexivity.
      * rewrite Z.mul_0_r, Z.add_0_r. cbn [orb]. reflexivity.
Qed.

Lemma mod_pow2_succ (m : Z) (k : nat) :
  m mod 2 ^ Z.of_nat (S k)
  = m mod 2 ^ Z.of_nat k + 2 ^ Z.of_nat k * Z.b2z (Z.testbit m (Z.of_nat k)).
Proof.
  assert (0 < 2 ^ Z.of_nat k) as Hpk by (apply Z.pow_pos_nonneg; lia).
  rewrite (Nat2Z.inj_succ k), Z.pow_succ_r by lia.
  rewrite (Z.mul_comm 2), Z.rem_mul_r by lia.
  by rewrite Z.testbit_spec' by lia.
Qed.

Lemma loc_of_shr_record_of_loc (m : Z) (l : location) :
  loc_of_shr_record (shr_record_of_loc m l) = l
  /\ shr_m (shr_record_of_loc m l) = m.
Proof. by destruct l as [|[]]. Qed.

Lemma round_nearest_even_bounds (m : Z) (l : location) :
  m <= round_nearest_even m l <= m + 1.
Proof. destruct l as [|[]]; cbn; try lia. destruct (Z.even m); lia. Qed.

(** Rounding after a shift by [k]: the result is the quotient or the next
    integer, and the quotient itself when nothing is lost. *)
Lemma round_shr_bounds (m : Z) (l : location) (k : nat) :
  0 <= m ->
  let mrs := Nat.iter k shr_1 (shr_record_of_loc m l) in
  let mr := round_nearest_even (shr_m mrs) (loc_of_shr_record mrs) in
  shr_m mrs = m / 2 ^ Z.of_nat k
  /\ m / 2 ^ Z.of_nat k <= mr <= m / 2 ^ Z.of_nat k + 1
  /\ (l = loc_Exact -> m mod 2 ^ Z.of_nat k = 0 -> mr = m / 2 ^ Z.of_nat k).
Proof.
  intros Hm mrs mr. destruct k as [|k].
  - subst mr mrs.
    change (Nat.iter 0 shr_1 (shr_record_of_loc m l)) with (shr_record_of_loc m l).
    cbn [Z.of_nat].
    destruct (loc_of_shr_record_of_loc m l) as [-> ->].
    rewrite Z.pow_0_r, Z.div_1_r. split; [done|].
    split; [apply round_nearest_even_bounds|]. by intros ->.
  - assert (exists r s, shr_record_of_loc m l
                        = {| shr_m := m; shr_r := r; shr_s := s |}
                        /\ (l = loc_Exact -> r = false /\ s = false))
      as (r & s & Hrec & Hex).
    { destruct l as [|[]]; cbn; eexists _, _; (split; [reflexivity|]);
        intros; (done || discriminate). }
    subst mr mrs. rewrite Hrec, iter_shr_1_spec by done. cbn [shr_m].
    split; [done|]. split; [apply round_nearest_even_bounds|].
    intros Hl Hmod. destruct (Hex Hl) as [-> ->].
    rewrite mod_pow2_succ in Hmod.
    assert (0 < 2 ^ Z.of_nat k) as Hpk by (apply Z.pow_pos_nonneg; lia).
    pose proof (Z.mod_pos_bound m (2 ^ Z.of_nat k) Hpk) as Hrem.
    destruct (Z.testbit m (Z.of_nat k)); cbn [Z.b2z] in Hmod; [lia|].
    rewrite (proj2 (Z.eqb_eq (m mod 2 ^ Z.of_nat k) 0)) by lia. reflexivity.
Qed.

Lemma round_shr_exact (m : Z) (k : nat) :
  0 <= m ->
  let mrs := Nat.iter k shr_1 (shr_record_of_loc m loc_Exact) in
  round_nearest_even (shr_m mrs) (loc_of_shr_record mrs) = rne m (Z.of_nat k).
Proof.
  intros Hm mrs. subst mrs. unfold rne. destruct k as [|k].
  - change (Nat.iter 0 shr_1 ?x) with x.
    cbn [Z.of_nat shr_record_of_loc shr_m loc_of_shr_record round_nearest_even].
    rewrite Z.pow_0_r, Z.div_1_r, Z.mod_1_r. reflexivity.
  - cbn [shr_record_of_loc]. rewrite iter_shr_1_spec by done.
    cbn [shr_m loc_of_shr_record orb]. rewrite mod_pow2_succ.
    assert (0 < 2 ^ Z.of_nat k) as Hpk by (apply Z.pow_pos_nonneg; lia).
    pose proof (Z.mod_pos_bound m (2 ^ Z.of_nat k) Hpk) as Hrem.
    assert (2 ^ Z.of_nat (S k) = 2 * 2 ^ Z.of_nat k) as Hp
      by (rewrite (Nat2Z.inj_succ k), Z.pow_succ_r by lia; done).
    rewrite Hp.
    destruct (Z.testbit m (Z.of_nat k)); cbn [Z.b2z];
      destruct (Z.eqb_spec (m mod 2 ^ Z.of_nat k) 0) as [Hz|Hz];
      cbn [negb loc_of_shr_record round_nearest_even]; decide_tests; reflexivity.
Qed.

Lemma rne_bounds (m k : Z) : m / 2 ^ k <= rne m k <= m / 2 ^ k + 1.
Proof.
  unfold rne. destruct (_ <? _); [lia|]. destruct (_ =? _); [|lia].
  destruct (Z.even _); lia.
Qed.

Lemma rne_exact (m k : Z) : 0 <= k -> rne (m * 2 ^ k) k = m.
Proof.
  intros Hk. assert (0 < 2 ^ k) as Hpk by (by apply Z.pow_pos_nonneg).
  unfold rne. rewrite Z.mod_mul, Z.div_mul by lia.
  by rewrite (proj2 (Z.ltb_lt (2 * 0) (2 ^ k))) by lia.
Qed.

Lemma rne_mono (m1 m2 k : Z) : 0 <= k -> m1 <= m2 -> rne m1 k <= rne m2 k.
Proof.
  intros Hk Hle. assert (0 < 2 ^ k) as Hpk by (by apply Z.pow_pos_nonneg).
  pose proof (Z.div_le_mono m1 m2 (2 ^ k) Hpk Hle) as Hq.
  destruct (Z.eq_dec (m1 / 2 ^ k) (m2 / 2 ^ k)) as [Heq|Hne].
  - assert (m1 mod 2 ^ k <= m2 mod 2 ^ k) as Hrem.
    { rewrite !Z.mod_eq by lia. rewrite Heq. lia. }
    unfold rne. rewrite Heq.
    destruct (Z.ltb_spec (2 * (m1 mod 2 ^ k)) (2 ^ k));
      destruct (Z.ltb_spec (2 * (m2 mod 2 ^ k)) (2 ^ k));
      destruct (Z.eqb_spec (2 * (m1 mod 2 ^ k)) (2 ^ k));
      destruct (Z.eqb_spec (2 * (m2 mod 2 ^ k)) (2 ^ k));
      destruct (Z.even (m2 / 2 ^ k)); lia.
  - pose proof (rne_bounds m1 k). pose proof (rne_bounds m2 k). lia.
Qed.

(** ** Rounding to binary64 *)

(** [binary_round_aux] on a non-negative mantissa, step by step: a shift to
    the exponent of the result, the rounding, and one more shift when the
    rounding carried into a new bit. *)
Lemma binary_round_aux_eq (mx ex : Z) (lx : location) :
  0 <= mx ->
  let k1 := Z.max 0 (fexp prec emax (Zdigits2 mx + ex) - ex) in
  let e1 := ex + k1 in
  let mrs := Nat.iter (Z.to_nat k1) shr_1 (shr_record_of_loc mx lx) in
  let mr := round_nearest_even (shr_m mrs) (loc_of_shr_record mrs) in
  let k2 := Z.max 0 (fexp prec emax (Zdigits2 mr + e1) - e1) in
  let e2 := e1 + k2 in
  binary_round_aux prec emax false mx ex lx
  = match mr / 2 ^ k2 with
    | Z0 => S754_zero false
    | Zpos m => if e2 <=? emax - prec then S754_finite false m e2
                else S754_infinity false
    | Zneg _ => S754_nan
    end.
Proof.
  intros Hmx k1 e1 mrs mr k2 e2.
  unfold binary_round_aux, shr_fexp. rewrite shr_eq.
  replace (Z.to_nat (fexp prec emax (Zdigits2 mx + ex) - ex)) with (Z.to_nat k1)
    by (unfold k1; lia).
  fold mrs. fold mr. fold k1. fold e1. rewrite shr_eq.
  replace (Z.to_nat (fexp prec emax (Zdigits2 mr + e1) - e1)) with (Z.to_nat k2)
    by (unfold k2; lia).
  fold k2. fold e2.
  assert (0 <= mr) as Hmr.
  { destruct (round_shr_bounds mx lx (Z.to_nat k1) Hmx) as (_ & Hb & _).
    fold mrs in Hb. fold mr in Hb.
    assert (0 <= mx / 2 ^ Z.of_nat (Z.to_nat k1))
      by (apply Z.div_pos; [done|apply Z.pow_pos_nonneg; lia]).
    lia. }
  destruct (round_shr_bounds mr loc_Exact (Z.to_nat k2) Hmr) as (-> & _).
  replace (Z.of_nat (Z.to_nat k2)) with k2 by (unfold k2; lia).
  reflexivity.
Qed.

Lemma bounded_iff (m : positive) (e : Z) :
  bounded prec emax m e = true
  <-> fexp prec emax (Zdigits2 (Z.pos m) + e) = e /\ e <= 971.
Proof.
  unfold bounded, canonical_mantissa. rewrite andb_true_iff, Z.eqb_eq, Z.leb_le.
  reflexivity.
Qed.

(** Rounding never passes a representable bound: if the value
    [(mx + loc) * 2 ^ ex] being rounded is at most the canonical number
    [mc * 2 ^ ec], so is the result. *)
Lemma round_aux_le (mx ex : Z) (lx : location) (mc ec : Z) :
  0 <= mx ->
  ex <= fexp prec emax (Zdigits2 mx + ex) ->
  0 < mc ->
  fexp prec emax (Zdigits2 mc + ec) = ec ->
  ec <= 971 ->
  ex <= ec ->
  mx < mc * 2 ^ (ec - ex) \/ (mx = mc * 2 ^ (ec - ex) /\ lx = loc_Exact) ->
  le_float_pos (binary_round_aux prec emax false mx ex lx) mc ec.
Proof.
  intros Hmx Hex Hmc Hcan Hec Hle Hbound.
  rewrite binary_round_aux_eq by done.
  set (e1 := fexp prec emax (Zdigits2 mx + ex)) in *.
  assert (e1 = Z.max (Zdigits2 mx + ex - 53) (-1074)) as He1def by reflexivity.
  clearbody e1.
  replace (Z.max 0 (e1 - ex)) with (e1 - ex) by lia.
  replace (ex + (e1 - ex)) with e1 by lia.
  set (k1 := e1 - ex) in *.
  assert (k1 = e1 - ex) as Hk1def by reflexivity. clearbody k1.
  assert (0 <= k1) as Hk1 by lia.
  destruct (round_shr_bounds mx lx (Z.to_nat k1) Hmx) as (_ & Hmr & Hexact).
  rewrite Z2Nat.id in Hmr, Hexact by done.
  set (mr := round_nearest_even _ _) in *. clearbody mr.
  set (q1 := mx / 2 ^ k1) in *.
  assert (q1 = mx / 2 ^ k1) as Hq1def by reflexivity. clearbody q1.
  assert (0 < 2 ^ k1) as Hpk1 by (by apply Z.pow_pos_nonneg).
  assert (0 < 2 ^ (ec - ex)) as Hpce by (apply Z.pow_pos_nonneg; lia).
  (* the exponent of the result is at most that of the bound *)
  assert (e1 <= ec) as He1.
  { assert (Zdigits2 mx <= Zdigits2 mc + (ec - ex)) as Hd.
    { rewrite <- digits_mul_pow by lia. apply digits_le. lia. }
    rewrite fexp64_eq in *. lia. }
  set (K := mc * 2 ^ (ec - e1)).
  assert (K = mc * 2 ^ (ec - e1)) as HKdef by reflexivity. clearbody K.
  assert (mc * 2 ^ (ec - ex) = K * 2 ^ k1) as HK.
  { rewrite HKdef, Hk1def, <- Z.mul_assoc, <- Z.pow_add_r by lia.
    do 2 f_equal. lia. }
  assert (0 < 2 ^ (ec - e1)) as Hpc1 by (apply Z.pow_pos_nonneg; lia).
  assert (0 <= q1) as Hq1 by (rewrite Hq1def; apply Z.div_pos; lia).
  assert (q1 <= K) as Hq1K.
  { rewrite Hq1def. apply Z.div_le_upper_bound; [done|]. lia. }
  assert (mr <= K) as HmrK.
  { destruct (Z.eq_dec q1 K) as [Heq|Hne]; [|lia].
    assert (K * 2 ^ k1 <= mx) as Hge.
    { rewrite <- Heq, Hq1def, Z.mul_comm. by apply Z.mul_div_le. }
    destruct Hbound as [Hlt|[Heq' Hl]]; [lia|].
    rewrite Hexact; [lia|done|]. rewrite Heq', HK. by apply Z.mod_mul, Z.neq_sym, Z.lt_neq. }
  (* the magnitude after rounding *)
  destruct (Z.eq_dec mr 0) as [Hmr0|Hmr0].
  { left. rewrite Hmr0. by rewrite Z.div_0_l by (apply Z.pow_nonzero; lia). }
  assert (0 < mr) as Hmrpos by lia.
  destruct (digits_bounds mr Hmrpos) as [Hdr Hbr].
  assert (e1 <= fexp prec emax (Zdigits2 mr + e1) <= e1 + 1) as Hfexp.
  { destruct (Z.eq_dec q1 0) as [Hq0|Hq0].
    - assert (mr = 1) as -> by lia. cbn [Zdigits2 digits2_pos].
      assert (Zdigits2 mx <= k1) as Hd.
      { apply digits_lt_pow; [done|done|].
        destruct (Z.lt_ge_cases mx (2 ^ k1)) as [|Hge]; [done|].
        assert (1 <= q1) by (rewrite Hq1def; apply Z.div_le_lower_bound; lia). lia. }
      rewrite !fexp64_eq in *. lia.
    - assert (0 < q1) as Hq1pos by lia.
      assert (2 ^ k1 <= mx) as Hge.
      { destruct (Z.lt_ge_cases mx (2 ^ k1)) as [Hlt|]; [|done].
        rewrite Hq1def, Z.div_small in Hq0 by lia. done. }
      assert (0 < mx) as Hmxpos by lia.
      assert (k1 < Zdigits2 mx) as Hkd by (pose proof (digits_ge_pow mx k1); lia).
      assert (Zdigits2 q1 = Zdigits2 mx - k1) as Hdq
        by (rewrite Hq1def; by apply digits_div_pow).
      destruct (digits_bounds q1 Hq1pos) as [_ Hbq].
      assert (Zdigits2 q1 <= Zdigits2 mr) as Hd1 by (apply digits_le; lia).
      assert (Zdigits2 mr <= Zdigits2 q1 + 1) as Hd2.
      { apply digits_lt_pow; [lia|lia|]. rewrite Z.pow_add_r by lia. lia. }
      rewrite !fexp64_eq in *. lia. }
  set (e2r := fexp prec emax (Zdigits2 mr + e1)) in *.
  assert (e2r = Z.max (Zdigits2 mr + e1 - 53) (-1074)) as He2def by reflexivity.
  clearbody e2r.
  destruct (Z.eq_dec e2r e1) as [He2|He2].
  - (* no carry *)
    replace (Z.max 0 (e2r - e1)) with 0 by lia.
    rewrite Z.pow_0_r, Z.div_1_r, Z.add_0_r.
    destruct mr as [|m|m]; try lia.
    rewrite (proj2 (Z.leb_le e1 (emax - prec))) by (unfold emax, prec; lia).
    right. exists m, e1. split; [done|]. split; [|lia].
    apply bounded_iff. rewrite fexp64_eq. lia.
  - (* the rounding carried: one more shift *)
    assert (e2r = e1 + 1) as He2' by lia.
    replace (Z.max 0 (e2r - e1)) with 1 by lia.
    assert (Zdigits2 mr = 54) as Hd54 by lia.
    assert (e1 + 1 <= ec) as He1ec.
    { destruct (Z.eq_dec e1 ec) as [Heq|]; [|lia].
      assert (Zdigits2 mr <= Zdigits2 mc) as Hd.
      { apply digits_le. rewrite HKdef, Heq, Z.sub_diag, Z.pow_0_r in HmrK.
        lia. }
      rewrite fexp64_eq in Hcan. lia. }
    rewrite Z.pow_1_r.
    assert (Zdigits2 (mr / 2) = 53) as Hd53.
    { pose proof (digits_div_pow mr 1 Hmrpos) as Hdd.
      rewrite Z.pow_1_r in Hdd. lia. }
    assert (mr / 2 <= mc * 2 ^ (ec - (e1 + 1))) as Hm2.
    { apply Z.div_le_upper_bound; [lia|].
      replace (2 * (mc * 2 ^ (ec - (e1 + 1)))) with (mc * 2 ^ Z.succ (ec - (e1 + 1)))
        by (rewrite Z.pow_succ_r by lia; lia).
      replace (Z.succ (ec - (e1 + 1))) with (ec - e1) by lia. lia. }
    assert (0 <= mr / 2) as Hhalf by (apply Z.div_pos; lia).
    destruct (mr / 2) as [|m|m] eqn:Hm; [discriminate Hd53| |lia].
    rewrite (proj2 (Z.leb_le (e1 + 1) (emax - prec))) by (unfold emax, prec; lia).
    right. exists m, (e1 + 1). split; [done|]. split; [|lia].
    apply bounded_iff. rewrite Hd53, fexp64_eq. lia.
Qed.

Lemma le_float_pos_leb (r : float64) (mc : positive) (ec : Z) :
  le_float_pos r (Z.pos mc) ec ->
  float_le (S754_zero false) r = true
  /\ float_le r (S754_finite false mc ec) = true.
Proof.
  intros [-> | (m & e & -> & _ & He & Hm)]; [done|].
  split; [done|]. unfold float_le, SFleb, SFcompare.
  destruct (Z.compare_spec e ec) as [Heq|Hlt|Hgt]; [|done|lia].
  subst e. rewrite Z.sub_diag, Z.pow_0_r, Z.mul_1_r in Hm.
  rewrite Pos.compare_cont_spec. cbn [Pos.switch_Eq].
  destruct (Pos.compare_spec m mc); (done || lia).
Qed.

Lemma new_location_0 (nb : Z) : new_location nb 0 = loc_Exact.
Proof. unfold new_location. by destruct (Z.even nb). Qed.

(** ** Division of a positive number by a larger one *)

Lemma float_div_le_one (ma : positive) (ea : Z) (mb : positive) (eb : Z) :
  bounded prec emax ma ea = true ->
  bounded prec emax mb eb = true ->
  ea <= eb ->
  Z.pos ma <= Z.pos mb * 2 ^ (eb - ea) ->
  le_float_pos (float_div (S754_finite false ma ea) (S754_finite false mb eb))
               (2 ^ 52) (-52).
Proof.
  intros Ha Hb Hle Hm. apply bounded_iff in Ha as [Hca Hea].
  apply bounded_iff in Hb as [Hcb Heb].
  unfold float_div, SFdiv, SFdiv_core_binary.
  set (d1 := Zdigits2 (Z.pos ma)) in *. set (d2 := Zdigits2 (Z.pos mb)) in *.
  destruct (digits_bounds (Z.pos ma)) as [Hd1 Hb1]; [lia|]. fold d1 in Hd1, Hb1.
  destruct (digits_bounds (Z.pos mb)) as [Hd2 Hb2]; [lia|]. fold d2 in Hd2, Hb2.
  assert (0 < 2 ^ (eb - ea)) as Hpt by (apply Z.pow_pos_nonneg; lia).
  assert (d1 <= d2 + (eb - ea)) as Hd12.
  { unfold d1, d2. rewrite <- digits_mul_pow by lia. apply digits_le. lia. }
  set (e' := Z.min (fexp prec emax (d1 + ea - (d2 + eb))) (ea - eb)).
  assert (e' = Z.min (Z.max (d1 + ea - (d2 + eb) - 53) (-1074)) (ea - eb)) as He'
    by reflexivity.
  clearbody e'.
  set (s := ea - eb - e'). assert (s = ea - eb - e') as Hs by reflexivity.
  clearbody s. assert (0 <= s) as Hs0 by lia.
  assert (0 < 2 ^ s) as Hps by (by apply Z.pow_pos_nonneg).
  assert (match s with
          | 0 => Z.pos ma
          | Z.pos _ => Z.shiftl (Z.pos ma) s
          | Z.neg _ => 0
          end = Z.pos ma * 2 ^ s) as ->.
  { destruct s as [|p|p]; [lia| |lia]. by rewrite Z.shiftl_mul_pow2. }
  set (m' := Z.pos ma * 2 ^ s). assert (m' = Z.pos ma * 2 ^ s) as Hm' by reflexivity.
  clearbody m'.
  pose proof (Z.div_eucl_eq m' (Z.pos mb) ltac:(lia)) as Heucl.
  pose proof (Z.mod_pos_bound m' (Z.pos mb) ltac:(lia)) as Hrem.
  unfold Z.modulo in Hrem.
  destruct (Z.div_eucl m' (Z.pos mb)) as [q r]. cbn [xorb].
  assert (0 < 2 ^ (- e')) as Hpe by (apply Z.pow_pos_nonneg; lia).
  assert (m' <= Z.pos mb * 2 ^ (- e')) as Hm'b.
  { replace (- e') with (eb - ea + s) by lia. rewrite Z.pow_add_r by lia. nia. }
  assert (0 <= q) as Hq0 by nia.
  assert (q <= 2 ^ (- e')) as Hq by nia.
  apply round_aux_le; try lia.
  - assert (d1 + s - d2 <= Zdigits2 q) as Hdq.
    { destruct (Z.le_gt_cases (d1 + s - d2) 0) as [Hsmall|Hbig].
      - pose proof (digits_nonneg q Hq0). lia.
      - pose proof (digits_ge_pow q (d1 + s - d2 - 1) ltac:(lia)) as Hge.
        assert (2 ^ (d1 + s - d2 - 1) <= q); [|lia].
        assert (2 ^ (d1 + s - d2 - 1) * 2 ^ d2 <= m') as Hlow.
        { rewrite <- Z.pow_add_r by lia.
          replace (d1 + s - d2 - 1 + d2) with (d1 - 1 + s) by lia.
          rewrite Z.pow_add_r by lia. nia. }
        assert (0 < 2 ^ (d1 + s - d2 - 1)) by (apply Z.pow_pos_nonneg; lia).
        nia. }
    rewrite fexp64_eq. lia.
  - reflexivity.
  - replace (2 ^ 52 * 2 ^ (-52 - e')) with (2 ^ (- e'))
      by (rewrite <- Z.pow_add_r by lia; f_equal; lia).
    destruct (Z.eq_dec q (2 ^ (- e'))) as [Heq|Hne]; [right|left; lia].
    split; [done|]. assert (r = 0) as -> by nia. apply new_location_0.
Qed.

(** ** Multiplication of a number in [0, 1] by one hundred *)

Lemma float_of_int_100 : float_of_int 100 = float_100.
Proof. vm_compute. reflexivity. Qed.

Lemma float_mul_100_le (mq : positive) (eq : Z) :
  bounded prec emax mq eq = true ->
  eq <= -52 ->
  Z.pos mq <= 2 ^ 52 * 2 ^ (-52 - eq) ->
  le_float_pos (float_mul (S754_finite false mq eq) float_100)
               7036874417766400 (-46).
Proof.
  intros Hb He Hm. apply bounded_iff in Hb as [Hc _].
  unfold float_mul, float_100, SFmul. cbn [xorb]. rewrite Pos2Z.inj_mul.
  assert (0 < 2 ^ (- eq)) as Hpe by (apply Z.pow_pos_nonneg; lia).
  assert (Z.pos mq <= 2 ^ (- eq)) as Hm'.
  { replace (- eq) with (52 + (-52 - eq)) by lia. by rewrite Z.pow_add_r by lia. }
  apply round_aux_le; try lia.
  - assert (Zdigits2 (Z.pos mq) + 52 <= Zdigits2 (Z.pos mq * 7036874417766400)) as Hd.
    { rewrite <- digits_mul_pow by lia. apply digits_le.
      change (2 ^ 52) with 4503599627370496. lia. }
    rewrite fexp64_eq in *. lia.
  - reflexivity.
  - replace (-46 - (eq + -46)) with (- eq) by lia.
    destruct (Z.eq_dec (Z.pos mq) (2 ^ (- eq))) as [Heq|Hne]; [right|left; nia].
    split; [|done]. rewrite Heq. lia.
Qed.

(** ** Conversion of an integer to binary64 *)

(** Rounding an exactly known value whose leading bit survives the shift:
    the result is the canonical number of value [rne mx k * 2 ^ e1]. *)
Lemma round_aux_exact (mx ex : Z) :
  0 < mx ->
  let e1 := fexp prec emax (Zdigits2 mx + ex) in
  ex <= e1 ->
  e1 - ex < Zdigits2 mx ->
  e1 + 1 <= 971 ->
  exists m e,
    binary_round_aux prec emax false mx ex loc_Exact = S754_finite false m e
    /\ bounded prec emax m e = true
    /\ e1 <= e
    /\ Z.pos m * 2 ^ (e - e1) = rne mx (e1 - ex).
Proof.
  intros Hmx e1 Hex Hk Hmax.
  rewrite binary_round_aux_eq by lia. fold e1.
  assert (e1 = Z.max (Zdigits2 mx + ex - 53) (-1074)) as He1def by reflexivity.
  clearbody e1.
  replace (Z.max 0 (e1 - ex)) with (e1 - ex) by lia.
  replace (ex + (e1 - ex)) with e1 by lia.
  pose proof (round_shr_exact mx (Z.to_nat (e1 - ex)) ltac:(lia)) as Hrne.
  cbv zeta in Hrne. rewrite Z2Nat.id in Hrne by lia. rewrite Hrne. clear Hrne.
  set (k1 := e1 - ex) in *. assert (k1 = e1 - ex) as Hk1def by reflexivity.
  clearbody k1.
  pose proof (rne_bounds mx k1) as Hmr.
  set (mr := rne mx k1) in *. clearbody mr.
  assert (0 < 2 ^ k1) as Hpk1 by (apply Z.pow_pos_nonneg; lia).
  assert (Zdigits2 (mx / 2 ^ k1) = Zdigits2 mx - k1) as Hdq
    by (apply digits_div_pow; lia).
  assert (0 <= mx / 2 ^ k1) as Hq0 by (apply Z.div_pos; lia).
  set (q1 := mx / 2 ^ k1) in *. clearbody q1.
  assert (0 < q1) as Hq1.
  { destruct (Z.eq_dec q1 0) as [->|]; [|lia]. cbn in Hdq. lia. }
  destruct (digits_bounds q1 Hq1) as [_ Hbq].
  assert (0 < mr) as Hmrpos by lia.
  destruct (digits_bounds mr Hmrpos) as [_ Hbr].
  assert (Zdigits2 q1 <= Zdigits2 mr) as Hd1 by (apply digits_le; lia).
  assert (Zdigits2 mr <= Zdigits2 q1 + 1) as Hd2.
  { apply digits_lt_pow; [lia|lia|]. rewrite Z.pow_add_r by lia. lia. }
  set (e2r := fexp prec emax (Zdigits2 mr + e1)) in *.
  assert (e2r = Z.max (Zdigits2 mr + e1 - 53) (-1074)) as He2def by reflexivity.
  clearbody e2r.
  destruct (Z.eq_dec e2r e1) as [He2|He2].
  - replace (Z.max 0 (e2r - e1)) with 0 by lia.
    rewrite Z.pow_0_r, Z.div_1_r, Z.add_0_r.
    destruct mr as [|m|m]; try lia.
    rewrite (proj2 (Z.leb_le e1 (emax - prec))) by (unfold emax, prec; lia).
    exists m, e1. split; [done|]. split; [|split; [lia|]].
    + apply bounded_iff. rewrite fexp64_eq. lia.
    + rewrite Z.sub_diag, Z.pow_0_r. lia.
  - assert (e2r = e1 + 1) as He2' by lia.
    replace (Z.max 0 (e2r - e1)) with 1 by lia. rewrite Z.pow_1_r.
    assert (Zdigits2 q1 = 53 /\ Zdigits2 mr = 54) as [Hq53 Hr54] by lia.
    assert (mr = 2 ^ 53) as ->.
    { rewrite Hq53 in Hbq. rewrite Hr54 in Hbr.
      change (2 ^ (54 - 1)) with (2 ^ 53) in Hbr. lia. }
    change (2 ^ 53 / 2) with (Z.pos 4503599627370496).
    rewrite (proj2 (Z.leb_le (e1 + 1) (emax - prec))) by (unfold emax, prec; lia).
    exists 4503599627370496%positive, (e1 + 1). split; [done|].
    split; [|split; [lia|]].
    + apply bounded_iff. cbn [Zdigits2 digits2_pos Pos.succ].
      rewrite fexp64_eq. lia.
    + replace (e1 + 1 - e1) with 1 by lia. reflexivity.
Qed.

Lemma pos_iter_xO (p d : positive) :
  Z.pos (Pos.iter xO p d) = Z.pos p * 2 ^ Z.pos d.
Proof.
  induction d as [|d IH] using Pos.peano_ind.
  - cbn [Pos.iter]. rewrite Pos2Z.inj_xO, Z.pow_1_r. lia.
  - rewrite Pos.iter_succ, Pos2Z.inj_xO, IH, Pos2Z.inj_succ, Z.pow_succ_r by lia.
    lia.
Qed.

(** The mantissa and exponent [binary_round] hands to the rounding: the
    integer itself, or the integer shifted left to 53 bits. *)
Lemma float_of_int_pos (p : positive) :
  exists mz ez,
    float_of_int (Z.pos p) = binary_round_aux prec emax false mz ez loc_Exact
    /\ ez = Z.min 0 (Zdigits2 (Z.pos p) - 53)
    /\ mz = Z.pos p * 2 ^ (- ez).
Proof.
  unfold float_of_int, binary_normalize, binary_round, shl_align.
  change (Z.pos (digits2_pos p)) with (Zdigits2 (Z.pos p)).
  destruct (digits_bounds (Z.pos p)) as [Hd _]; [lia|].
  rewrite fexp64_eq, Z.add_0_r, Z.sub_0_r.
  set (d := Zdigits2 (Z.pos p)) in *. clearbody d.
  replace (Z.max (d - 53) (-1074)) with (d - 53) by lia.
  destruct (d - 53) as [|k|k] eqn:Hk.
  - exists (Z.pos p), 0. split; [done|]. split; [lia|]. cbn. lia.
  - exists (Z.pos p), 0. split; [done|]. split; [lia|]. cbn. lia.
  - exists (Z.pos (Pos.iter xO p k)), (Z.neg k). split; [done|]. split; [lia|].
    rewrite pos_iter_xO. reflexivity.
Qed.

Lemma int_mantissa_bounds (p : Z) :
  0 < p -> 2 ^ 52 <= int_mantissa p <= 2 ^ 53.
Proof.
  intros Hp. unfold int_mantissa.
  destruct (digits_bounds p Hp) as [Hd _].
  set (d := Zdigits2 p) in *. assert (d = Zdigits2 p) as Hddef by reflexivity.
  clearbody d.
  set (ez := Z.min 0 (d - 53)) in *.
  assert (ez = Z.min 0 (d - 53)) as Hez by reflexivity. clearbody ez.
  assert (0 < 2 ^ (- ez)) as Hpe by (apply Z.pow_pos_nonneg; lia).
  assert (0 < 2 ^ (d - 53 - ez)) as Hpk by (apply Z.pow_pos_nonneg; lia).
  pose proof (rne_bounds (p * 2 ^ (- ez)) (d - 53 - ez)) as Hb.
  assert (Zdigits2 (p * 2 ^ (- ez) / 2 ^ (d - 53 - ez)) = 53) as Hq.
  { rewrite digits_div_pow; rewrite ?digits_mul_pow; lia. }
  set (q := p * 2 ^ (- ez) / 2 ^ (d - 53 - ez)) in *.
  assert (0 <= q) as Hq0 by (apply Z.div_pos; lia). clearbody q.
  assert (0 < q) as Hqpos by (destruct (Z.eq_dec q 0) as [->|]; [discriminate Hq|lia]).
  destruct (digits_bounds q Hqpos) as [_ Hbq]. rewrite Hq in Hbq.
  change (2 ^ (53 - 1)) with (2 ^ 52) in Hbq. lia.
Qed.

Lemma int_mantissa_mono (v a : Z) :
  0 < v <= a -> Zdigits2 v = Zdigits2 a -> int_mantissa v <= int_mantissa a.
Proof.
  intros Hva Hd. unfold int_mantissa. rewrite Hd.
  destruct (digits_bounds a) as [Hda _]; [lia|].
  apply rne_mono; [lia|].
  apply Z.mul_le_mono_nonneg_r; [|lia]. apply Z.pow_nonneg. lia.
Qed.

Lemma float_of_int_value (p : positive) :
  Zdigits2 (Z.pos p) <= 1023 ->
  exists m e,
    float_of_int (Z.pos p) = S754_finite false m e
    /\ bounded prec emax m e = true
    /\ Zdigits2 (Z.pos p) - 53 <= e
    /\ Z.pos m * 2 ^ (e - (Zdigits2 (Z.pos p) - 53)) = int_mantissa (Z.pos p).
Proof.
  intros Hd. destruct (float_of_int_pos p) as (mz & ez & -> & Hez & Hmz).
  destruct (digits_bounds (Z.pos p)) as [Hdpos _]; [lia|].
  assert (0 < 2 ^ (- ez)) as Hpe by (apply Z.pow_pos_nonneg; lia).
  assert (Zdigits2 mz = Zdigits2 (Z.pos p) - ez) as Hdz
    by (rewrite Hmz, digits_mul_pow; lia).
  assert (fexp prec emax (Zdigits2 mz + ez) = Zdigits2 (Z.pos p) - 53) as He1
    by (rewrite fexp64_eq; lia).
  destruct (round_aux_exact mz ez) as (m & e & Hr & Hb & He & Hv);
    rewrite ?He1; try lia.
  exists m, e. rewrite He1 in He, Hv. split; [done|]. split; [done|].
  split; [done|]. rewrite Hv. unfold int_mantissa. rewrite <- Hez, <- Hmz. done.
Qed.

(** Canonical numbers are ordered by exponent first. *)
Lemma canonical_le (m1 : positive) (e1 : Z) (m2 : positive) (e2 E : Z) :
  bounded prec emax m1 e1 = true ->
  bounded prec emax m2 e2 = true ->
  E <= e1 -> E <= e2 ->
  Z.pos m1 * 2 ^ (e1 - E) <= Z.pos m2 * 2 ^ (e2 - E) ->
  e1 <= e2 /\ Z.pos m1 <= Z.pos m2 * 2 ^ (e2 - e1).
Proof.
  intros H1 H2 HE1 HE2 Hle.
  apply bounded_iff in H1 as [Hc1 _]. apply bounded_iff in H2 as [Hc2 _].
  assert (0 < 2 ^ (e1 - E)) as Hp1 by (apply Z.pow_pos_nonneg; lia).
  assert (Zdigits2 (Z.pos m1) + (e1 - E) <= Zdigits2 (Z.pos m2) + (e2 - E)) as Hd.
  { rewrite <- !digits_mul_pow by lia. apply digits_le. lia. }
  assert (e1 <= e2) as He by (rewrite fexp64_eq in *; lia).
  split; [done|].
  replace (e2 - E) with (e2 - e1 + (e1 - E)) in Hle by lia.
  rewrite Z.pow_add_r, Z.mul_assoc in Hle by lia.
  by apply Z.mul_le_mono_pos_r in Hle.
Qed.

(** Conversion is monotone. *)
Lemma float_of_int_mono (v a : positive) :
  (v <= a)%positive ->
  Zdigits2 (Z.pos a) <= 1023 ->
  exists mv ev ma ea,
    float_of_int (Z.pos v) = S754_finite false mv ev
    /\ float_of_int (Z.pos a) = S754_finite false ma ea
    /\ bounded prec emax mv ev = true
    /\ bounded prec emax ma ea = true
    /\ ev <= ea
    /\ Z.pos mv <= Z.pos ma * 2 ^ (ea - ev).
Proof.
  intros Hva Hda.
  assert (Zdigits2 (Z.pos v) <= Zdigits2 (Z.pos a)) as Hdva by (apply digits_le; lia).
  destruct (float_of_int_value v) as (mv & ev & Hfv & Hbv & Hev & Hvv); [lia|].
  destruct (float_of_int_value a) as (ma & ea & Hfa & Hba & Hea & Hvb); [lia|].
  exists mv, ev, ma, ea. do 4 (split; [done|]).
  pose proof (int_mantissa_bounds (Z.pos v) ltac:(lia)) as Hnv.
  pose proof (int_mantissa_bounds (Z.pos a) ltac:(lia)) as Hna.
  set (dv := Zdigits2 (Z.pos v)) in *. set (da := Zdigits2 (Z.pos a)) in *.
  apply (canonical_le mv ev ma ea (dv - 53)); try done; try lia.
  rewrite Hvv.
  replace (ea - (dv - 53)) with (ea - (da - 53) + (da - dv)) by lia.
  rewrite Z.pow_add_r, Z.mul_assoc, Hvb by lia.
  destruct (Z.eq_dec dv da) as [Heq|Hne].
  - rewrite Heq, Z.sub_diag, Z.pow_0_r, Z.mul_1_r.
    apply int_mantissa_mono; [lia|done].
  - assert (2 ^ 1 <= 2 ^ (da - dv)) as Hp by (apply Z.pow_le_mono_r; lia).
    change (2 ^ 53) with (2 ^ 52 * 2 ^ 1) in Hnv. nia.
Qed.

(** ** The occupancy lies between 0 and 100 *)

Lemma float_mul_zero_100 : float_mul (S754_zero false) float_100 = S754_zero false.
Proof. reflexivity. Qed.

Lemma occupancy_percent_bounds (v a : Z) :
  0 <= v <= a -> 1 <= a -> a < 2 ^ 63 ->
  float_le (float_of_int 0)
           (float_mul (float_div (float_of_int v) (float_of_int a)) (float_of_int 100))
  = true
  /\ float_le (float_mul (float_div (float_of_int v) (float_of_int a))
                         (float_of_int 100))
              (float_of_int 100)
     = true.
Proof.
  intros Hv Ha Hsz. rewrite float_of_int_100.
  change (float_of_int 0) with (S754_zero false).
  destruct a as [|pa|pa]; try lia.
  assert (Zdigits2 (Z.pos pa) <= 1023) as Hda
    by (pose proof (digits_lt_pow (Z.pos pa) 63); lia).
  assert (le_float_pos (float_div (float_of_int v) (float_of_int (Z.pos pa)))
                       (2 ^ 52) (-52)) as Hq.
  { destruct v as [|pv|pv]; try lia.
    - destruct (float_of_int_value pa Hda) as (ma & ea & -> & _). by left.
    - destruct (float_of_int_mono pv pa) as (mv & ev & ma & ea & -> & -> & Hbv & Hba & He & Hm);
        [lia|done|].
      by apply float_div_le_one. }
  apply le_float_pos_leb.
  destruct Hq as [-> | (mq & eq & -> & Hb & He & Hm)].
  - rewrite float_mul_zero_100. by left.
  - by apply float_mul_100_le.
Qed.

Example example_ticked_history : live_history example_ticked = [3].
Proof. reflexivity. Qed.

(** [C10] In every state the program can reach, every count recorded in
    [live_history] lies in [[0, grid_size * grid_size]]; and when the grid
    has at least one cell ([grid_size >= 1], as the data model requires),
    every element of the occupancy series, computed in binary64, lies in
    [[0, 100]]. *)
Theorem history_and_occupancy_bounds (s : GameOfLife) :
  reachable s ->
  Forall (fun v => 0 <= v <= grid_size s * grid_size s) (live_history s)
  /\ (1 <= grid_size s ->
      Forall (fun o => float_le (float_of_int 0) o = true
                       /\ float_le o (float_of_int 100) = true)
             (occupancy (grid_size s) (live_history s))).
Proof.
  intros Hr. destruct (reachable_consistent s Hr) as (Hn & Hsz & _ & _ & Hh).
  split; [exact Hh|]. intros Hn1. unfold occupancy.
  apply Forall_fmap. eapply Forall_impl; [exact Hh|]. intros v Hv.
  cbv beta in Hv. unfold compose. rewrite Z.pow_2_r.
  apply occupancy_percent_bounds; [exact Hv|nia|lia].
Qed.

Lemma history_and_occupancy_bounds_witness :
  Forall (fun v => 0 <= v <= grid_size example_ticked * grid_size example_ticked)
         (live_history example_ticked)
  /\ (1 <= grid_size example_ticked ->
      Forall (fun o => float_le (float_of_int 0) o = true
                       /\ float_le o (float_of_int 100) = true)
             (occupancy (grid_size example_ticked) (live_history example_ticked))).
Proof.
  apply (history_and_occupancy_bounds example_ticked).
  exact example_ticked_reachable.
Defined.

Example occupancy_example_ticked :
  occupancy (grid_size example_ticked) (live_history example_ticked)
  = [S754_finite false 6755399441055744 (-49)].
Proof. vm_compute. reflexivity. Qed.

(** * Further properties of the window *)

(** ** What each handler does to a consistent state *)

Lemma handle_cases ev s s' :
  consistent s -> handle ev s = Ok s' ->
  exists g,
    arrays s !! grid s = Some g
    /\ ((ev = Timeout /\ s' = recorded (next_grid g) (shown (next_grid g) s))
        \/ (ev = ClearClicked
            /\ s' = recorded (np_fill g 0) (shown (np_fill g 0) (reset s)))
        \/ (exists draws r,
              ev = RandomizeClicked draws
              /\ random_grid draws (grid_size s) = Ok r
              /\ s' = recorded r (shown r (reset s)))
        \/ (exists e,
              ev = MousePress e /\ cell_size s <> 0
              /\ in_bounds (cell_x e s) (cell_y e s) (grid_size s)
              /\ s' = shown (toggled g (cell_y e s) (cell_x e s)) s)
        \/ (exists e,
              ev = MousePress e /\ cell_size s <> 0
              /\ ~ in_bounds (cell_x e s) (cell_y e s) (grid_size s)
              /\ s' = s)).
Proof.
  intros Hc Hev. pose proof Hc as (Hn & Hsz & Hgw & (g & Hg & Hshape & Hb) & Hh).
  exists g. split; [done|].
  destruct ev as [| |draws|e]; cbn in Hev.
  - rewrite (update_state_ok s g _ _ Hg Hgw Hshape) in Hev. injection Hev as <-.
    by left.
  - rewrite (clear_grid_ok s g Hg Hgw) in Hev. injection Hev as <-.
    right. by left.
  - destruct (randomize_grid_ok draws s g Hg Hgw Hn Hsz Hshape) as (r & Hr & Heq).
    rewrite Heq in Hev. injection Hev as <-.
    right. right. left. by exists draws, r.
  - destruct (decide (cell_size s = 0)) as [Hz|Hz].
    { unfold mousePressEvent in Hev. rewrite Hz in Hev. by cbn in Hev. }
    destruct (decide (in_bounds (cell_x e s) (cell_y e s) (grid_size s))) as [Hin|Hout].
    + rewrite (mousePressEvent_in e s g Hz Hin Hg Hgw Hshape) in Hev.
      injection Hev as <-. do 3 right. left. by exists e.
    + rewrite (mousePressEvent_out e s Hz Hout) in Hev. injection Hev as <-.
      do 4 right. by exists e.
Qed.

(** ** The generation counter *)




(** ** Exceptions *)

Lemma mousePressEvent_zero e s :
  cell_size s = 0 -> mousePressEvent e s = Raise ZeroDivisionError.
Proof. intros Hz. unfold mousePressEvent. by rewrite Hz. Qed.

(** [X2] In every reachable state every handler returns normally, with one
    exception: a mouse press on a window built with [cell_size = 0] raises
    [ZeroDivisionError]. No handler ever raises [IndexError], [ValueError]
    or [KeyError]: the bounds test of the mouse handler protects both
    indexings, and every assigned array has the shape of the grid. *)
Theorem handlers_raise_only_on_zero_cell_size (ev : event) (s : GameOfLife) :
  reachable s ->
  (exists s', handle ev s = Ok s')
  \/ (cell_size s = 0
      /\ (exists e, ev = MousePress e)
      /\ handle ev s = Raise ZeroDivisionError).
Proof.
  intros Hr. pose proof (reachable_consistent s Hr) as Hc.
  destruct ev as [| |draws|e]; try (left; by apply handle_succeeds).
  destruct (decide (cell_size s = 0)) as [Hz|Hz].
  - right. split; [done|]. split; [by exists e|]. by apply mousePressEvent_zero.
  - left. by apply handle_succeeds.
Qed.

Lemma handlers_raise_only_on_zero_cell_size_witness :
  (exists s', handle (MousePress press_inside) example_ticked = Ok s')
  \/ (cell_size example_ticked = 0
      /\ (exists e, MousePress press_inside = MousePress e)
      /\ handle (MousePress press_inside) example_ticked = Raise ZeroDivisionError).
Proof.
  apply (handlers_raise_only_on_zero_cell_size (MousePress press_inside) example_ticked).
  exact example_ticked_reachable.
Defined.

(** ** Patterns: the dead grid, the lonely cell, the block *)

Lemma update_state_next s g h w :
  arrays s !! grid s = Some g ->
  gw_grid (grid_widget s) = grid s ->
  has_shape h w g ->
  exists s',
    update_state s = Ok s'
    /\ arrays s' !! grid s' = Some (next_grid g)
    /\ live_history s' = live_history s ++ [np_sum (next_grid g)]
    /\ gw_grid (grid_widget s') = grid s'.
Proof.
  intros Hg Hgw Hshape. eexists. split; [by eapply update_state_ok|].
  unfold recorded, shown, next_grid. simpl_state.
  split; [apply lookup_insert_eq|]. done.
Qed.

Lemma constant_tab (c : Z) (g : ndarray Z) h w :
  has_shape h w g -> Forall (Forall (fun v => v = c)) g ->
  g = tab h w (fun _ _ => c).
Proof.
  intros Hshape Hd. rewrite <- (np_fill_shape g c h w Hshape).
  unfold np_fill, np_map. symmetry.
  rewrite <- (list_fmap_id g) at 2. apply list_fmap_ext. intros i row Hrow. cbn.
  pose proof (Forall_lookup_1 _ _ _ _ Hd Hrow) as Hr.
  rewrite <- (list_fmap_id row) at 2. apply list_fmap_ext. intros j v Hv. cbn.
  symmetry. exact (Forall_lookup_1 _ _ _ _ Hr Hv).
Qed.

Lemma tab_constant (c : Z) h w :
  Forall (Forall (fun v => v = c)) (tab h w (fun _ _ => c)).
Proof.
  unfold tab. apply Forall_fmap, Forall_forall. intros y _. cbn.
  apply Forall_fmap, Forall_forall. done.
Qed.

Lemma all_dead_tab (g : ndarray Z) h w :
  has_shape h w g -> all_dead g -> g = tab h w (fun _ _ => 0).
Proof.
  intros Hshape Hd. rewrite <- (np_fill_shape g 0 h w Hshape).
  unfold np_fill, np_map. symmetry.
  rewrite <- (list_fmap_id g) at 2. apply list_fmap_ext. intros i row Hrow. cbn.
  pose proof (Forall_lookup_1 _ _ _ _ Hd Hrow) as Hr.
  rewrite <- (list_fmap_id row) at 2. apply list_fmap_ext. intros j v Hv. cbn.
  symmetry. exact (Forall_lookup_1 _ _ _ _ Hr Hv).
Qed.

Lemma next_grid_dead h w :
  next_grid (tab h w (fun _ _ => 0)) = tab h w (fun _ _ => 0).
Proof.
  unfold next_grid. rewrite next_tab. apply tab_ext. intros y x _ _.
  unfold around. rewrite shifts_eq. reflexivity.
Qed.

Lemma np_sum_dead h w : np_sum (tab h w (fun _ _ => 0)) = 0.
Proof.
  rewrite <- (np_fill_shape (tab h w (fun _ _ => 0)) 0 h w (tab_shape _ _ _)).
  apply np_sum_fill_0.
Qed.

(** [X3] No spontaneous generation: on a grid of any shape without a live
    cell, [update_state] leaves the grid as it is and records the count 0. *)
Theorem dead_grid_stays_dead (s : GameOfLife) (g : ndarray Z) (h w : nat) :
  arrays s !! grid s = Some g ->
  gw_grid (grid_widget s) = grid s ->
  has_shape h w g ->
  all_dead g ->
  exists s',
    update_state s = Ok s'
    /\ arrays s' !! grid s' = Some g
    /\ live_history s' = live_history s ++ [0].
Proof.
  intros Hg Hgw Hshape Hd.
  destruct (update_state_next s g h w Hg Hgw Hshape) as (s' & Hs' & Hg' & Hh' & _).
  exists s'. split; [done|].
  rewrite (all_dead_tab g h w Hshape Hd) in Hg', Hh'.
  rewrite next_grid_dead in Hg', Hh'. rewrite np_sum_dead in Hh'.
  rewrite <- (all_dead_tab g h w Hshape Hd) in Hg'. done.
Qed.

Lemma dead_grid_stays_dead_witness :
  exists s',
    update_state dead_state = Ok s'
    /\ arrays s' !! grid s' = Some (tab 3 3 (fun _ _ => 0))
    /\ live_history s' = live_history dead_state ++ [0].
Proof.
  apply (dead_grid_stays_dead dead_state (tab 3 3 (fun _ _ => 0)) 3 3).
  - reflexivity.
  - reflexivity.
  - apply tab_shape.
  - apply tab_constant.
Defined.

Lemma single_cell_dies h w (cx cy : Z) :
  (2 <= h)%nat -> (2 <= w)%nat ->
  0 <= cx < Z.of_nat w -> 0 <= cy < Z.of_nat h ->
  next_grid (single_cell h w cx cy) = tab h w (fun _ _ => 0).
Proof.
  intros Hh Hw Hcx Hcy. unfold next_grid, single_cell. rewrite next_tab.
  apply tab_ext. intros y x Hy Hx. unfold around. rewrite shifts_eq.
  cbn [fmap list_fmap fst snd].
  rewrite !(mod_cases _ (Z.of_nat h)), !(mod_cases _ (Z.of_nat w)) by lia.
  split_tests; first [ exfalso; lia | vm_compute; reflexivity ].
Qed.

Lemma rel_pair c n z :
  3 <= n -> 0 <= c < n -> 0 <= z < n ->
  ((z =? c) || (z =? (c + 1) mod n)) = ((1 <=? rel c n z) && (rel c n z <=? 2)).
Proof.
  intros Hn Hc Hz. unfold rel.
  rewrite (mod_cases (z - c + 1)), (mod_cases (c + 1)) by lia.
  split_tests; reflexivity.
Qed.

Lemma block_rel_still (h w : nat) (v u : Z) :
  (3 <= h)%nat -> (3 <= w)%nat ->
  0 <= v < Z.of_nat h -> 0 <= u < Z.of_nat w ->
  bit (rule (block_rel v u) (sum64 (around block_rel h w v u))) = block_rel v u.
Proof.
  intros Hh Hw Hv Hu. unfold around. rewrite shifts_eq.
  cbn [fmap list_fmap fst snd].
  rewrite !(mod_cases _ (Z.of_nat h)), !(mod_cases _ (Z.of_nat w)) by lia.
  unfold block_rel.
  split_tests; first [ exfalso; lia | vm_compute; reflexivity ].
Qed.

Lemma block_still h w (cx cy : Z) :
  (3 <= h)%nat -> (3 <= w)%nat ->
  0 <= cx < Z.of_nat w -> 0 <= cy < Z.of_nat h ->
  next_grid (block h w cx cy) = block h w cx cy.
Proof.
  intros Hh Hw Hcx Hcy.
  assert (block h w cx cy
          = tab h w (fun y x =>
              block_rel (rel cy (Z.of_nat h) y) (rel cx (Z.of_nat w) x))) as ->.
  { apply tab_ext. intros y x Hy Hx. unfold block_rel.
    by rewrite (rel_pair cy (Z.of_nat h) y), (rel_pair cx (Z.of_nat w) x) by lia. }
  unfold next_grid. rewrite next_tab. apply tab_ext. intros y x Hy Hx.
  rewrite (around_rel block_rel).
  apply block_rel_still; try done; apply rel_range; lia.
Qed.

(** [X4] Loneliness: on a torus of at least two rows and two columns, a
    grid whose only live cell is [(cx, cy)] has no live cell after one
    [update_state], and the count 0 is recorded. *)
Theorem lonely_cell_dies (s : GameOfLife) (h w : nat) (cx cy : Z) :
  (2 <= h)%nat -> (2 <= w)%nat ->
  0 <= cx < Z.of_nat w -> 0 <= cy < Z.of_nat h ->
  arrays s !! grid s = Some (single_cell h w cx cy) ->
  gw_grid (grid_widget s) = grid s ->
  exists s' g',
    update_state s = Ok s'
    /\ arrays s' !! grid s' = Some g'
    /\ has_shape h w g'
    /\ all_dead g'
    /\ live_history s' = live_history s ++ [0].
Proof.
  intros Hh Hw Hcx Hcy Hg Hgw.
  destruct (update_state_next s _ h w Hg Hgw (tab_shape h w _))
    as (s' & Hs' & Hg' & Hh' & _).
  rewrite single_cell_dies in Hg', Hh' by done. rewrite np_sum_dead in Hh'.
  exists s', (tab h w (fun _ _ => 0)). split_and!; try done.
  - apply tab_shape.
  - unfold all_dead, tab. apply Forall_fmap, Forall_forall. intros y _. cbn.
    apply Forall_fmap, Forall_forall. done.
Qed.

Lemma lonely_cell_dies_witness :
  exists s' g',
    update_state lonely_state = Ok s'
    /\ arrays s' !! grid s' = Some g'
    /\ has_shape 5 5 g'
    /\ all_dead g'
    /\ live_history s' = live_history lonely_state ++ [0].
Proof.
  apply (lonely_cell_dies lonely_state 5 5 2 1); try lia; reflexivity.
Defined.

(** On a torus of a single row the live cell is its own neighbour above and
    below: it survives, and its two neighbours are born. *)
Example single_cell_on_one_row : next_grid [[0; 1; 0]] = [[1; 1; 1]].
Proof. vm_compute. reflexivity. Qed.

(** [X5] The 2 x 2 block is a still life: on every torus of at least three
    rows and three columns, and wherever the block lies (also across the
    edges), [update_state] leaves the grid exactly as it is. *)
Theorem block_is_still_life (s : GameOfLife) (h w : nat) (cx cy : Z) :
  (3 <= h)%nat -> (3 <= w)%nat ->
  0 <= cx < Z.of_nat w -> 0 <= cy < Z.of_nat h ->
  arrays s !! grid s = Some (block h w cx cy) ->
  gw_grid (grid_widget s) = grid s ->
  exists s',
    update_state s = Ok s'
    /\ arrays s' !! grid s' = Some (block h w cx cy)
    /\ live_history s' = live_history s ++ [np_sum (block h w cx cy)].
Proof.
  intros Hh Hw Hcx Hcy Hg Hgw.
  destruct (update_state_next s _ h w Hg Hgw (tab_shape h w _))
    as (s' & Hs' & Hg' & Hh' & _).
  rewrite block_still in Hg', Hh' by done. by exists s'.
Qed.

Lemma block_is_still_life_witness :
  exists s',
    update_state block_state = Ok s'
    /\ arrays s' !! grid s' = Some (block 4 4 1 1)
    /\ live_history s' = live_history block_state ++ [np_sum (block 4 4 1 1)].
Proof.
  apply (block_is_still_life block_state 4 4 1 1); try lia; reflexivity.
Defined.

Example block_4x4 :
  block 4 4 1 1 = [[0;0;0;0]; [0;1;1;0]; [0;1;1;0]; [0;0;0;0]]
  /\ np_sum (block 4 4 1 1) = 4.
Proof. split; reflexivity. Qed.

(** ** Translations of the torus *)

Lemma around_roll0 (F : Z -> Z -> Z) (h w : nat) (d y x : Z) :
  around (fun y x => F ((y - d) mod Z.of_nat h) x) h w y x
  = around F h w ((y - d) mod Z.of_nat h) x.
Proof.
  unfold around. apply list_fmap_ext. intros _ ij _. cbn beta. f_equal.
  rewrite !Zminus_mod_idemp_l. f_equal. lia.
Qed.

Lemma around_roll1 (F : Z -> Z -> Z) (h w : nat) (d y x : Z) :
  around (fun y x => F y ((x - d) mod Z.of_nat w)) h w y x
  = around F h w y ((x - d) mod Z.of_nat w).
Proof.
  unfold around. apply list_fmap_ext. intros _ ij _. cbn beta. f_equal.
  rewrite !Zminus_mod_idemp_l. f_equal. lia.
Qed.

Lemma next_grid_roll (g : ndarray Z) (h w : nat) (d : Z) (a : axis) :
  has_shape h w g ->
  next_grid (np_roll g d a) = np_roll (next_grid g) d a.
Proof.
  intros Hshape. unfold next_grid. rewrite (shape_tab 0 h w g Hshape).
  set (F := get 0 g). destruct a.
  - rewrite np_roll_tab0, !next_tab, np_roll_tab0. apply tab_ext.
    intros y x _ _. by rewrite (around_roll0 F).
  - rewrite np_roll_tab1, !next_tab, np_roll_tab1. apply tab_ext.
    intros y x _ _. by rewrite (around_roll1 F).
Qed.

Lemma np_roll_shape {A} (g : ndarray A) (h w : nat) (d : Z) (a : axis) :
  has_shape h w g -> has_shape h w (np_roll g d a).
Proof.
  intros [Hlen Hrows]. destruct a; cbn [np_roll].
  - split; [by rewrite length_roll|]. apply Forall_forall. intros row Hrow.
    apply list_elem_of_lookup in Hrow as [i Hi].
    pose proof (lookup_lt_Some _ _ _ Hi) as Hlt. rewrite length_roll in Hlt.
    rewrite lookup_roll in Hi by done.
    exact (Forall_lookup_1 _ _ _ _ Hrows Hi).
  - split; [by rewrite length_fmap|]. apply Forall_fmap.
    eapply Forall_impl; [exact Hrows|]. intros row Hrow. cbn.
    by rewrite length_roll.
Qed.

(** [X6] The rule is the same everywhere on the torus: if one window holds
    a grid and another holds the same grid rolled by [dy] rows and [dx]
    columns, then after [update_state] on both the second grid is again the
    first rolled by [dy] rows and [dx] columns. *)
Theorem update_state_commutes_with_roll
    (s1 s2 : GameOfLife) (g : ndarray Z) (h w : nat) (dy dx : Z) :
  has_shape h w g ->
  arrays s1 !! grid s1 = Some g ->
  arrays s2 !! grid s2 = Some (np_roll (np_roll g dy Axis0) dx Axis1) ->
  gw_grid (grid_widget s1) = grid s1 ->
  gw_grid (grid_widget s2) = grid s2 ->
  exists s1' s2' g',
    update_state s1 = Ok s1'
    /\ update_state s2 = Ok s2'
    /\ arrays s1' !! grid s1' = Some g'
    /\ arrays s2' !! grid s2' = Some (np_roll (np_roll g' dy Axis0) dx Axis1).
Proof.
  intros Hshape Hg1 Hg2 Hgw1 Hgw2.
  destruct (update_state_next s1 g h w Hg1 Hgw1 Hshape) as (s1' & Hs1 & Hg1' & _).
  assert (has_shape h w (np_roll (np_roll g dy Axis0) dx Axis1)) as Hshape2
    by (by do 2 apply np_roll_shape).
  destruct (update_state_next s2 _ h w Hg2 Hgw2 Hshape2) as (s2' & Hs2 & Hg2' & _).
  exists s1', s2', (next_grid g). split_and!; try done.
  rewrite Hg2'. f_equal.
  rewrite (next_grid_roll _ h w dx Axis1) by (by apply np_roll_shape).
  by rewrite (next_grid_roll g h w dy Axis0).
Qed.

Lemma update_state_commutes_with_roll_witness :
  exists s1' s2' g',
    update_state example_state = Ok s1'
    /\ update_state
         (window_with 5 (np_roll (np_roll example_grid 2 Axis0) (-1) Axis1))
       = Ok s2'
    /\ arrays s1' !! grid s1' = Some g'
    /\ arrays s2' !! grid s2' = Some (np_roll (np_roll g' 2 Axis0) (-1) Axis1).
Proof.
  apply (update_state_commutes_with_roll example_state
           (window_with 5 (np_roll (np_roll example_grid 2 Axis0) (-1) Axis1))
           example_grid 5 5 2 (-1)).
  - exact example_grid_shape.
  - reflexivity.
  - reflexivity.
  - reflexivity.
  - reflexivity.
Defined.

(** ** Patterns: the crowded grid *)

Lemma next_grid_crowded h w :
  next_grid (tab h w (fun _ _ => 1)) = tab h w (fun _ _ => 0).
Proof.
  unfold next_grid. rewrite next_tab. apply tab_ext. intros y x _ _.
  unfold around. rewrite shifts_eq. reflexivity.
Qed.

(** [X7] Overcrowding: on a torus of any shape, a grid on which every cell
    is alive has no live cell after one [update_state] (each cell sees eight
    live neighbours, also where the rolled copies of a small grid coincide),
    and the count 0 is recorded. *)
Theorem crowded_grid_dies (s : GameOfLife) (g : ndarray Z) (h w : nat) :
  arrays s !! grid s = Some g ->
  gw_grid (grid_widget s) = grid s ->
  has_shape h w g ->
  all_alive g ->
  exists s' g',
    update_state s = Ok s'
    /\ arrays s' !! grid s' = Some g'
    /\ has_shape h w g'
    /\ all_dead g'
    /\ live_history s' = live_history s ++ [0].
Proof.
  intros Hg Hgw Hshape Ha.
  destruct (update_state_next s g h w Hg Hgw Hshape) as (s' & Hs' & Hg' & Hh' & _).
  rewrite (constant_tab 1 g h w Hshape Ha) in Hg', Hh'.
  rewrite next_grid_crowded in Hg', Hh'. rewrite np_sum_dead in Hh'.
  exists s', (tab h w (fun _ _ => 0)). split_and!; try done.
  - apply tab_shape.
  - apply tab_constant.
Qed.

Lemma crowded_grid_dies_witness :
  exists s' g',
    update_state crowded_state = Ok s'
    /\ arrays s' !! grid s' = Some g'
    /\ has_shape 3 3 g'
    /\ all_dead g'
    /\ live_history s' = live_history crowded_state ++ [0].
Proof.
  apply (crowded_grid_dies crowded_state (tab 3 3 (fun _ _ => 1)) 3 3).
  - reflexivity.
  - reflexivity.
  - apply tab_shape.
  - apply tab_constant.
Defined.

(** ** Clearing twice *)

Lemma np_fill_np_fill {A} (g : ndarray A) (c : A) :
  np_fill (np_fill g c) c = np_fill g c.
Proof.
  unfold np_fill, np_map. rewrite <- list_fmap_compose.
  apply list_fmap_ext. intros _ row _. cbn. by rewrite <- list_fmap_compose.
Qed.

Lemma state_ext (s1 s2 : GameOfLife) :
  arrays s1 = arrays s2 -> grid_size s1 = grid_size s2 ->
  cell_size s1 = cell_size s2 -> grid s1 = grid s2 ->
  generation s1 = generation s2 -> live_history s1 = live_history s2 ->
  grid_widget s1 = grid_widget s2 -> ax s1 = ax s2 ->
  painted s1 = painted s2 ->
  s1 = s2.
Proof. destruct s1, s2. cbn. by intros -> -> -> -> -> -> -> -> ->. Qed.

(** [X8] [clear_grid] is idempotent: the state a first [clear_grid] leaves
    (grid of zeros, generation 1, history [[0]], the three plotted lines)
    is left exactly as it is by a second one. *)
Theorem clear_grid_idempotent (s s1 : GameOfLife) :
  reachable s ->
  clear_grid s = Ok s1 ->
  clear_grid s1 = Ok s1.
Proof.
  intros Hr Hs1.
  pose proof (reachable_consistent s Hr)
    as (Hn & Hsz & Hgw & (g & Hg & Hshape & Hb) & Hh).
  rewrite (clear_grid_ok s g Hg Hgw) in Hs1. injection Hs1 as <-.
  pose proof (np_fill_np_fill g 0) as Hz.
  set (z := np_fill g 0) in *. clearbody z.
  erewrite clear_grid_ok; cycle 1.
  { unfold recorded. simpl_state. apply lookup_insert_eq. }
  { unfold recorded. simpl_state. exact Hgw. }
  f_equal. unfold recorded. simpl_state. rewrite Hz.
  apply state_ext; simpl_state; try reflexivity.
  apply insert_insert_eq.
Qed.

Lemma clear_grid_idempotent_witness :
  clear_grid (recorded (np_fill example_grid 0)
                (shown (np_fill example_grid 0) (reset example_state)))
  = Ok (recorded (np_fill example_grid 0)
          (shown (np_fill example_grid 0) (reset example_state))).
Proof.
  apply (clear_grid_idempotent example_state).
  - exact example_state_reachable.
  - exact (clear_grid_ok example_state example_grid eq_refl eq_refl).
Defined.

(** ** The widget shows the grid *)

Lemma shown_displayed s g' : displayed (shown g' s).
Proof.
  exists g'. unfold shown. simpl_state. split; [apply lookup_insert_eq|done].
Qed.

Lemma recorded_displayed s g' : displayed s -> displayed (recorded g' s).
Proof. intros (g & Hg & Hp). exists g. unfold recorded. by simpl_state. Qed.

(** [X9] The widget never shows a stale grid: in every reachable state
    either nothing has been painted yet, or what the widget last painted is
    the array behind [self.grid] as it is now (every handler that writes
    the array repaints before it returns, and the widget reads the same
    array object). *)
Theorem display_never_stale (s : GameOfLife) :
  reachable s -> painted s = [] \/ displayed s.
Proof.
  induction 1 as [draws n c s Hinit | ev s s' Hr IH Hev].
  - left. unfold init in Hinit. destruct (random_grid draws n); [|done].
    cbn in Hinit. by injection Hinit as <-.
  - destruct (handle_cases ev s s' (reachable_consistent s Hr) Hev)
      as (g & _ & [[_ ->] | [[_ ->] | [(d & r & _ & _ & ->) | [(e & _ & _ & _ & ->) | (e & _ & _ & _ & ->)]]]]);
      try (right; first [ apply recorded_displayed, shown_displayed
                        | apply shown_displayed ]).
    exact IH.
Qed.

Lemma display_never_stale_witness :
  painted example_ticked = [] \/ displayed example_ticked.
Proof.
  apply (display_never_stale example_ticked).
  exact example_ticked_reachable.
Defined.

(** ** What [paintEvent] paints *)

Lemma lookup_concat_rows {A} (rows : list (list A)) (w y x : nat) row v :
  Forall (fun r => length r = w) rows ->
  rows !! y = Some row -> row !! x = Some v ->
  concat rows !! (y * w + x)%nat = Some v.
Proof.
  revert y. induction rows as [|r rows IH]; intros y Hlen Hy Hx; [done|].
  apply Forall_cons in Hlen as [Hr Hlen]. destruct y as [|y]; cbn in *.
  - injection Hy as ->. by apply lookup_app_l_Some.
  - rewrite lookup_app_r by lia.
    replace (w + y * w + x - length r)%nat with (y * w + x)%nat by lia.
    by apply IH.
Qed.

Lemma cell_in_shape {A} (a : ndarray A) h w (y x : nat) v :
  has_shape h w a -> cell a y x = Some v -> (y < h)%nat /\ (x < w)%nat.
Proof.
  intros [Hlen Hrows] Hc. unfold cell in Hc.
  destruct (a !! y) as [row|] eqn:Hrow; [|done]. cbn in Hc.
  pose proof (lookup_lt_Some _ _ _ Hrow).
  pose proof (lookup_lt_Some _ _ _ Hc).
  pose proof (Forall_lookup_1 _ _ _ _ Hrows Hrow) as Hw. cbn in Hw. lia.
Qed.

Lemma cell_of_shape {A} (a : ndarray A) h w (y x : nat) :
  has_shape h w a -> (y < h)%nat -> (x < w)%nat -> exists v, cell a y x = Some v.
Proof.
  intros [Hlen Hrows] Hy Hx. unfold cell.
  destruct (lookup_lt_is_Some_2 a y) as [row Hrow]; [lia|].
  pose proof (Forall_lookup_1 _ _ _ _ Hrows Hrow) as Hw. cbn in Hw.
  destruct (lookup_lt_is_Some_2 row x) as [v Hv]; [lia|].
  exists v. rewrite Hrow. by cbn.
Qed.

Lemma paintEvent_shape gw (a : ndarray Z) h w :
  has_shape h w a ->
  has_shape h w (imap (fun y row => imap (cell_rect gw y) row) a).
Proof.
  intros [Hlen Hrows]. split; [by rewrite length_imap|].
  apply Forall_forall. intros l Hl.
  apply elem_of_lookup_imap in Hl as (y & row & -> & Hrow).
  rewrite length_imap. exact (Forall_lookup_1 _ _ _ _ Hrows Hrow).
Qed.

Lemma length_paintEvent gw (a : ndarray Z) h w :
  has_shape h w a -> length (paintEvent gw a) = (h * w)%nat.
Proof.
  intros Hshape. unfold paintEvent.
  apply (length_concat_shape h w _ (paintEvent_shape gw a h w Hshape)).
Qed.

Lemma paintEvent_lookup gw (a : ndarray Z) h w (y x : nat) v :
  has_shape h w a -> cell a y x = Some v ->
  paintEvent gw a !! (y * w + x)%nat = Some (cell_rect gw y x v).
Proof.
  intros Hshape Hc. unfold cell in Hc.
  destruct (a !! y) as [row|] eqn:Hrow; [|done]. cbn in Hc.
  apply (lookup_concat_rows _ w y x (imap (cell_rect gw y) row)).
  - exact (proj2 (paintEvent_shape gw a h w Hshape)).
  - by rewrite list_lookup_imap, Hrow.
  - by rewrite list_lookup_imap, Hc.
Qed.

Lemma paintEvent_lookup_inv gw (a : ndarray Z) h w (y x : nat) r :
  has_shape h w a -> (x < w)%nat ->
  paintEvent gw a !! (y * w + x)%nat = Some r ->
  (y < h)%nat /\ exists v, cell a y x = Some v /\ r = cell_rect gw y x v.
Proof.
  intros Hshape Hx Hr. pose proof (lookup_lt_Some _ _ _ Hr) as Hlt.
  rewrite (length_paintEvent gw a h w Hshape) in Hlt.
  assert (y < h)%nat as Hy by nia. split; [done|].
  destruct (cell_of_shape a h w y x Hshape Hy Hx) as [v Hv]. exists v.
  rewrite (paintEvent_lookup gw a h w y x v Hshape Hv) in Hr.
  by injection Hr as <-.
Qed.

(** [X10] [paintEvent] fills one rectangle per cell, row after row: for an
    array of shape [(h, w)] it fills [h * w] rectangles, the rectangle of
    the cell in column [x] of row [y] is the one with number [y * w + x], it
    has its corner at [(x * cell_size + x_offset, y * cell_size + y_offset)]
    and side [cell_size - 1], and it is black exactly when the cell holds
    1. *)
Theorem paintEvent_row_major (gw : GridWidget) (a : ndarray Z) (h w : nat) :
  has_shape h w a ->
  length (paintEvent gw a) = (h * w)%nat
  /\ forall (y x : nat) (v : Z),
       cell a y x = Some v ->
       paintEvent gw a !! (y * w + x)%nat
       = Some {| rect_x := Z.of_nat x * gw_cell_size gw + x_offset gw;
                 rect_y := Z.of_nat y * gw_cell_size gw + y_offset gw;
                 rect_side := gw_cell_size gw - 1;
                 rect_black := bool_decide (v = 1) |}.
Proof.
  intros Hshape. split; [by apply length_paintEvent|].
  intros y x v Hc. rewrite (paintEvent_lookup gw a h w y x v Hshape Hc).
  unfold cell_rect. do 2 f_equal.
  destruct (Z.eqb_spec v 1); [by rewrite bool_decide_true
                             |by rewrite bool_decide_false].
Qed.

Lemma paintEvent_row_major_witness :
  length (paintEvent (grid_widget example_state) example_grid) = (5 * 5)%nat
  /\ forall (y x : nat) (v : Z),
       cell example_grid y x = Some v ->
       paintEvent (grid_widget example_state) example_grid !! (y * 5 + x)%nat
       = Some {| rect_x := Z.of_nat x * 10 + 20;
                 rect_y := Z.of_nat y * 10 + 60;
                 rect_side := 10 - 1;
                 rect_black := bool_decide (v = 1) |}.
Proof.
  apply (paintEvent_row_major (grid_widget example_state) example_grid 5 5).
  exact example_grid_shape.
Defined.

Lemma shape1_shape {A} (a : ndarray A) h w :
  has_shape h w a -> (0 < h)%nat -> shape1 a = Z.of_nat w.
Proof.
  intros [Hlen Hrows] Hh. destruct a as [|row a]; cbn in *; [lia|].
  apply Forall_cons in Hrows as [-> _]. done.
Qed.

(** [X11] The minimum size [GridWidget.__init__] asks for holds the whole
    painted grid: with a cell size of at least one pixel, every rectangle
    of [paintEvent] starts at or after the offsets and ends before
    [minimum_width - x_offset] and [minimum_height - 20]; and the rectangles
    of two different columns (rows) are separated by at least one pixel,
    the grid line. *)
Theorem painted_grid_fits_minimum_size
    (gw : GridWidget) (a : ndarray Z) (h w : nat) (y x y' x' : nat) (r r' : rect) :
  has_shape h w a ->
  1 <= gw_cell_size gw ->
  (x < w)%nat -> (x' < w)%nat ->
  paintEvent gw a !! (y * w + x)%nat = Some r ->
  paintEvent gw a !! (y' * w + x')%nat = Some r' ->
  (x_offset gw <= rect_x r
   /\ rect_x r + rect_side r < minimum_width gw a - x_offset gw)
  /\ (y_offset gw <= rect_y r
      /\ rect_y r + rect_side r < minimum_height gw a - 20)
  /\ ((x < x')%nat -> rect_x r + rect_side r < rect_x r')
  /\ ((y < y')%nat -> rect_y r + rect_side r < rect_y r').
Proof.
  intros Hshape Hc Hx Hx' Hr Hr'.
  destruct (paintEvent_lookup_inv gw a h w y x r Hshape Hx Hr)
    as (Hy & v & _ & ->).
  destruct (paintEvent_lookup_inv gw a h w y' x' r' Hshape Hx' Hr')
    as (Hy' & v' & _ & ->).
  unfold minimum_width, minimum_height, shape0.
  rewrite (shape1_shape a h w Hshape) by lia.
  rewrite (proj1 Hshape). cbn [cell_rect rect_x rect_y rect_side].
  split_and!; try nia.
Qed.

Lemma painted_grid_fits_minimum_size_witness :
  (x_offset (grid_widget example_state) <= 60
   /\ 60 + 9 < minimum_width (grid_widget example_state) example_grid
               - x_offset (grid_widget example_state))
  /\ (y_offset (grid_widget example_state) <= 70
      /\ 70 + 9 < minimum_height (grid_widget example_state) example_grid - 20)
  /\ ((4 < 4)%nat -> 60 + 9 < 60)
  /\ ((1 < 2)%nat -> 70 + 9 < 80).
Proof.
  apply (painted_grid_fits_minimum_size (grid_widget example_state)
           example_grid 5 5 1 4 2 4
           {| rect_x := 60; rect_y := 70; rect_side := 9; rect_black := false |}
           {| rect_x := 60; rect_y := 80; rect_side := 9; rect_black := false |}).
  - exact example_grid_shape.
  - cbn. lia.
  - lia.
  - lia.
  - reflexivity.
  - reflexivity.
Defined.

(** ** Mouse presses and the cells *)

Lemma div_range (a c n : Z) : 0 < c -> 0 <= a / c < n <-> 0 <= a < n * c.
Proof.
  intros Hc. pose proof (Z.div_mod a c). pose proof (Z.mod_pos_bound a c). nia.
Qed.




Lemma toggled_differs g h w (y x : Z) :
  has_shape h w g -> binary g ->
  0 <= y < Z.of_nat h -> 0 <= x < Z.of_nat w ->
  toggled g y x <> g.
Proof.
  intros Hshape Hb Hy Hx Heq.
  pose proof (get_toggled_same g h w y x Hshape Hy Hx) as Hget.
  rewrite Heq in Hget.
  destruct (binary_get g y x Hb) as [Hv | Hv]; rewrite Hv in Hget; done.
Qed.

(** [X13] The clickable area: in every reachable state
    with a positive cell size a mouse press changes the state exactly when
    its pixel lies on the [grid_size * cell_size] pixels from the offsets
    in both directions; a press left of or above the grid is ignored as
    well, since [//] rounds its negative quotient down, not towards zero. *)
Theorem press_changes_state_iff_on_grid (e : QMouseEvent) (s : GameOfLife) :
  reachable s ->
  0 < cell_size s ->
  exists s', handle (MousePress e) s = Ok s' /\ (s' <> s <-> on_grid e s).
Proof.
  intros Hr Hc.
  pose proof (reachable_consistent s Hr)
    as (Hn & Hsz & Hgw & (g & Hg & Hshape & Hb) & Hh).
  assert (in_bounds (cell_x e s) (cell_y e s) (grid_size s) <-> on_grid e s)
    as Hiff.
  { unfold in_bounds, on_grid, cell_x, cell_y.
    rewrite !div_range by done. lia. }
  cbn [handle].
  destruct (decide (in_bounds (cell_x e s) (cell_y e s) (grid_size s)))
    as [Hin|Hout].
  - eexists. split; [apply (mousePressEvent_in e s g); try done; lia|].
    split; [intros _; by apply Hiff|]. intros _ Heq.
    assert (arrays (shown (toggled g (cell_y e s) (cell_x e s)) s) !! grid s
            = Some g) as Hg' by (by rewrite Heq).
    unfold shown in Hg'. simpl_state. rewrite lookup_insert_eq in Hg'.
    injection Hg' as Hg'. destruct Hin as [Hx Hy].
    by apply (toggled_differs g _ _ _ _ Hshape Hb) in Hg'; try lia.
  - exists s. split; [apply mousePressEvent_out; [lia|done]|].
    split; [done|]. intros Hon. by apply Hiff in Hon.
Qed.

Lemma press_changes_state_iff_on_grid_witness :
  exists s',
    handle (MousePress press_outside) example_state = Ok s'
    /\ (s' <> example_state <-> on_grid press_outside example_state).
Proof.
  apply (press_changes_state_iff_on_grid press_outside example_state).
  - exact example_state_reachable.
  - cbn. lia.
Defined.

(** ** The growth series *)

Lemma growth_cons (a b : Z) (t : list Z) :
  growth (a :: b :: t) = 0 :: wrap64 (b - a) :: tail (growth (b :: t)).
Proof.
  unfold growth. cbn [length tail]. rewrite !Nat.sub_succ, !Nat.sub_0_r.
  cbn [seq fmap list_fmap]. do 2 f_equal.
  rewrite <- (fmap_S_seq 1), <- list_fmap_compose.
  apply list_fmap_ext. intros k i Hi. apply list_elem_of_lookup_2 in Hi.
  apply elem_of_seq in Hi. destruct i as [|i]; [lia|]. cbn.
  by rewrite Nat.sub_0_r.
Qed.

Lemma growth_sum (a : Z) (t : list Z) :
  Forall (fun v => - 2 ^ 62 <= v < 2 ^ 62) (a :: t) ->
  foldr Z.add 0 (tail (growth (a :: t))) = default a (last (a :: t)) - a.
Proof.
  revert a. induction t as [|b t IH]; intros a Hb.
  - cbn. lia.
  - apply Forall_cons in Hb as [Ha Hb]. pose proof Hb as Hb'.
    apply Forall_cons in Hb' as [Hb' _].
    rewrite growth_cons. cbn [tail foldr]. rewrite (IH b Hb).
    rewrite wrap64_small by lia. rewrite last_cons_cons.
    destruct (last (b :: t)) eqn:Hl; cbn; [lia|].
    by rewrite last_cons in Hl; destruct (last t).
Qed.

(** [X14] The growth series telescopes: for every history whose counts
    keep the differences inside [int64] (below [2 ^ 62] in absolute value,
    as every count the program records is), the sum of the growth values
    is the last count minus the first one. *)
Theorem growth_telescopes (h : list Z) (v0 vl : Z) :
  Forall (fun v => - 2 ^ 62 <= v < 2 ^ 62) h ->
  h !! 0%nat = Some v0 ->
  last h = Some vl ->
  foldr Z.add 0 (growth h) = vl - v0.
Proof.
  intros Hb H0 Hl. destruct h as [|a t]; [done|].
  cbn in H0. injection H0 as ->.
  pose proof (growth_sum v0 t Hb) as Hs. rewrite Hl in Hs. cbn [default] in Hs.
  unfold growth in *. cbn [tail foldr] in *. unfold id in Hs.
  rewrite Hs. lia.
Qed.

Lemma growth_telescopes_witness :
  foldr Z.add 0 (growth [3; 5; 4; 9]) = 9 - 3.
Proof.
  apply (growth_telescopes [3; 5; 4; 9] 3 9).
  - repeat constructor; lia.
  - reflexivity.
  - reflexivity.
Defined.

Example growth_of_history : growth [3; 5; 4; 9] = [0; 2; -1; 5].
Proof. reflexivity. Qed.

(** ** A window without cells *)





(** ** The timer, the start button and the speed slider *)

Lemma slider_clamp_range (v : Z) : 10 <= slider_clamp v <= 1000.
Proof. unfold slider_clamp. lia. Qed.

Lemma controls_invariant (c : Controls) :
  controls_reachable c ->
  (timer_active c = true <-> start_button c = TextStop)
  /\ 10 <= speed_slider c <= 1000
  /\ (timer_active c = true -> timer_interval c = speed_slider c).
Proof.
  induction 1 as [|ev c Hc (Hb & Hs & Hi)].
  - cbn. split_and!; (done || lia).
  - destruct ev as [|v]; cbn [control].
    + unfold toggle_timer.
      destruct (timer_active c); cbn; split_and!; (done || lia).
    + unfold slider_moved, change_speed. cbn.
      pose proof (slider_clamp_range v).
      destruct (timer_active c) eqn:Ha; cbn; rewrite ?Ha;
        split_and!; (done || lia).
Qed.

(** [X16] Timer, button and slider stay in step: whatever the sequence of
    clicks on the start button and moves of the slider, the button reads
    [Stop] exactly while the timer runs, the slider value lies between 10
    and 1000, and a running timer has the slider value as its interval. *)
Theorem controls_in_step (c : Controls) :
  controls_reachable c ->
  (timer_active c = true <-> start_button c = TextStop)
  /\ 10 <= speed_slider c <= 1000
  /\ (timer_active c = true -> timer_interval c = speed_slider c).
Proof. exact (controls_invariant c). Qed.

Lemma controls_in_step_witness :
  (timer_active example_controls = true <-> start_button example_controls = TextStop)
  /\ 10 <= speed_slider example_controls <= 1000
  /\ (timer_active example_controls = true ->
      timer_interval example_controls = speed_slider example_controls).
Proof.
  apply (controls_in_step example_controls).
  apply controls_step, controls_step, controls_init.
Defined.

Example example_controls_eq :
  example_controls
  = {| timer_active := true; timer_interval := 120;
       start_button := TextStop; speed_slider := 120 |}.
Proof. reflexivity. Qed.

(** [X17] Stopping and restarting a running timer changes nothing: for
    controls reached by clicks and slider moves whose timer runs, two
    clicks on the start button give back the same timer state, interval,
    button text and slider value. *)
Theorem toggle_timer_twice (c : Controls) :
  controls_reachable c ->
  timer_active c = true ->
  toggle_timer (toggle_timer c) = c.
Proof.
  intros Hc Ha. destruct (controls_invariant c Hc) as (Hb & _ & Hi).
  destruct c as [a i b v]. cbn in *. subst a.
  unfold toggle_timer. cbn. f_equal; [by rewrite Hi | symmetry; by apply Hb].
Qed.

Lemma toggle_timer_twice_witness :
  toggle_timer (toggle_timer example_controls) = example_controls.
Proof.
  apply (toggle_timer_twice example_controls).
  - apply controls_step, controls_step, controls_init.
  - reflexivity.
Defined.

(** ** The recorded count and the live cells *)

Lemma count_ones_app (a b : list Z) :
  count_ones (a ++ b) = count_ones a + count_ones b.
Proof. unfold count_ones. rewrite filter_app, length_app. lia. Qed.

Lemma sum_count (l : list Z) :
  Forall (fun v => 0 <= v <= 1) l -> foldr Z.add 0 l = count_ones l.
Proof.
  unfold count_ones. induction 1 as [|v l Hv Hl IH]; [done|].
  cbn [foldr]. rewrite filter_cons.
  destruct (decide (v = 1)); cbn [length]; lia.
Qed.

Lemma np_sum_count h w g :
  has_shape h w g -> binary g -> Z.of_nat (h * w) < 2 ^ 63 ->
  np_sum g = count_alive g.
Proof.
  intros Hshape Hb Hsz. destruct (np_sum_bounds h w g Hshape Hb Hsz) as [-> _].
  apply sum_count. by apply binary_concat.
Qed.

Lemma consistent_count s g :
  consistent s -> arrays s !! grid s = Some g -> np_sum g = count_alive g.
Proof.
  intros (Hn & Hsz & _ & (g0 & Hg0 & Hshape & Hb) & _) Hg.
  rewrite Hg in Hg0. injection Hg0 as <-.
  apply (np_sum_count _ _ g Hshape Hb). nia.
Qed.

(** [X18] What the plot records is the population: after a timer tick, a
    click on Clear or a click on Randomize in a reachable state, the last
    entry of the history is the number of cells of the grid that hold 1 (the
    [int64] sum of [np.sum] does not wrap around). *)
Theorem recorded_count_is_population (ev : event) (s s' : GameOfLife) :
  reachable s ->
  handle ev s = Ok s' ->
  (forall e, ev <> MousePress e) ->
  exists g',
    arrays s' !! grid s' = Some g'
    /\ last (live_history s') = Some (count_alive g').
Proof.
  intros Hr Hev Hne. pose proof (reachable_consistent s Hr) as Hc.
  pose proof (handle_consistent ev s s' Hc Hev) as Hc'.
  destruct (handle_cases ev s s' Hc Hev)
    as (g & _ & [[_ Hs] | [[_ Hs] | [(d & r & _ & _ & Hs) | [(e & He & _) | (e & He & _)]]]]);
    try (by destruct (Hne e)).
  - exists (next_grid g).
    assert (arrays s' !! grid s' = Some (next_grid g)) as Hg'
      by (rewrite Hs; unfold recorded, shown; simpl_state; apply lookup_insert_eq).
    split; [done|]. rewrite <- (consistent_count s' _ Hc' Hg').
    rewrite Hs. unfold recorded. simpl_state. apply last_snoc.
  - exists (np_fill g 0).
    assert (arrays s' !! grid s' = Some (np_fill g 0)) as Hg'
      by (rewrite Hs; unfold recorded, shown, reset; simpl_state;
          apply lookup_insert_eq).
    split; [done|]. rewrite <- (consistent_count s' _ Hc' Hg').
    rewrite Hs. unfold recorded. simpl_state. apply last_snoc.
  - exists r.
    assert (arrays s' !! grid s' = Some r) as Hg'
      by (rewrite Hs; unfold recorded, shown, reset; simpl_state;
          apply lookup_insert_eq).
    split; [done|]. rewrite <- (consistent_count s' _ Hc' Hg').
    rewrite Hs. unfold recorded. simpl_state. apply last_snoc.
Qed.

Lemma recorded_count_is_population_witness :
  exists g',
    arrays example_ticked !! grid example_ticked = Some g'
    /\ last (live_history example_ticked) = Some (count_alive g').
Proof.
  apply (recorded_count_is_population Timeout example_state example_ticked).
  - exact example_state_reachable.
  - exact (update_state_ok example_state example_grid 5 5 eq_refl eq_refl
             example_grid_shape).
  - discriminate.
Defined.

(** ** A mouse press and the population *)

Lemma count_ones_cons (v : Z) (l : list Z) :
  count_ones (v :: l) = bit (v =? 1) + count_ones l.
Proof.
  unfold count_ones. rewrite filter_cons.
  destruct (Z.eqb_spec v 1);
    [rewrite decide_True by done | rewrite decide_False by done];
    cbn [length bit]; lia.
Qed.

Lemma count_ones_insert (l : list Z) (i : nat) (v v' : Z) :
  l !! i = Some v ->
  count_ones (<[i := v']> l) = count_ones l + bit (v' =? 1) - bit (v =? 1).
Proof.
  revert i. induction l as [|u l IH]; intros i Hi; [done|].
  destruct i as [|i]; cbn in Hi.
  - injection Hi as ->. change (<[0%nat:=v']> (v :: l)) with (v' :: l).
    rewrite !count_ones_cons. lia.
  - change (<[S i:=v']> (u :: l)) with (u :: <[i:=v']> l).
    rewrite !count_ones_cons, (IH i Hi). lia.
Qed.

Lemma count_alive_insert (g : ndarray Z) (y : nat) (row row' : list Z) :
  g !! y = Some row ->
  count_alive (<[y := row']> g) = count_alive g + count_ones row' - count_ones row.
Proof.
  unfold count_alive. fold (count_ones (concat (<[y:=row']> g))).
  fold (count_ones (concat g)).
  revert y. induction g as [|r g IH]; intros y Hy; [done|].
  destruct y as [|y]; cbn in Hy.
  - injection Hy as ->. change (<[0%nat:=row']> (row :: g)) with (row' :: g).
    cbn [concat]. rewrite !count_ones_app. lia.
  - change (<[S y:=row']> (r :: g)) with (r :: <[y:=row']> g).
    cbn [concat]. rewrite !count_ones_app, (IH y Hy). lia.
Qed.

Lemma count_alive_toggled g h w (y x : Z) :
  has_shape h w g -> binary g ->
  0 <= y < Z.of_nat h -> 0 <= x < Z.of_nat w ->
  count_alive (toggled g y x) = count_alive g + 1 - 2 * get 0 g y x.
Proof.
  intros [Hlen Hrows] Hb Hy Hx.
  destruct (lookup_lt_is_Some_2 g (Z.to_nat y)) as [row Hrow]; [lia|].
  pose proof (Forall_lookup_1 _ _ _ _ Hrows Hrow) as Hw. cbn in Hw.
  destruct (lookup_lt_is_Some_2 row (Z.to_nat x)) as [v Hv]; [lia|].
  assert (get 0 g y x = v) as Hget
    by (unfold get, cell; rewrite Hrow; cbn; by rewrite Hv).
  assert (v = 0 \/ v = 1) as Hv01 by (rewrite <- Hget; by apply binary_get).
  unfold toggled. rewrite Hget, (list_lookup_total_correct _ _ _ Hrow).
  rewrite (count_alive_insert g _ row _ Hrow).
  rewrite (count_ones_insert row _ v _ Hv), (wrap64_toggle v Hv01).
  destruct Hv01 as [-> | ->].
  - change (bit (1 - 0 =? 1)) with 1. change (bit (0 =? 1)) with 0. lia.
  - change (bit (1 - 1 =? 1)) with 0. change (bit (1 =? 1)) with 1. lia.
Qed.

(** [X19] A mouse press changes the population by exactly one and leaves
    the plot as it was: in every reachable state, a press on a cell of the
    grid succeeds, the grid then has one live cell more (the cell was dead)
    or one less (it was alive), and the history, the generation counter and
    the plotted lines are untouched, so the last plotted count no longer is
    the population. *)
Theorem press_changes_population_by_one
    (e : QMouseEvent) (s : GameOfLife) (g : ndarray Z) :
  reachable s ->
  cell_size s <> 0 ->
  in_bounds (cell_x e s) (cell_y e s) (grid_size s) ->
  arrays s !! grid s = Some g ->
  exists s' g',
    handle (MousePress e) s = Ok s'
    /\ arrays s' !! grid s' = Some g'
    /\ (count_alive g' = count_alive g + 1 \/ count_alive g' = count_alive g - 1)
    /\ count_alive g' = count_alive g + 1 - 2 * get 0 g (cell_y e s) (cell_x e s)
    /\ live_history s' = live_history s
    /\ generation s' = generation s
    /\ ax s' = ax s.
Proof.
  intros Hr Hz Hin Hg.
  pose proof (reachable_consistent s Hr)
    as (Hn & Hsz & Hgw & (g0 & Hg0 & Hshape & Hb) & Hh).
  rewrite Hg in Hg0. injection Hg0 as <-.
  exists (shown (toggled g (cell_y e s) (cell_x e s)) s),
         (toggled g (cell_y e s) (cell_x e s)).
  destruct Hin as [Hx Hy].
  pose proof (count_alive_toggled g _ _ (cell_y e s) (cell_x e s) Hshape Hb
                ltac:(lia) ltac:(lia)) as Hcount.
  split_and!; try done.
  - by apply mousePressEvent_in.
  - unfold shown. simpl_state. apply lookup_insert_eq.
  - destruct (binary_get g (cell_y e s) (cell_x e s) Hb) as [Hv | Hv];
      rewrite Hv in Hcount; lia.
Qed.

Lemma press_changes_population_by_one_witness :
  exists s' g',
    handle (MousePress press_inside) example_state = Ok s'
    /\ arrays s' !! grid s' = Some g'
    /\ (count_alive g' = count_alive example_grid + 1
        \/ count_alive g' = count_alive example_grid - 1)
    /\ count_alive g'
       = count_alive example_grid + 1
         - 2 * get 0 example_grid (cell_y press_inside example_state)
                 (cell_x press_inside example_state)
    /\ live_history s' = live_history example_state
    /\ generation s' = generation example_state
    /\ ax s' = ax example_state.
Proof.
  apply (press_changes_population_by_one press_inside example_state example_grid).
  - exact example_state_reachable.
  - discriminate.
  - by vm_compute.
  - reflexivity.
Defined.

(** ** Randomize and the samples *)

Lemma concat_tab_row_major {A} (h w : nat) (f : nat -> A) :
  concat (tab h w (fun y x => f (Z.to_nat y * w + Z.to_nat x)%nat))
  = f <$> seq 0 (h * w).
Proof.
  unfold tab. induction h as [|h IH]; [done|].
  rewrite seq_S, fmap_app, concat_app, IH. cbn [fmap list_fmap concat plus].
  rewrite app_nil_r.
  replace (S h * w)%nat with (h * w + w)%nat by lia.
  rewrite seq_app, fmap_app. f_equal. cbn [plus].
  replace (seq (h * w) w) with (seq (h * w + 0) w) by (f_equal; lia).
  rewrite <- (fmap_add_seq (h * w) 0 w), <- list_fmap_compose.
  apply list_fmap_ext. intros _ x _. cbn. by rewrite !Nat2Z.id.
Qed.

Lemma count_ones_bits {A} (p : A -> bool) (l : list A) :
  count_ones ((fun i => bit (p i)) <$> l)
  = Z.of_nat (length (filter (fun i => p i = true) l)).
Proof.
  induction l as [|i l IH]; [done|].
  rewrite fmap_cons, count_ones_cons, IH, filter_cons.
  destruct (p i); [rewrite decide_True by done | rewrite decide_False by done].
  - change (bit (bit true =? 1)) with 1. cbn [length]. lia.
  - change (bit (bit false =? 1)) with 0. lia.
Qed.

(** [X20] Randomize counts the samples below [0.2]: in every reachable
    state a click on Randomize succeeds, the cell in column [x] of row [y]
    is alive exactly when sample number [y * grid_size + x] of the generator
    is below [0.2], the history is restarted with one entry, the number of
    such samples among the first [grid_size * grid_size], and the
    generation counter is 1. *)
Theorem randomize_records_draws_below (draws : nat -> float64) (s : GameOfLife) :
  reachable s ->
  exists s' g',
    handle (RandomizeClicked draws) s = Ok s'
    /\ arrays s' !! grid s' = Some g'
    /\ (forall y x : nat,
          (y < Z.to_nat (grid_size s))%nat -> (x < Z.to_nat (grid_size s))%nat ->
          cell g' y x
          = Some (bit (float_lt (draws (y * Z.to_nat (grid_size s) + x)%nat)
                                float_0_2)))
    /\ live_history s' = [Z.of_nat (length (draws_below draws (grid_size s)))]
    /\ generation s' = 1.
Proof.
  intros Hr.
  pose proof (reachable_consistent s Hr)
    as (Hn & Hsz & Hgw & (g & Hg & Hshape & Hb) & Hh).
  destruct (randomize_grid_ok draws s g Hg Hgw Hn Hsz Hshape) as (r & Hrg & Heq).
  rewrite random_grid_tab in Hrg by done. injection Hrg as <-.
  set (n := Z.to_nat (grid_size s)) in *.
  set (r := tab n n _) in *.
  exists (recorded r (shown r (reset s))), r. split_and!.
  - exact Heq.
  - unfold recorded, shown, reset. simpl_state. apply lookup_insert_eq.
  - intros y x Hy Hx. unfold r. rewrite cell_tab by done. by rewrite !Nat2Z.id.
  - unfold recorded, shown, reset. simpl_state. cbn [app]. f_equal.
    rewrite (np_sum_count n n r); [|apply tab_shape| |].
    + unfold count_alive, r, draws_below. fold n.
      rewrite (concat_tab_row_major n n
                 (fun i => bit (float_lt (draws i) float_0_2))).
      apply (count_ones_bits (fun i => float_lt (draws i) float_0_2)).
    + apply binary_tab. intros y x _ _. destruct (float_lt _ _); cbn; auto.
    + unfold n. nia.
  - reflexivity.
Qed.

Lemma randomize_records_draws_below_witness :
  exists s' g',
    handle (RandomizeClicked example_draws) example_state = Ok s'
    /\ arrays s' !! grid s' = Some g'
    /\ (forall y x : nat,
          (y < Z.to_nat (grid_size example_state))%nat ->
          (x < Z.to_nat (grid_size example_state))%nat ->
          cell g' y x
          = Some (bit (float_lt
                         (example_draws
                            (y * Z.to_nat (grid_size example_state) + x)%nat)
                         float_0_2)))
    /\ live_history s'
       = [Z.of_nat (length (draws_below example_draws (grid_size example_state)))]
    /\ generation s' = 1.
Proof.
  apply (randomize_records_draws_below example_draws example_state).
  exact example_state_reachable.
Defined.

Example randomize_example :
  random_grid example_draws 5 = Ok example_grid
  /\ draws_below example_draws 5 = [6; 7; 8]%nat.
Proof. split; reflexivity. Qed.

(** ** The fresh window *)

(** [X21] What [GameOfLife.__init__] builds: when it succeeds the window
    and its widget hold the same array, of shape [grid_size] by
    [grid_size]; the minimum size [GridWidget.__init__] asks for is
    [grid_size * cell_size + 40] by [grid_size * cell_size + 80] pixels (the
    default offsets 20 and 60); and the generation counter is 0, the
    history and the plot are empty. *)
Theorem init_window (draws : nat -> float64) (n c : Z) (s : GameOfLife) :
  init draws n c = Ok s ->
  exists g,
    arrays s !! grid s = Some g
    /\ gw_grid (grid_widget s) = grid s
    /\ has_shape (Z.to_nat n) (Z.to_nat n) g
    /\ minimum_width (grid_widget s) g = n * c + 40
    /\ minimum_height (grid_widget s) g = n * c + 80
    /\ generation s = 0
    /\ live_history s = []
    /\ ax s = [].
Proof.
  intros Hinit. unfold init in Hinit.
  destruct (random_grid draws n) as [g|] eqn:Hg; [|done].
  destruct (random_grid_Ok draws n g Hg) as [Hn Hsz].
  rewrite random_grid_tab in Hg by done. injection Hg as Hg.
  cbn in Hinit. injection Hinit as <-. exists g. simpl_state.
  assert (has_shape (Z.to_nat n) (Z.to_nat n) g) as Hshape
    by (rewrite <- Hg; apply tab_shape).
  split_and!; try done.
  - unfold minimum_width. cbn [gw_cell_size x_offset].
    destruct (decide (n = 0)) as [->|Hz].
    + destruct Hshape as [Hlen _]. destruct g; [|done]. cbn [shape1]. lia.
    + rewrite (shape1_shape g _ _ Hshape), Z2Nat.id by lia. lia.
  - unfold minimum_height, shape0. cbn [gw_cell_size y_offset].
    rewrite (proj1 Hshape), Z2Nat.id by lia. lia.
Qed.

Lemma init_window_witness :
  exists g,
    arrays example_state !! grid example_state = Some g
    /\ gw_grid (grid_widget example_state) = grid example_state
    /\ has_shape (Z.to_nat 5) (Z.to_nat 5) g
    /\ minimum_width (grid_widget example_state) g = 5 * 10 + 40
    /\ minimum_height (grid_widget example_state) g = 5 * 10 + 80
    /\ generation example_state = 0
    /\ live_history example_state = []
    /\ ax example_state = [].
Proof.
  apply (init_window example_draws 5 10 example_state).
  exact example_state_init.
Defined.

(** ** After Clear the grid stays empty *)

Lemma update_state_dead s g h w :
  arrays s !! grid s = Some g ->
  gw_grid (grid_widget s) = grid s ->
  has_shape h w g ->
  all_dead g ->
  exists s',
    update_state s = Ok s'
    /\ arrays s' !! grid s' = Some g
    /\ gw_grid (grid_widget s') = grid s'
    /\ live_history s' = live_history s ++ [0]
    /\ generation s' = generation s + 1.
Proof.
  intros Hg Hgw Hshape Hd.
  assert (astype_int (new_grid g) = g) as Hnext.
  { fold (next_grid g). rewrite (constant_tab 0 g h w Hshape Hd).
    apply next_grid_dead. }
  assert (np_sum g = 0) as Hsum.
  { rewrite (constant_tab 0 g h w Hshape Hd). apply np_sum_dead. }
  eexists. split; [by eapply update_state_ok|]. rewrite Hnext.
  unfold recorded, shown. simpl_state. rewrite Hsum. split_and!; try done.
  apply lookup_insert_eq.
Qed.

Lemma ticks_dead (k : nat) s g h w :
  arrays s !! grid s = Some g ->
  gw_grid (grid_widget s) = grid s ->
  has_shape h w g ->
  all_dead g ->
  exists sk,
    ticks k s = Ok sk
    /\ arrays sk !! grid sk = Some g
    /\ live_history sk = live_history s ++ replicate k 0
    /\ generation sk = generation s + Z.of_nat k.
Proof.
  revert s. induction k as [|k IH]; intros s Hg Hgw Hshape Hd.
  - exists s. cbn. rewrite app_nil_r. split_and!; try done. lia.
  - destruct (update_state_dead s g h w Hg Hgw Hshape Hd)
      as (s' & Hs' & Hg' & Hgw' & Hh' & Hgen').
    destruct (IH s' Hg' Hgw' Hshape Hd) as (sk & Hsk & Hgk & Hhk & Hgenk).
    exists sk. cbn [ticks]. rewrite Hs'. cbn [mbind result_bind].
    split_and!; try done.
    + rewrite Hhk, Hh', <- app_assoc. done.
    + lia.
Qed.

(** [X22] After Clear nothing comes back by itself: from the state a click
    on Clear leaves, any number [k] of timer ticks succeeds, the grid still
    has no live cell, the history is [k + 1] zeros and the generation
    counter is [k + 1]. *)
Theorem cleared_grid_stays_empty (s s0 : GameOfLife) (k : nat) :
  reachable s ->
  clear_grid s = Ok s0 ->
  exists sk g,
    ticks k s0 = Ok sk
    /\ arrays sk !! grid sk = Some g
    /\ all_dead g
    /\ live_history sk = replicate (S k) 0
    /\ generation sk = Z.of_nat k + 1.
Proof.
  intros Hr Hs0.
  pose proof (reachable_consistent s Hr)
    as (Hn & Hsz & Hgw & (g & Hg & Hshape & Hb) & Hh).
  rewrite (clear_grid_ok s g Hg Hgw) in Hs0. injection Hs0 as Hs0.
  pose proof (np_sum_fill_0 g) as Hsum.
  pose proof (np_fill_shape g 0 _ _ Hshape) as Hz.
  set (z := np_fill g 0) in *. clearbody z.
  assert (has_shape (Z.to_nat (grid_size s)) (Z.to_nat (grid_size s)) z)
    as Hshape0 by (rewrite Hz; apply tab_shape).
  assert (all_dead z) as Hd by (rewrite Hz; apply tab_constant).
  assert (arrays s0 !! grid s0 = Some z) as Hg0
    by (rewrite <- Hs0; unfold recorded; simpl_state; apply lookup_insert_eq).
  assert (gw_grid (grid_widget s0) = grid s0) as Hgw0
    by (rewrite <- Hs0; unfold recorded; simpl_state; exact Hgw).
  destruct (ticks_dead k s0 z _ _ Hg0 Hgw0 Hshape0 Hd)
    as (sk & Hsk & Hgk & Hhk & Hgenk).
  exists sk, z. split_and!; try done.
  - rewrite Hhk, <- Hs0. unfold recorded. simpl_state. by rewrite Hsum.
  - rewrite Hgenk, <- Hs0. unfold recorded. simpl_state. lia.
Qed.

Lemma cleared_grid_stays_empty_witness :
  exists sk g,
    ticks 3 (recorded (np_fill example_grid 0)
               (shown (np_fill example_grid 0) (reset example_state))) = Ok sk
    /\ arrays sk !! grid sk = Some g
    /\ all_dead g
    /\ live_history sk = replicate 4 0
    /\ generation sk = Z.of_nat 3 + 1.
Proof.
  apply (cleared_grid_stays_empty example_state).
  - exact example_state_reachable.
  - exact (clear_grid_ok example_state example_grid eq_refl eq_refl).
Defined.

(** ** The glider *)

Lemma glider_step (k : nat) (h w : nat) (v u : Z) :
  (k < 4)%nat ->
  (5 <= h)%nat -> (5 <= w)%nat ->
  0 <= v < Z.of_nat h -> 0 <= u < Z.of_nat w ->
  bit (rule (pattern (glider_phase k) v u)
            (sum64 (around (pattern (glider_phase k)) h w v u)))
  = pattern (glider_phase (S k)) v u.
Proof.
  intros Hk Hh Hw Hv Hu. unfold around. rewrite shifts_eq.
  cbn [fmap list_fmap fst snd].
  rewrite !(mod_cases _ (Z.of_nat h)), !(mod_cases _ (Z.of_nat w)) by lia.
  destruct k as [|[|[|[|k]]]]; [| | | |lia];
    unfold pattern, glider_phase; cbn [existsb fst snd].
  - split_tests; first [ exfalso; lia | vm_compute; reflexivity ].
  - split_tests; first [ exfalso; lia | vm_compute; reflexivity ].
  - split_tests; first [ exfalso; lia | vm_compute; reflexivity ].
  - split_tests; first [ exfalso; lia | vm_compute; reflexivity ].
Qed.

Lemma rel_offset (c n y d d' : Z) :
  5 <= n -> 0 <= c < n -> 0 <= y < n -> 0 <= d <= 2 -> d' = d + 1 ->
  (y =? (c + d) mod n) = (rel c n y =? d').
Proof.
  intros Hn Hc Hy Hd ->. unfold rel.
  rewrite (mod_cases (y - c + 1)), (mod_cases (c + d)) by lia.
  split_tests; reflexivity.
Qed.

Lemma rel_shift (c n y a a' : Z) :
  5 <= n -> 0 <= c < n -> 0 <= y < n -> 1 <= a <= 3 -> a' = a + 1 ->
  (rel c n y =? a') = (rel ((c + 1) mod n) n y =? a).
Proof.
  intros Hn Hc Hy Ha ->. unfold rel. rewrite (mod_cases (c + 1)) by lia.
  destruct (Z.ltb_spec (c + 1) 0); [lia|].
  destruct (Z.ltb_spec (c + 1) n).
  - rewrite (mod_cases (y - c + 1)), (mod_cases (y - (c + 1) + 1)) by lia.
    split_tests; reflexivity.
  - rewrite (mod_cases (y - c + 1)), (mod_cases (y - (c + 1 - n) + 1)) by lia.
    split_tests; reflexivity.
Qed.

Lemma glider_rel (h w : nat) (cx cy : Z) :
  (5 <= h)%nat -> (5 <= w)%nat ->
  0 <= cx < Z.of_nat w -> 0 <= cy < Z.of_nat h ->
  glider h w cx cy
  = tab h w (fun y x =>
      pattern (glider_phase 0) (rel cy (Z.of_nat h) y) (rel cx (Z.of_nat w) x)).
Proof.
  intros Hh Hw Hcx Hcy. apply tab_ext. intros y x Hy Hx.
  unfold pattern, glider_phase, glider_cells. cbn [existsb fst snd].
  rewrite (rel_offset cy _ y 0 1), (rel_offset cy _ y 1 2),
    (rel_offset cy _ y 2 3), (rel_offset cx _ x 0 1), (rel_offset cx _ x 1 2),
    (rel_offset cx _ x 2 3) by lia.
  reflexivity.
Qed.

Lemma glider_phase_4 (h w : nat) (cx cy : Z) :
  (5 <= h)%nat -> (5 <= w)%nat ->
  0 <= cx < Z.of_nat w -> 0 <= cy < Z.of_nat h ->
  tab h w (fun y x =>
    pattern (glider_phase 4) (rel cy (Z.of_nat h) y) (rel cx (Z.of_nat w) x))
  = glider h w ((cx + 1) mod Z.of_nat w) ((cy + 1) mod Z.of_nat h).
Proof.
  intros Hh Hw Hcx Hcy.
  rewrite glider_rel by (try done; apply Z.mod_pos_bound; lia).
  apply tab_ext. intros y x Hy Hx.
  unfold pattern, glider_phase. cbn [existsb fst snd].
  rewrite (rel_shift cy _ y 1 2), (rel_shift cy _ y 2 3), (rel_shift cy _ y 3 4),
    (rel_shift cx _ x 1 2), (rel_shift cx _ x 2 3), (rel_shift cx _ x 3 4) by lia.
  reflexivity.
Qed.

Lemma next_glider_phase (k : nat) (h w : nat) (cx cy : Z) :
  (k < 4)%nat -> (5 <= h)%nat -> (5 <= w)%nat ->
  next_grid (tab h w (fun y x =>
    pattern (glider_phase k) (rel cy (Z.of_nat h) y) (rel cx (Z.of_nat w) x)))
  = tab h w (fun y x =>
      pattern (glider_phase (S k)) (rel cy (Z.of_nat h) y) (rel cx (Z.of_nat w) x)).
Proof.
  intros Hk Hh Hw. unfold next_grid. rewrite next_tab. apply tab_ext.
  intros y x Hy Hx. rewrite (around_rel (pattern (glider_phase k))).
  apply glider_step; try done; apply rel_range; lia.
Qed.

(** [X23] The glider travels: on every torus of at least five rows and
    five columns, and wherever the glider lies (also across the edges),
    four timer ticks in a row succeed and leave the same glider one row
    further down and one column further right, wrapping around at the
    edges. *)
Theorem glider_moves_diagonally (s : GameOfLife) (h w : nat) (cx cy : Z) :
  (5 <= h)%nat -> (5 <= w)%nat ->
  0 <= cx < Z.of_nat w -> 0 <= cy < Z.of_nat h ->
  arrays s !! grid s = Some (glider h w cx cy) ->
  gw_grid (grid_widget s) = grid s ->
  exists s4,
    ticks 4 s = Ok s4
    /\ arrays s4 !! grid s4
       = Some (glider h w ((cx + 1) mod Z.of_nat w) ((cy + 1) mod Z.of_nat h))
    /\ length (live_history s4) = (length (live_history s) + 4)%nat.
Proof.
  intros Hh Hw Hcx Hcy Hg Hgw. rewrite glider_rel in Hg by done.
  destruct (update_state_next s _ h w Hg Hgw (tab_shape h w _))
    as (s1 & Hs1 & Hg1 & Hh1 & Hgw1).
  rewrite next_glider_phase in Hg1 by (done || lia).
  destruct (update_state_next s1 _ h w Hg1 Hgw1 (tab_shape h w _))
    as (s2 & Hs2 & Hg2 & Hh2 & Hgw2).
  rewrite next_glider_phase in Hg2 by (done || lia).
  destruct (update_state_next s2 _ h w Hg2 Hgw2 (tab_shape h w _))
    as (s3 & Hs3 & Hg3 & Hh3 & Hgw3).
  rewrite next_glider_phase in Hg3 by (done || lia).
  destruct (update_state_next s3 _ h w Hg3 Hgw3 (tab_shape h w _))
    as (s4 & Hs4 & Hg4 & Hh4 & Hgw4).
  rewrite next_glider_phase in Hg4 by (done || lia).
  rewrite glider_phase_4 in Hg4 by done.
  exists s4. cbn [ticks]. rewrite Hs1. cbn [mbind result_bind].
  rewrite Hs2. cbn [mbind result_bind]. rewrite Hs3. cbn [mbind result_bind].
  rewrite Hs4. cbn [mbind result_bind]. split_and!; try done.
  rewrite Hh4, Hh3, Hh2, Hh1, !length_app. cbn [length]. lia.
Qed.

Lemma glider_moves_diagonally_witness :
  exists s4,
    ticks 4 glider_state = Ok s4
    /\ arrays s4 !! grid s4
       = Some (glider 5 5 ((4 + 1) mod Z.of_nat 5) ((3 + 1) mod Z.of_nat 5))
    /\ length (live_history s4) = (length (live_history glider_state) + 4)%nat.
Proof.
  apply (glider_moves_diagonally glider_state 5 5 4 3); try lia; reflexivity.
Defined.

Example glider_5x5 :
  glider 5 5 4 3
  = [[1; 1; 0; 0; 1]; [0; 0; 0; 0; 0]; [0; 0; 0; 0; 0];
     [1; 0; 0; 0; 0]; [0; 1; 0; 0; 0]]
  /\ glider 5 5 0 4
     = [[0; 0; 1; 0; 0]; [1; 1; 1; 0; 0]; [0; 0; 0; 0; 0];
        [0; 0; 0; 0; 0]; [0; 1; 0; 0; 0]].
Proof. split; reflexivity. Qed.

(** ** The neighbour counts *)

(** [X24] The neighbour array of [update_state] holds counts between 0 and
    8: for every binary grid of any shape, the [int64] sum of the eight
    rolled copies has the shape of the grid and every element of it lies
    between 0 and 8 (no addition wraps around). *)
Theorem neighbors_between_0_and_8 (g : ndarray Z) (h w y x : nat) :
  has_shape h w g ->
  binary g ->
  (y < h)%nat -> (x < w)%nat ->
  has_shape h w (neighbors g)
  /\ exists nb, cell (neighbors g) y x = Some nb /\ 0 <= nb <= 8.
Proof.
  intros Hshape Hb Hy Hx. rewrite (shape_tab 0 h w g Hshape), neighbors_tab.
  split; [apply tab_shape|]. eexists. split; [by apply cell_tab|].
  assert (length (around (get 0 g) h w (Z.of_nat y) (Z.of_nat x)) = 8%nat)
    as Hlen by (unfold around; by rewrite length_fmap, shifts_eq).
  destruct (sum64_small (around (get 0 g) h w (Z.of_nat y) (Z.of_nat x)))
    as [_ Hs].
  - unfold around. apply Forall_fmap, Forall_forall. intros ij _. cbn.
    destruct (binary_get g ((Z.of_nat y - ij.1) mod Z.of_nat h)
                ((Z.of_nat x - ij.2) mod Z.of_nat w) Hb); lia.
  - rewrite Hlen. lia.
  - rewrite Hlen in Hs. lia.
Qed.

Lemma neighbors_between_0_and_8_witness :
  has_shape 5 5 (neighbors example_grid)
  /\ exists nb, cell (neighbors example_grid) 0 2 = Some nb /\ 0 <= nb <= 8.
Proof.
  apply (neighbors_between_0_and_8 example_grid 5 5 0 2).
  - exact example_grid_shape.
  - exact example_grid_binary.
  - lia.
  - lia.
Defined.

Example neighbors_of_blinker :
  neighbors example_grid
  = [[1;2;3;2;1]; [1;1;2;1;1]; [1;2;3;2;1]; [0;0;0;0;0]; [0;0;0;0;0]].
Proof. reflexivity. Qed.
